(** * model_factory.py: the layer factory and its shape bookkeeping

    A shallow embedding of [src/model_factory.py]: the Python values the
    factory reads from a configuration, the objects it mutates (the [param]
    attribute dictionary and the [current_input_dim] list), the modules it
    builds, and the [forward] methods of the classes the file defines, stated
    over an interface of tensor operations.  *)

From stdpp Require Import gmap strings list.
From Stdlib Require Import ZArith Lia.

Local Open Scope Z_scope.
Set Warnings "-register-all".

(** ** Exceptions and results *)

(** The exceptions the code can run into.  [TorchError] is an exception
    raised inside a torch call that rejects its input (a [RuntimeError] for
    shapes that do not fit).  [OutsideModel] marks an input the embedding
    does not follow: a value of a type the factory does not compute with
    (Python would either raise a [TypeError] or carry on with an overloaded
    operator such as [str * int]), or a layer whose shape rule is not written
    down below; no statement is about such inputs. *)
Inductive exn :=
| AttributeError
| IndexError
| TypeError
| ZeroDivisionError
| OverflowError
| UnboundLocalError
| TorchError
| OutsideModel.

Inductive pyres (A : Type) :=
| Ok (a : A)
| Raise (e : exn).
Arguments Ok {A} a.
Arguments Raise {A} e.

Global Instance pyres_ret : MRet pyres := fun A a => Ok a.
Global Instance pyres_bind : MBind pyres := fun A B f m =>
  match m with Ok a => f a | Raise e => Raise e end.
Global Instance pyres_fmap : FMap pyres := fun A B f m =>
  match m with Ok a => Ok (f a) | Raise e => Raise e end.

(** ** Binary64 arithmetic

    [(in_L-k)/s+1], [current_input_dim[2]/param.kernel_size] and
    [nb_channel/2] are Python true divisions: the operands are integers and
    the result is the binary64 number nearest to the exact quotient (ties to
    even).  A finite binary64 number is kept as [mant * 2^expo]. *)
Module B64.

Definition prec : Z := 53.
Definition emin : Z := -1074.
Definition emax : Z := 1024.

Record float := mk { mant : Z; expo : Z }.

(** [n / d] rounded to the nearest integer, ties to the even one ([0 < d]). *)
Definition rne_div (n d : Z) : Z :=
  let q := n / d in
  let r := n mod d in
  if 2 * r <? d then q
  else if d <? 2 * r then q + 1
  else if Z.even q then q else q + 1.

(** [floor (log2 (n / d))] for [0 < n] and [0 < d]. *)
Definition ilog2_ratio (n d : Z) : Z :=
  let e0 := Z.log2 n - Z.log2 d in
  if d * 2 ^ Z.max 0 e0 <=? n * 2 ^ Z.max 0 (- e0) then e0 else e0 - 1.

(** The exponent of the last place of [n / d]: 53 significant bits, and the
    subnormal numbers share the exponent [emin]. *)
Definition ulp_exp (n d : Z) : Z :=
  Z.max emin (ilog2_ratio (Z.abs n) d - (prec - 1)).

(** The binary64 number nearest to [n / d] ([0 < d]); a result of magnitude
    [2^emax] or more does not exist and Python raises [OverflowError]. *)
Definition round (n d : Z) : pyres float :=
  if n =? 0 then Ok (mk 0 0)
  else
    let ex := ulp_exp n d in
    let m := rne_div (n * 2 ^ Z.max 0 (- ex)) (d * 2 ^ Z.max 0 ex) in
    if (0 <=? ex) && (2 ^ emax <=? Z.abs m * 2 ^ ex)
    then Raise OverflowError
    else Ok (mk m ex).

(** [a / b] on Python integers. *)
Definition truediv (a b : Z) : pyres float :=
  if b =? 0 then Raise ZeroDivisionError
  else if b <? 0 then round (- a) (- b)
  else round a b.

(** [x + i] for a float [x] and a small integer constant [i]. *)
Definition add_int (x : float) (i : Z) : pyres float :=
  if 0 <=? expo x
  then round (mant x * 2 ^ expo x + i) 1
  else round (mant x + i * 2 ^ (- expo x)) (2 ^ (- expo x)).

(** [int(np.floor(x))]. *)
Definition floor (x : float) : Z :=
  if 0 <=? expo x then mant x * 2 ^ expo x else mant x / 2 ^ (- expo x).

(** [int(x)]: truncation towards zero. *)
Definition trunc (x : float) : Z :=
  if 0 <=? expo x then mant x * 2 ^ expo x else mant x ÷ 2 ^ (- expo x).

(** [x == i] for a float [x] and an integer [i]. *)
Definition eq_int (x : float) (i : Z) : bool :=
  if 0 <=? expo x then mant x * 2 ^ expo x =? i
  else mant x =? i * 2 ^ (- expo x).

End B64.

(** ** Python values and objects *)

Definition loc := nat.

(** What a configuration entry can hold: a scalar or a list of integers. *)
Inductive value :=
| VNone
| VBool (b : bool)
| VInt (z : Z)
| VFloat (f : B64.float)
| VStr (s : string)
| VList (l : list Z).

(** The argument [param] of the factory: the attribute dictionary of a layer
    (an object of the store), or a plain value such as the name of an
    activation. *)
Inductive pyarg :=
| Ref (l : loc)
| Val (v : value).

(** The mutable objects the factory works on. *)
Inductive obj :=
| ODict (d : gmap string value)
| OList (l : list Z).

(** What [print] wrote: the text, and for an f-string ending in [{param}]
    the dictionary that was formatted. *)
Inductive printed :=
| Line (text : string)
| LineParam (text : string) (param : gmap string value).

Record state := mkState { heap : list obj; stdout : list printed }.

(** Python's [==]. *)
Definition py_eq (a b : value) : bool :=
  match a, b with
  | VNone, VNone => true
  | VBool x, VBool y => Bool.eqb x y
  | VBool x, VInt y | VInt y, VBool x => Z.b2z x =? y
  | VInt x, VInt y => x =? y
  | VFloat x, VInt y | VInt y, VFloat x => B64.eq_int x y
  | VFloat x, VBool y | VBool y, VFloat x => B64.eq_int x (Z.b2z y)
  | VFloat x, VFloat y =>
      if B64.expo x <=? B64.expo y
      then B64.mant x =? B64.mant y * 2 ^ (B64.expo y - B64.expo x)
      else B64.mant y =? B64.mant x * 2 ^ (B64.expo x - B64.expo y)
  | VStr x, VStr y => String.eqb x y
  | VList x, VList y => bool_decide (x = y)
  | _, _ => false
  end.

(** [a == v] where [a] may be a dictionary: a dictionary equals no scalar. *)
Definition arg_eq (a : pyarg) (v : value) : bool :=
  match a with Val x => py_eq x v | Ref _ => false end.

(** [x is False]. *)
Definition is_False (a : value) : bool :=
  match a with VBool false => true | _ => false end.

(** An operand of integer arithmetic ([bool] is a subclass of [int]). *)
Definition as_int (a : value) : pyres Z :=
  match a with
  | VInt z => Ok z
  | VBool b => Ok (Z.b2z b)
  | _ => Raise OutsideModel
  end.

(** A number: an [int], a [float] or a [bool]. *)
Definition is_number (a : value) : bool :=
  match a with
  | VBool _ | VInt _ | VFloat _ => true
  | _ => false
  end.

(** [l[i]] on a Python list: a negative index counts from the end. *)
Definition py_index {A} (l : list A) (i : Z) : pyres A :=
  let n := Z.of_nat (length l) in
  let j := if i <? 0 then i + n else i in
  if (0 <=? j) && (j <? n)
  then match l !! Z.to_nat j with Some x => Ok x | None => Raise IndexError end
  else Raise IndexError.

(** [l[i] = x]. *)
Definition py_store {A} (l : list A) (i : Z) (x : A) : pyres (list A) :=
  let n := Z.of_nat (length l) in
  let j := if i <? 0 then i + n else i in
  if (0 <=? j) && (j <? n) then Ok (<[Z.to_nat j := x]> l) else Raise IndexError.

(** [v[i]] for a configuration value such as [param.kernel_size]. *)
Definition py_getitem (v : value) (i : Z) : pyres Z :=
  match v with
  | VList l => py_index l i
  | VNone | VBool _ | VInt _ | VFloat _ => Raise TypeError
  | VStr _ => Raise OutsideModel
  end.

(** Integer arithmetic on configuration values. *)
Definition py_sub (a b : value) : pyres value :=
  x ← as_int a; y ← as_int b; Ok (VInt (x - y)).
Definition py_mul (a b : value) : pyres value :=
  x ← as_int a; y ← as_int b; Ok (VInt (x * y)).
Definition py_floordiv (a b : value) : pyres value :=
  x ← as_int a; y ← as_int b;
  if y =? 0 then Raise ZeroDivisionError else Ok (VInt (x / y)).

(** ** The state and exception monad *)

Definition M (A : Type) : Type := state → pyres A * state.

Global Instance M_ret : MRet M := fun A a st => (Ok a, st).
Global Instance M_bind : MBind M := fun A B f m st =>
  match m st with
  | (Ok a, st') => f a st'
  | (Raise e, st') => (Raise e, st')
  end.

Global Instance M_fmap : FMap M := fun A B f m st =>
  match m st with
  | (Ok a, st') => (Ok (f a), st')
  | (Raise e, st') => (Raise e, st')
  end.

Definition raise {A} (e : exn) : M A := fun st => (Raise e, st).
Definition lift {A} (r : pyres A) : M A := fun st => (r, st).
Definition print (p : printed) : M unit :=
  fun st => (Ok tt, mkState (heap st) (stdout st ++ [p])).

(** [param.name]. *)
Definition getattr (param : pyarg) (name : string) : M value := fun st =>
  match param with
  | Ref l =>
      match heap st !! l with
      | Some (ODict d) =>
          match d !! name with
          | Some v => (Ok v, st)
          | None => (Raise AttributeError, st)
          end
      | _ => (Raise AttributeError, st)
      end
  | _ => (Raise AttributeError, st)
  end.

(** [param.name = v]. *)
Definition setattr (param : pyarg) (name : string) (v : value) : M unit := fun st =>
  match param with
  | Ref l =>
      match heap st !! l with
      | Some (ODict d) =>
          (Ok tt, mkState (<[l := ODict (<[name := v]> d)]> (heap st)) (stdout st))
      | _ => (Raise AttributeError, st)
      end
  | _ => (Raise AttributeError, st)
  end.

(** ['name' not in param.keys()]. *)
Definition not_in_keys (name : string) (param : pyarg) : M bool := fun st =>
  match param with
  | Ref l =>
      match heap st !! l with
      | Some (ODict d) => (Ok (bool_decide (d !! name = None)), st)
      | _ => (Raise AttributeError, st)
      end
  | _ => (Raise AttributeError, st)
  end.

(** The dictionary behind [param], for [print(f'... {param}')]. *)
Definition format_param (text : string) (param : pyarg) : M printed := fun st =>
  match param with
  | Ref l =>
      match heap st !! l with
      | Some (ODict d) => (Ok (LineParam text d), st)
      | _ => (Raise OutsideModel, st)
      end
  | _ => (Raise OutsideModel, st)
  end.

(** The whole list behind [current_input_dim]. *)
Definition list_read (cid : loc) : M (list Z) := fun st =>
  match heap st !! cid with
  | Some (OList l) => (Ok l, st)
  | _ => (Raise OutsideModel, st)
  end.

(** [current_input_dim[i]]. *)
Definition list_get (cid : loc) (i : Z) : M Z :=
  l ← list_read cid; lift (py_index l i).

(** [current_input_dim[i] = x]: the list object is updated in place. *)
Definition list_set (cid : loc) (i : Z) (x : Z) : M unit := fun st =>
  match heap st !! cid with
  | Some (OList l) =>
      match py_store l i x with
      | Ok l' => (Ok tt, mkState (<[cid := OList l']> (heap st)) (stdout st))
      | Raise e => (Raise e, st)
      end
  | _ => (Raise OutsideModel, st)
  end.

(** A list display [[a, b]] or a comprehension: a new list object. *)
Definition list_new (l : list Z) : M loc := fun st =>
  (Ok (length (heap st)), mkState (heap st ++ [OList l]) (stdout st)).

(** ** Modules

    A module of [torch.nn] (and [SincConv_fast], imported from
    [model_module]) is kept as the constructor call that built it, with the
    defaults of the arguments the call leaves out written in.  A module of a
    class of this file is kept as the attributes its [__init__] set; the
    [__init__] itself is the function of the class's name below.

    The constructors of [torch.nn] test their arguments ([nn.Dropout] wants
    [0 <= p <= 1], a convolution sizes a tensor can have, and stride 1 with padding
    ['same']) and raise otherwise.  These tests are not run here: a module
    value records the call, whatever its arguments.  A statement that
    something is built therefore either starts from a call that returned
    or carries the conditions under which the constructors return. *)
Inductive module :=
| nn_LayerNorm (normalized_shape eps : value)
| nn_BatchNorm1d (num_features affine : value)
| nn_BatchNorm2d (num_features : value)
| nn_Conv1d (in_channels out_channels kernel_size stride padding dilation : value)
| nn_Conv2d (in_channels out_channels kernel_size stride padding groups : value)
| nn_ConvTranspose2d (in_channels out_channels kernel_size stride : value)
| nn_MaxPool1d (kernel_size stride : value)
| nn_MaxPool2d (kernel_size stride : value)
| nn_Linear (in_features out_features : value)
| nn_Dropout (p : value)
| nn_Flatten (start_dim : value)
| nn_Sigmoid
| nn_Softmax
| nn_ReLU
| nn_LeakyReLU
| nn_PReLU
| nn_GELU
| nn_Identity
| nn_Sequential (modules : list module)
| weight_norm (m : module)
| SincConv_fast (in_channels out_channels kernel_size stride sample_rate : value)
| mk_ConvNeXtBlock (dwconv norm pwconv1 act pwconv2 drop_path : module)
| StochasticDepth (drop_prob : value)
| Chomp1d (chomp_size : value)
| mk_TemporalBlock (conv1 chomp1 relu1 dropout1 conv2 chomp2 relu2 dropout2 : module)
    (net : module) (downsample : option module) (relu : module)
| mk_TemporalConvNet (network : module)
| mk_ResidualBlock (conv1 conv2 : module) (downsample : bool)
    (conv_ds : option module) (relu : module) (out_channels : value)
| mk_depthwise_separable_conv (depthwise pointwise : module)
| nnAbs
| nnMean (dim keepdim : value)
| nnMax (dim keepdim : value)
| nnSqueeze (dim : value)
| nnPermute (shape : value)
| mk_nnBatchNorm1dT (module_ : module)
| nnEmpty
| nnSoftmaxWeight (nb_channel : value)
| mk_nnAutoPoolWeight (autopool_param : value)
| mk_nnAutoPoolWeightSplit (autopool_param nb_channel : value).

(** A float literal [n/d] of the source, such as [0.2] or [1e-6]. *)
Definition float_lit (n d : Z) : value :=
  match B64.round n d with Ok f => VFloat f | Raise _ => VNone end.

Definition ConvNeXtBlock (in_channels out_channels kernel_size drop_path : value)
  : pyres module :=
  padding ← py_floordiv kernel_size (VInt 2);
  let dwconv := nn_Conv2d in_channels in_channels kernel_size (VInt 1) padding in_channels in
  let norm := nn_LayerNorm in_channels (float_lit 1 1000000) in
  wide ← py_mul (VInt 4) in_channels;
  let pwconv1 := nn_Linear in_channels wide in
  let act := nn_GELU in
  wide' ← py_mul (VInt 4) in_channels;
  let pwconv2 := nn_Linear wide' out_channels in
  let drop := if py_eq drop_path (VInt 0) then nn_Identity else StochasticDepth drop_path in
  Ok (mk_ConvNeXtBlock dwconv norm pwconv1 act pwconv2 drop).

(** [init_weights] only redraws the numbers held by the convolutions. *)
Definition TemporalBlock
  (n_inputs n_outputs kernel_size stride dilation padding dropout : value) : module :=
  let conv1 := weight_norm (nn_Conv1d n_inputs n_outputs kernel_size stride padding dilation) in
  let chomp1 := Chomp1d padding in
  let relu1 := nn_ReLU in
  let dropout1 := nn_Dropout dropout in
  let conv2 := weight_norm (nn_Conv1d n_outputs n_outputs kernel_size stride padding dilation) in
  let chomp2 := Chomp1d padding in
  let relu2 := nn_ReLU in
  let dropout2 := nn_Dropout dropout in
  let net := nn_Sequential [conv1; chomp1; relu1; dropout1; conv2; chomp2; relu2; dropout2] in
  let downsample :=
    if negb (py_eq n_inputs n_outputs)
    then Some (nn_Conv1d n_inputs n_outputs (VInt 1) (VInt 1) (VInt 0) (VInt 1))
    else None in
  mk_TemporalBlock conv1 chomp1 relu1 dropout1 conv2 chomp2 relu2 dropout2
    net downsample nn_ReLU.

(** [len(num_channels)]. *)
Definition py_len (v : value) : pyres nat :=
  match v with
  | VList l => Ok (length l)
  | VNone | VBool _ | VInt _ | VFloat _ => Raise TypeError
  | VStr _ => Raise OutsideModel
  end.

(** The body of the loop [for i in range(num_levels)], run for the indices
    of [levels] in turn. *)
Fixpoint TemporalConvNet_loop (num_inputs num_channels kernel_size dropout : value)
  (levels : list nat) (layers : list module) : pyres (list module) :=
  match levels with
  | [] => Ok layers
  | i :: levels' =>
      let dilation_size := 2 ^ Z.of_nat i in
      in_channels ←
        (if Nat.eqb i 0 then Ok num_inputs
         else VInt <$> py_getitem num_channels (Z.of_nat i - 1));
      out_channels ← VInt <$> py_getitem num_channels (Z.of_nat i);
      km1 ← py_sub kernel_size (VInt 1);
      padding ← py_mul km1 (VInt dilation_size);
      TemporalConvNet_loop num_inputs num_channels kernel_size dropout levels'
        (layers ++ [TemporalBlock in_channels out_channels kernel_size (VInt 1)
                      (VInt dilation_size) padding dropout])
  end.

Definition TemporalConvNet (num_inputs num_channels kernel_size dropout : value)
  : pyres module :=
  num_levels ← py_len num_channels;
  layers ← TemporalConvNet_loop num_inputs num_channels kernel_size dropout
              (seq 0 num_levels) [];
  Ok (mk_TemporalConvNet (nn_Sequential layers)).

Definition ResidualBlock (in_channels out_channels kernel_size stride : value) : module :=
  let conv1 := nn_Sequential
    [nn_Conv2d in_channels out_channels kernel_size stride (VStr "same") (VInt 1);
     nn_BatchNorm2d out_channels;
     nn_ReLU] in
  let conv2 := nn_Sequential
    [nn_Conv2d out_channels out_channels kernel_size (VInt 1) (VStr "same") (VInt 1);
     nn_BatchNorm2d out_channels] in
  if negb (py_eq in_channels out_channels)
  then mk_ResidualBlock conv1 conv2 true
         (Some (nn_Conv2d in_channels out_channels (VInt 1) (VInt 1) (VStr "same") (VInt 1)))
         nn_ReLU out_channels
  else mk_ResidualBlock conv1 conv2 false None nn_ReLU out_channels.

Definition depthwise_separable_conv (nin kernels_per_layer nout kernel_size padding : value)
  : pyres module :=
  mid ← py_mul nin kernels_per_layer;
  let depthwise := nn_Conv2d nin mid kernel_size (VInt 1) padding nin in
  mid' ← py_mul nin kernels_per_layer;
  let pointwise := nn_Conv2d mid' nout (VInt 1) (VInt 1) (VInt 0) (VInt 1) in
  Ok (mk_depthwise_separable_conv depthwise pointwise).

Definition nnBatchNorm1dT (num_features : value) : module :=
  mk_nnBatchNorm1dT (nn_BatchNorm1d num_features (VBool true)).

Definition nnAutoPoolWeight : module :=
  mk_nnAutoPoolWeight (float_lit 0 1).

Definition nnAutoPoolWeightSplit (nb_channel : value) : module :=
  mk_nnAutoPoolWeightSplit (float_lit 0 1) nb_channel.

(** The class a module is an instance of ([weight_norm] hands back the
    module it was given). *)
Fixpoint class_of (m : module) : string :=
  match m with
  | nn_LayerNorm _ _ => "nn.LayerNorm"
  | nn_BatchNorm1d _ _ => "nn.BatchNorm1d"
  | nn_BatchNorm2d _ => "nn.BatchNorm2d"
  | nn_Conv1d _ _ _ _ _ _ => "nn.Conv1d"
  | nn_Conv2d _ _ _ _ _ _ => "nn.Conv2d"
  | nn_ConvTranspose2d _ _ _ _ => "nn.ConvTranspose2d"
  | nn_MaxPool1d _ _ => "nn.MaxPool1d"
  | nn_MaxPool2d _ _ => "nn.MaxPool2d"
  | nn_Linear _ _ => "nn.Linear"
  | nn_Dropout _ => "nn.Dropout"
  | nn_Flatten _ => "nn.Flatten"
  | nn_Sigmoid => "nn.Sigmoid"
  | nn_Softmax => "nn.Softmax"
  | nn_ReLU => "nn.ReLU"
  | nn_LeakyReLU => "nn.LeakyReLU"
  | nn_PReLU => "nn.PReLU"
  | nn_GELU => "nn.GELU"
  | nn_Identity => "nn.Identity"
  | nn_Sequential _ => "nn.Sequential"
  | weight_norm m' => class_of m'
  | SincConv_fast _ _ _ _ _ => "SincConv_fast"
  | mk_ConvNeXtBlock _ _ _ _ _ _ => "ConvNeXtBlock"
  | StochasticDepth _ => "StochasticDepth"
  | Chomp1d _ => "Chomp1d"
  | mk_TemporalBlock _ _ _ _ _ _ _ _ _ _ _ => "TemporalBlock"
  | mk_TemporalConvNet _ => "TemporalConvNet"
  | mk_ResidualBlock _ _ _ _ _ _ => "ResidualBlock"
  | mk_depthwise_separable_conv _ _ => "depthwise_separable_conv"
  | nnAbs => "nnAbs"
  | nnMean _ _ => "nnMean"
  | nnMax _ _ => "nnMax"
  | nnSqueeze _ => "nnSqueeze"
  | nnPermute _ => "nnPermute"
  | mk_nnBatchNorm1dT _ => "nnBatchNorm1dT"
  | nnEmpty => "nnEmpty"
  | nnSoftmaxWeight _ => "nnSoftmaxWeight"
  | mk_nnAutoPoolWeight _ => "nnAutoPoolWeight"
  | mk_nnAutoPoolWeightSplit _ _ => "nnAutoPoolWeightSplit"
  end.

(** ** The factory *)

(** [int(np.floor( (in_L-k)/s+1 ))]: a true division, an addition of
    floats, and the floor of the result. *)
Definition f_get_next_size (in_L k s : Z) : pyres Z :=
  q ← B64.truediv (in_L - k) s;
  r ← B64.add_int q 1;
  Ok (B64.floor r).

(** [int(np.floor(a / b))]. *)
Definition int_floor_div (a b : Z) : pyres Z :=
  q ← B64.truediv a b; Ok (B64.floor q).

(** [int(a / b)]. *)
Definition int_div (a b : Z) : pyres Z :=
  q ← B64.truediv a b; Ok (B64.trunc q).

(** The local variable [activation] is bound by one of the five branches
    only; [return activation] needs it bound. *)
Definition f_get_activation (activation_type : pyarg) : pyres module :=
  let activation :=
    if arg_eq activation_type (VStr "Sigmoid") then Some nn_Sigmoid
    else if arg_eq activation_type (VStr "Softmax") then Some nn_Softmax
    else if arg_eq activation_type (VStr "ReLU") then Some nn_ReLU
    else if arg_eq activation_type (VStr "LeakyReLU") then Some nn_LeakyReLU
    else if arg_eq activation_type (VStr "PReLU") then Some nn_PReLU
    else None in
  match activation with
  | Some a => Ok a
  | None => Raise UnboundLocalError
  end.

(** The double quote character around [{module_type}] in the message of the
    last branch. *)
Definition dquote : string := String (Ascii.ascii_of_nat 34) EmptyString.

(** [if param.name==-1: param.name = v]. *)
Definition fill_if_minus_one (param : pyarg) (name : string) (v : M value) : M unit :=
  cur ← getattr param name;
  if py_eq cur (VInt (-1)) then x ← v; setattr param name x else mret tt.

(** [if 'name' not in param.keys(): param.name = v]. *)
Definition default_if_absent (param : pyarg) (name : string) (v : M value) : M unit :=
  absent ← not_in_keys name param;
  if (absent : bool) then x ← v; setattr param name x else mret tt.

(** [current_input_dim[i] = param.name]. *)
Definition store_attr (cid : loc) (i : Z) (param : pyarg) (name : string) : M unit :=
  v ← getattr param name; z ← lift (as_int v); list_set cid i z.

(** [current_input_dim[i] = f_get_next_size(current_input_dim[i], k, s)]
    with [k] and [s] already evaluated. *)
Definition store_next_size (cid : loc) (i : Z) (k s : M Z) : M unit :=
  in_L ← list_get cid i; k' ← k; s' ← s;
  r ← lift (f_get_next_size in_L k' s');
  list_set cid i r.

(** [param.name] as an integer, and [param.name[i]]. *)
Definition int_attr (param : pyarg) (name : string) : M Z :=
  v ← getattr param name; lift (as_int v).
Definition item_attr (param : pyarg) (name : string) (i : Z) : M Z :=
  v ← getattr param name; lift (py_getitem v i).

(** The branches of the [if]/[elif] chain of [f_parse_component], one
    definition per branch, in the order of the source.  Each gives the module
    it binds and the list [current_input_dim] names when the branch ends. *)

Definition branch_LayerNorm (param : pyarg) (cid : loc) : M (option module * loc) :=
  fill_if_minus_one param "normalized_shape"
    (l ← list_read cid; mret (VList (drop 1 l)));;
  normalized_shape ← getattr param "normalized_shape";
  mret (Some (nn_LayerNorm normalized_shape (float_lit 1 100000)), cid).

Definition branch_BatchNorm1d (param : pyarg) (cid : loc) : M (option module * loc) :=
  fill_if_minus_one param "num_features" (VInt <$> list_get cid (-1));;
  default_if_absent param "affine" (mret (VBool true));;
  num_features ← getattr param "num_features";
  affine ← getattr param "affine";
  mret (Some (nn_BatchNorm1d num_features affine), cid).

Definition branch_BatchNorm1dT (param : pyarg) (cid : loc) : M (option module * loc) :=
  fill_if_minus_one param "num_features" (VInt <$> list_get cid (-1));;
  num_features ← getattr param "num_features";
  mret (Some (nnBatchNorm1dT num_features), cid).

Definition branch_BatchNorm2d (param : pyarg) (cid : loc) : M (option module * loc) :=
  fill_if_minus_one param "num_features" (VInt <$> list_get cid 1);;
  num_features ← getattr param "num_features";
  mret (Some (nn_BatchNorm2d num_features), cid).

Definition branch_SincNet (param : pyarg) (cid : loc) : M (option module * loc) :=
  fill_if_minus_one param "in_channels" (VInt <$> list_get cid 1);;
  in_channels ← getattr param "in_channels";
  out_channels ← getattr param "out_channels";
  kernel_size ← getattr param "kernel_size";
  stride ← getattr param "stride";
  sr_hz ← getattr param "sr_hz";
  let module := SincConv_fast in_channels out_channels kernel_size stride sr_hz in
  store_attr cid 1 param "out_channels";;
  store_next_size cid 2 (int_attr param "kernel_size") (int_attr param "stride");;
  mret (Some module, cid).

Definition branch_Conv1d (param : pyarg) (cid : loc) : M (option module * loc) :=
  fill_if_minus_one param "in_channels" (VInt <$> list_get cid 1);;
  in_channels ← getattr param "in_channels";
  out_channels ← getattr param "out_channels";
  kernel_size ← getattr param "kernel_size";
  stride ← getattr param "stride";
  let module := nn_Conv1d in_channels out_channels kernel_size stride (VInt 0) (VInt 1) in
  store_attr cid 1 param "out_channels";;
  store_next_size cid 2 (int_attr param "kernel_size") (int_attr param "stride");;
  mret (Some module, cid).

Definition branch_Conv1dTCN (param : pyarg) (cid : loc) : M (option module * loc) :=
  fill_if_minus_one param "in_channels" (VInt <$> list_get cid 1);;
  in_channels ← getattr param "in_channels";
  num_channels ← getattr param "num_channels";
  module ← lift (TemporalConvNet in_channels num_channels (VInt 2) (float_lit 1 5));
  num_channels' ← getattr param "num_channels";
  last ← lift (py_getitem num_channels' (-1));
  list_set cid 1 last;;
  mret (Some module, cid).

Definition branch_Conv2d (param : pyarg) (cid : loc) : M (option module * loc) :=
  fill_if_minus_one param "in_channels" (VInt <$> list_get cid 1);;
  default_if_absent param "padding" (mret (VStr "valid"));;
  in_channels ← getattr param "in_channels";
  out_channels ← getattr param "out_channels";
  kernel_size ← getattr param "kernel_size";
  stride ← getattr param "stride";
  padding ← getattr param "padding";
  let module := nn_Conv2d in_channels out_channels kernel_size stride padding (VInt 1) in
  store_attr cid 1 param "out_channels";;
  padding' ← getattr param "padding";
  (if negb (py_eq padding' (VStr "same")) then
     store_next_size cid 2 (item_attr param "kernel_size" 0) (item_attr param "stride" 0);;
     store_next_size cid 3 (item_attr param "kernel_size" 1) (item_attr param "stride" 1)
   else mret tt);;
  mret (Some module, cid).

Definition branch_Conv2dDS (param : pyarg) (cid : loc) : M (option module * loc) :=
  fill_if_minus_one param "in_channels" (VInt <$> list_get cid 1);;
  default_if_absent param "padding" (mret (VStr "valid"));;
  in_channels ← getattr param "in_channels";
  out_channels ← getattr param "out_channels";
  kernel_size ← getattr param "kernel_size";
  padding ← getattr param "padding";
  module ← lift (depthwise_separable_conv in_channels (VInt 1) out_channels kernel_size padding);
  store_attr cid 1 param "out_channels";;
  padding' ← getattr param "padding";
  (if negb (py_eq padding' (VStr "same")) then
     store_next_size cid 2 (item_attr param "kernel_size" 0) (item_attr param "stride" 0);;
     store_next_size cid 3 (item_attr param "kernel_size" 1) (item_attr param "stride" 1)
   else mret tt);;
  mret (Some module, cid).

Definition branch_Conv2dRes (param : pyarg) (cid : loc) : M (option module * loc) :=
  fill_if_minus_one param "in_channels" (VInt <$> list_get cid 1);;
  padding ← getattr param "padding";
  (if negb (py_eq padding (VStr "same"))
   then p ← format_param "only work for padding=same, got " param; print p
   else mret tt);;
  stride ← getattr param "stride";
  (if negb (py_eq stride (VInt 1))
   then p ← format_param "only work for stride=1, got " param; print p
   else mret tt);;
  in_channels ← getattr param "in_channels";
  out_channels ← getattr param "out_channels";
  kernel_size ← getattr param "kernel_size";
  let module := ResidualBlock in_channels out_channels kernel_size (VInt 1) in
  store_attr cid 1 param "out_channels";;
  mret (Some module, cid).

Definition branch_Conv2dNext (param : pyarg) (cid : loc) : M (option module * loc) :=
  fill_if_minus_one param "in_channels" (VInt <$> list_get cid 1);;
  out_channels ← getattr param "out_channels";
  in_channels ← getattr param "in_channels";
  (if negb (py_eq out_channels in_channels)
   then print (Line "param.out_channels should = param.in_channels because of residual connection")
   else mret tt);;
  padding ← getattr param "padding";
  (if negb (py_eq padding (VStr "same"))
   then p ← format_param "only work for padding=same, got " param; print p
   else mret tt);;
  stride ← getattr param "stride";
  (if negb (py_eq stride (VInt 1))
   then p ← format_param "only work for stride=1, got " param; print p
   else mret tt);;
  in_channels' ← getattr param "in_channels";
  out_channels' ← getattr param "out_channels";
  module ← lift (ConvNeXtBlock in_channels' out_channels' (VInt 7) (float_lit 0 1));
  store_attr cid 1 param "out_channels";;
  mret (Some module, cid).

Definition branch_ConvTranspose2d (param : pyarg) (cid : loc) : M (option module * loc) :=
  fill_if_minus_one param "in_channels" (VInt <$> list_get cid 1);;
  in_channels ← getattr param "in_channels";
  out_channels ← getattr param "out_channels";
  kernel_size ← getattr param "kernel_size";
  stride ← getattr param "stride";
  let module := nn_ConvTranspose2d in_channels out_channels kernel_size stride in
  store_attr cid 1 param "out_channels";;
  h ← list_get cid 2; s0 ← item_attr param "stride" 0; list_set cid 2 (h * s0);;
  w ← list_get cid 3; s1 ← item_attr param "stride" 1; list_set cid 3 (w * s1);;
  mret (Some module, cid).

Definition branch_MaxPool1d (param : pyarg) (cid : loc) : M (option module * loc) :=
  default_if_absent param "stride" (getattr param "kernel_size");;
  kernel_size ← getattr param "kernel_size";
  stride ← getattr param "stride";
  let module := nn_MaxPool1d kernel_size stride in
  t ← list_get cid 2; k ← int_attr param "kernel_size";
  r ← lift (int_floor_div t k);
  list_set cid 2 r;;
  mret (Some module, cid).

Definition branch_MaxPool2d (param : pyarg) (cid : loc) : M (option module * loc) :=
  default_if_absent param "stride" (getattr param "kernel_size");;
  kernel_size ← getattr param "kernel_size";
  stride ← getattr param "stride";
  let module := nn_MaxPool2d kernel_size stride in
  h ← list_get cid 2; k0 ← item_attr param "kernel_size" 0;
  r0 ← lift (int_floor_div h k0);
  list_set cid 2 r0;;
  w ← list_get cid 3; k1 ← item_attr param "kernel_size" 1;
  r1 ← lift (int_floor_div w k1);
  list_set cid 3 r1;;
  mret (Some module, cid).

Definition branch_Linear (param : pyarg) (cid : loc) : M (option module * loc) :=
  fill_if_minus_one param "in_features" (VInt <$> list_get cid (-1));;
  in_features ← getattr param "in_features";
  out_features ← getattr param "out_features";
  let module := nn_Linear in_features out_features in
  store_attr cid (-1) param "out_features";;
  mret (Some module, cid).

Definition branch_Activation (param : pyarg) (cid : loc) : M (option module * loc) :=
  module ← lift (f_get_activation param);
  mret (Some module, cid).

Definition branch_Dropout (param : pyarg) (cid : loc) : M (option module * loc) :=
  p ← getattr param "p";
  mret (Some (nn_Dropout p), cid).

Definition branch_Flatten (param : pyarg) (cid : loc) : M (option module * loc) :=
  start_dim ← getattr param "start_dim";
  let module := nn_Flatten start_dim in
  d0 ← list_get cid 0; d1 ← list_get cid 1; d2 ← list_get cid 2;
  cid' ← list_new [d0; d1 * d2];
  mret (Some module, cid').

Definition branch_Squeeze (param : pyarg) (cid : loc) : M (option module * loc) :=
  dim ← getattr param "dim";
  let module := nnSqueeze dim in
  l ← list_read cid;
  cid' ← list_new (filter (λ c, 1 < c) l);
  mret (Some module, cid').

Definition branch_Permute (param : pyarg) (cid : loc) : M (option module * loc) :=
  shape ← getattr param "shape";
  let module := nnPermute shape in
  shape' ← getattr param "shape";
  l ← list_read cid;
  new ← lift (match shape' with
              | VList ss => mapM (py_index l) ss
              | VNone | VBool _ | VInt _ | VFloat _ => Raise TypeError
              | VStr _ => Raise OutsideModel
              end);
  cid' ← list_new new;
  mret (Some module, cid').

Definition branch_Mean (param : pyarg) (cid : loc) : M (option module * loc) :=
  default_if_absent param "keepdim" (mret (VBool false));;
  dim ← getattr param "dim";
  keepdim ← getattr param "keepdim";
  let module := nnMean dim keepdim in
  keepdim' ← getattr param "keepdim";
  if is_False keepdim' then
    d0 ← list_get cid 0; d1 ← list_get cid 1;
    cid' ← list_new [d0; d1];
    mret (Some module, cid')
  else mret (Some module, cid).

Definition branch_Max (param : pyarg) (cid : loc) : M (option module * loc) :=
  default_if_absent param "keepdim" (mret (VBool false));;
  dim ← getattr param "dim";
  keepdim ← getattr param "keepdim";
  let module := nnMax dim keepdim in
  keepdim' ← getattr param "keepdim";
  if is_False keepdim' then
    d0 ← list_get cid 0; d1 ← list_get cid 1;
    cid' ← list_new [d0; d1];
    mret (Some module, cid')
  else mret (Some module, cid).

Definition branch_AutoPoolWeight (param : pyarg) (cid : loc) : M (option module * loc) :=
  let module := nnAutoPoolWeight in
  list_set cid 3 1;;
  mret (Some module, cid).

Definition branch_AutoPoolWeightSplit (param : pyarg) (cid : loc) : M (option module * loc) :=
  c ← list_get cid 1;
  let module := nnAutoPoolWeightSplit (VInt c) in
  c' ← list_get cid 1; half ← lift (int_div c' 2);
  list_set cid 1 half;;
  list_set cid 3 1;;
  mret (Some module, cid).

Definition branch_SoftmaxWeight (param : pyarg) (cid : loc) : M (option module * loc) :=
  c ← list_get cid 1;
  let module := nnSoftmaxWeight (VInt c) in
  c' ← list_get cid 1; half ← lift (int_div c' 2);
  list_set cid 1 half;;
  list_set cid 3 1;;
  mret (Some module, cid).

Definition branch_AbsLayer (param : pyarg) (cid : loc) : M (option module * loc) :=
  mret (Some nnAbs, cid).

Definition branch_DoubleChannel (param : pyarg) (cid : loc) : M (option module * loc) :=
  let module := nnEmpty in
  c ← list_get cid 1;
  list_set cid 1 (c * 2);;
  mret (Some module, cid).

Definition branch_unknown (module_type : string) (cid : loc) : M (option module * loc) :=
  print (Line (String.append "UNKNOWN module "
                 (String.append dquote (String.append module_type dquote))));;
  mret (None, cid).

(** The [if]/[elif] chain of [f_parse_component]. *)
Definition f_parse_component_body (module_type : string) (param : pyarg)
  (current_input_dim : loc) : M (option module * loc) :=
  if String.eqb module_type "LayerNorm" then branch_LayerNorm param current_input_dim
  else if String.eqb module_type "BatchNorm1d" then branch_BatchNorm1d param current_input_dim
  else if String.eqb module_type "BatchNorm1dT" then branch_BatchNorm1dT param current_input_dim
  else if String.eqb module_type "BatchNorm2d" then branch_BatchNorm2d param current_input_dim
  else if String.eqb module_type "SincNet" then branch_SincNet param current_input_dim
  else if String.eqb module_type "Conv1d" then branch_Conv1d param current_input_dim
  else if String.eqb module_type "Conv1dTCN" then branch_Conv1dTCN param current_input_dim
  else if String.eqb module_type "Conv2d" then branch_Conv2d param current_input_dim
  else if String.eqb module_type "Conv2dDS" then branch_Conv2dDS param current_input_dim
  else if String.eqb module_type "Conv2dRes" then branch_Conv2dRes param current_input_dim
  else if String.eqb module_type "Conv2dNext" then branch_Conv2dNext param current_input_dim
  else if String.eqb module_type "ConvTranspose2d" then branch_ConvTranspose2d param current_input_dim
  else if String.eqb module_type "MaxPool1d" then branch_MaxPool1d param current_input_dim
  else if String.eqb module_type "MaxPool2d" then branch_MaxPool2d param current_input_dim
  else if String.eqb module_type "Linear" then branch_Linear param current_input_dim
  else if String.eqb module_type "Activation" then branch_Activation param current_input_dim
  else if String.eqb module_type "Dropout" then branch_Dropout param current_input_dim
  else if String.eqb module_type "Flatten" then branch_Flatten param current_input_dim
  else if String.eqb module_type "Squeeze" then branch_Squeeze param current_input_dim
  else if String.eqb module_type "Permute" then branch_Permute param current_input_dim
  else if String.eqb module_type "Mean" then branch_Mean param current_input_dim
  else if String.eqb module_type "Max" then branch_Max param current_input_dim
  else if String.eqb module_type "AutoPoolWeight" then branch_AutoPoolWeight param current_input_dim
  else if String.eqb module_type "AutoPoolWeightSplit" then branch_AutoPoolWeightSplit param current_input_dim
  else if String.eqb module_type "SoftmaxWeight" then branch_SoftmaxWeight param current_input_dim
  else if String.eqb module_type "AbsLayer" then branch_AbsLayer param current_input_dim
  else if String.eqb module_type "DoubleChannel" then branch_DoubleChannel param current_input_dim
  else branch_unknown module_type current_input_dim.

(** [return module, current_input_dim]: reading [module] raises
    [UnboundLocalError] when no branch bound it. *)
Definition f_parse_component (module_type : string) (param : pyarg)
  (current_input_dim : loc) : M (module * loc) :=
  '(module, cid) ← f_parse_component_body module_type param current_input_dim;
  match module with
  | Some m => mret (m, cid)
  | None => raise UnboundLocalError
  end.

(** ** Tensors and [forward]

    The [forward] methods are written over the tensor operations they call.
    [nn_forward] is the call of a module that is not defined in this file
    (a [torch.nn] layer, a [weight_norm]-wrapped one, [SincConv_fast]);
    [t_param] is the tensor held by an [nn.Parameter]; [t_iadd] is the
    in-place [out += residual]; [t_slice d a b] is the basic slice
    [x[:, ..., a:b]] along dimension [d]; [t_drop_path] is what
    [StochasticDepth.forward] does for a non-zero [drop_prob] (nothing
    outside training, a random mask otherwise). *)
Class Torch (T : Type) := {
  nn_forward : module → T → pyres T;
  t_param : value → T;
  t_add : T → T → pyres T;
  t_sub : T → T → pyres T;
  t_iadd : T → T → pyres T;
  t_mul : T → T → pyres T;
  t_div : T → T → pyres T;
  t_exp : T → pyres T;
  t_abs : T → pyres T;
  t_softmax : value → T → pyres T;
  t_sum : value → value → T → pyres T;
  t_max : value → value → T → pyres T;
  t_mean : value → value → T → pyres T;
  t_squeeze : value → T → pyres T;
  t_permute : value → T → pyres T;
  t_slice : nat → option Z → option Z → T → pyres T;
  t_drop_path : value → T → pyres T
}.

Section Forward.
Context {T : Type} `{Torch T}.

(** [int(self.nb_channel/2)]. *)
Definition half_channels (nb_channel : value) : pyres Z :=
  n ← as_int nb_channel; int_div n 2.

Definition f_autopool_weights (data : T) (autopool_param : value) : pyres T :=
  x ← t_mul data (t_param autopool_param);
  max_values ← t_max (VInt 3) (VBool true) x;
  d ← t_sub x max_values;
  softmax ← t_exp d;
  total ← t_sum (VInt 3) (VBool true) softmax;
  t_div softmax total.

(** [m(x)] for a module [m]: the [forward] of its class. *)
Fixpoint forward (m : module) (x : T) : pyres T :=
  match m with
  | nn_Sequential modules =>
      (fix run (ms : list module) (x : T) : pyres T :=
         match ms with
         | [] => Ok x
         | m' :: ms' => y ← forward m' x; run ms' y
         end) modules x
  | mk_ConvNeXtBlock dwconv norm pwconv1 act pwconv2 drop_path =>
      let residual := x in
      x ← forward dwconv x;
      x ← t_permute (VList [0; 2; 3; 1]) x;
      x ← forward norm x;
      x ← forward pwconv1 x;
      x ← forward act x;
      x ← forward pwconv2 x;
      x ← t_permute (VList [0; 3; 1; 2]) x;
      y ← forward drop_path x;
      t_add y residual
  | StochasticDepth drop_prob =>
      if py_eq drop_prob (float_lit 0 1) then Ok x else t_drop_path drop_prob x
  | Chomp1d chomp_size =>
      c ← as_int chomp_size;
      t_slice 2 None (Some (- c)) x
  | mk_TemporalBlock _ _ _ _ _ _ _ _ net downsample relu =>
      out ← forward net x;
      res ← match downsample with
            | None => Ok x
            | Some d => forward d x
            end;
      s ← t_add out res;
      forward relu s
  | mk_TemporalConvNet network => forward network x
  | mk_ResidualBlock conv1 conv2 downsample conv_ds relu _ =>
      let residual := x in
      out ← forward conv1 x;
      out ← forward conv2 out;
      residual ←
        (if downsample
         then match conv_ds with
              | Some c => forward c x
              | None => Raise AttributeError
              end
         else Ok residual);
      out ← t_iadd out residual;
      forward relu out
  | mk_depthwise_separable_conv depthwise pointwise =>
      out ← forward depthwise x;
      forward pointwise out
  | nnAbs => t_abs x
  | nnMean dim keepdim => t_mean dim keepdim x
  | nnMax dim keepdim => t_max dim keepdim x
  | nnSqueeze dim => t_squeeze dim x
  | nnPermute shape => t_permute shape x
  | mk_nnBatchNorm1dT module_ =>
      y ← t_permute (VList [0; 2; 1]) x;
      y ← forward module_ y;
      t_permute (VList [0; 2; 1]) y
  | nnEmpty => Ok x
  | nnSoftmaxWeight nb_channel =>
      h ← half_channels nb_channel;
      upper ← t_slice 1 (Some h) None x;
      weights ← t_softmax (VInt 3) upper;
      h' ← half_channels nb_channel;
      lower ← t_slice 1 None (Some h') x;
      prod ← t_mul lower weights;
      t_sum (VInt 3) (VBool true) prod
  | mk_nnAutoPoolWeight autopool_param =>
      weights ← f_autopool_weights x autopool_param;
      prod ← t_mul x weights;
      t_sum (VInt 3) (VBool true) prod
  | mk_nnAutoPoolWeightSplit autopool_param nb_channel =>
      h ← half_channels nb_channel;
      upper ← t_slice 1 (Some h) None x;
      weights ← f_autopool_weights upper autopool_param;
      h' ← half_channels nb_channel;
      lower ← t_slice 1 None (Some h') x;
      prod ← t_mul lower weights;
      t_sum (VInt 3) (VBool true) prod
  | _ => nn_forward m x
  end.

End Forward.

(** ** Shapes

    The tensor interface read on shapes: a tensor is the list of its sizes,
    and every operation is the shape rule torch documents for it.  Layers
    carry the hyper-parameters of the calls made in this file (no padding,
    dilation or ceil mode for the pooling layers, no padding or output
    padding for the transposed convolution). *)
Module Shape.

(** A dimension index [d] of an [n]-dimensional tensor: [-n <= d < n]. *)
Definition norm_dim (n : nat) (d : Z) : pyres nat :=
  let n' := Z.of_nat n in
  if (- n' <=? d) && (d <? n')
  then Ok (Z.to_nat (if d <? 0 then d + n' else d))
  else Raise TorchError.

(** Broadcasting, sizes aligned from the last one: two sizes fit when they
    are equal or one of them is 1. *)
Fixpoint broadcast_rev (a b : list Z) : pyres (list Z) :=
  match a, b with
  | [], _ => Ok b
  | _, [] => Ok a
  | x :: a', y :: b' =>
      r ← broadcast_rev a' b';
      if x =? y then Ok (x :: r)
      else if x =? 1 then Ok (y :: r)
      else if y =? 1 then Ok (x :: r)
      else Raise TorchError
  end.

Definition broadcast (a b : list Z) : pyres (list Z) :=
  reverse <$> broadcast_rev (reverse a) (reverse b).

(** An in-place operation keeps the shape of its target. *)
Definition broadcast_onto (a b : list Z) : pyres (list Z) :=
  r ← broadcast a b;
  if bool_decide (r = a) then Ok a else Raise TorchError.

(** A reduction along [dim]; [torch.max] refuses an empty dimension. *)
Definition reduce (nonempty : bool) (dim keepdim : value) (s : list Z) : pyres (list Z) :=
  match dim, keepdim, s with
  | VInt d, VBool k, _ :: _ =>
      i ← norm_dim (length s) d;
      match s !! i with
      | Some n =>
          if nonempty && (n =? 0) then Raise TorchError
          else Ok (if k then <[i := 1]> s else delete i s)
      | None => Raise TorchError
      end
  | _, _, _ => Raise OutsideModel
  end.

Definition same_along (dim : value) (s : list Z) : pyres (list Z) :=
  match dim, s with
  | VInt d, _ :: _ => _ ← norm_dim (length s) d; Ok s
  | _, _ => Raise OutsideModel
  end.

Definition squeeze (dim : value) (s : list Z) : pyres (list Z) :=
  match dim, s with
  | VInt d, _ :: _ =>
      i ← norm_dim (length s) d;
      Ok (if bool_decide (s !! i = Some 1) then delete i s else s)
  | _, _ => Raise OutsideModel
  end.

Definition permute (dims : value) (s : list Z) : pyres (list Z) :=
  match dims with
  | VList ds =>
      idx ← mapM (norm_dim (length s)) ds;
      if bool_decide (length idx = length s ∧ NoDup idx)
      then mapM (λ i, match s !! i with Some n => Ok n | None => Raise TorchError end) idx
      else Raise TorchError
  | _ => Raise OutsideModel
  end.

(** The length of [range(n)[start:stop]]. *)
Definition slice_len (n : Z) (start stop : option Z) : Z :=
  let clamp v := if v <? 0 then Z.max 0 (v + n) else Z.min v n in
  let a := match start with None => 0 | Some v => clamp v end in
  let b := match stop with None => n | Some v => clamp v end in
  Z.max 0 (b - a).

Definition slice (d : nat) (start stop : option Z) (s : list Z) : pyres (list Z) :=
  match s !! d with
  | Some n => Ok (<[d := slice_len n start stop]> s)
  | None => Raise TorchError
  end.

(** A size or a pair of sizes, as [kernel_size] and [stride] are given. *)
Definition as_pair (v : value) : pyres (Z * Z) :=
  match v with
  | VInt z => Ok (z, z)
  | VList [a; b] => Ok (a, b)
  | _ => Raise OutsideModel
  end.

(** The output size of a convolution or pooling window along one dimension:
    [floor((L + 2p - d(k-1) - 1) / s) + 1], on integers; torch refuses a
    window larger than the padded input. *)
Definition window_out (L k s p d : Z) : pyres Z :=
  if (0 <? k) && (0 <? s) && (0 <=? p) && (0 <? d) && (0 <=? L) then
    if L + 2 * p <? d * (k - 1) + 1 then Raise TorchError
    else if L =? 0 then Raise OutsideModel
    else Ok ((L + 2 * p - d * (k - 1) - 1) / s + 1)
  else Raise OutsideModel.

(** The output size of a transposed convolution: [(L - 1) s + k]. *)
Definition transposed_out (L k s : Z) : pyres Z :=
  if (0 <? k) && (0 <? s) && (0 <? L) then Ok ((L - 1) * s + k)
  else Raise OutsideModel.

Definition channels_fit (c : Z) (expected : Z) : pyres unit :=
  if 0 <? expected then
    if c =? expected then Ok tt else Raise TorchError
  else Raise OutsideModel.

Definition product (l : list Z) : Z := foldr Z.mul 1 l.

Fixpoint nn_shape (m : module) (s : list Z) : pyres (list Z) :=
  match m, s with
  | weight_norm m', _ => nn_shape m' s
  | nn_Conv1d (VInt cin) (VInt cout) (VInt k) (VInt st) (VInt p) (VInt d), [B; C; L] =>
      _ ← channels_fit C cin;
      _ ← channels_fit cout cout;
      L' ← window_out L k st p d;
      Ok [B; cout; L']
  | nn_Conv2d (VInt cin) (VInt cout) kernel_size stride padding (VInt 1), [B; C; H; W] =>
      _ ← channels_fit C cin;
      _ ← channels_fit cout cout;
      '(k0, k1) ← as_pair kernel_size;
      '(s0, s1) ← as_pair stride;
      match padding with
      | VStr "same" =>
          if (s0 =? 1) && (s1 =? 1) && (0 <? k0) && (0 <? k1) && (0 <? H) && (0 <? W)
          then Ok [B; cout; H; W] else Raise OutsideModel
      | VStr "valid" =>
          H' ← window_out H k0 s0 0 1; W' ← window_out W k1 s1 0 1;
          Ok [B; cout; H'; W']
      | VStr _ => Raise OutsideModel
      | _ =>
          '(p0, p1) ← as_pair padding;
          H' ← window_out H k0 s0 p0 1; W' ← window_out W k1 s1 p1 1;
          Ok [B; cout; H'; W']
      end
  | nn_ConvTranspose2d (VInt cin) (VInt cout) kernel_size stride, [B; C; H; W] =>
      _ ← channels_fit C cin;
      _ ← channels_fit cout cout;
      '(k0, k1) ← as_pair kernel_size;
      '(s0, s1) ← as_pair stride;
      H' ← transposed_out H k0 s0; W' ← transposed_out W k1 s1;
      Ok [B; cout; H'; W']
  | nn_MaxPool1d (VInt k) (VInt st), [B; C; L] =>
      L' ← window_out L k st 0 1;
      Ok [B; C; L']
  | nn_MaxPool2d kernel_size stride, [B; C; H; W] =>
      '(k0, k1) ← as_pair kernel_size;
      '(s0, s1) ← as_pair stride;
      H' ← window_out H k0 s0 0 1; W' ← window_out W k1 s1 0 1;
      Ok [B; C; H'; W']
  | nn_Linear (VInt fin) (VInt fout), _ :: _ =>
      _ ← channels_fit (List.last s 0) fin;
      _ ← channels_fit fout fout;
      Ok (removelast s ++ [fout])
  | nn_Flatten (VInt start_dim), _ :: _ =>
      i ← norm_dim (length s) start_dim;
      Ok (take i s ++ [product (drop i s)])
  | nn_Dropout _, _ | nn_Sigmoid, _ | nn_Softmax, _ | nn_ReLU, _
  | nn_LeakyReLU, _ | nn_PReLU, _ | nn_GELU, _ | nn_Identity, _ => Ok s
  | _, _ => Raise OutsideModel
  end.

(** [StochasticDepth.forward] with a non-zero [drop_prob].  In evaluation
    mode it hands its input back; in training mode it needs a number (for
    [1 - self.drop_prob]) and an input with a first dimension (for
    [x.shape[0]]), and its mask, of sizes [[x.shape[0], 1, ..., 1]],
    broadcasts against the input.  A [drop_prob] that is no number (the
    default [None]) and an input without dimensions raise in training mode
    only: they are left outside. *)
Definition drop_path (drop_prob : value) (s : list Z) : pyres (list Z) :=
  match s with
  | _ :: _ => if is_number drop_prob then Ok s else Raise OutsideModel
  | [] => Raise OutsideModel
  end.

Global Instance torch : Torch (list Z) := {|
  nn_forward := nn_shape;
  t_param := λ _, [];
  t_add := broadcast;
  t_sub := broadcast;
  t_iadd := broadcast_onto;
  t_mul := broadcast;
  t_div := broadcast;
  t_exp := Ok;
  t_abs := Ok;
  t_softmax := same_along;
  t_sum := reduce false;
  t_max := reduce true;
  t_mean := reduce false;
  t_squeeze := squeeze;
  t_permute := permute;
  t_slice := slice;
  t_drop_path := drop_path
|}.

End Shape.

(** ** Views of the store *)

(** The dictionary, or the list, an object of the store holds. *)
Definition param_of (st : state) (p : loc) : option (gmap string value) :=
  match heap st !! p with Some (ODict d) => Some d | _ => None end.

Definition dims_of (st : state) (c : loc) : option (list Z) :=
  match heap st !! c with Some (OList l) => Some l | _ => None end.

(** [param.name] as the caller reads it in a state. *)
Definition attr_of (st : state) (p : loc) (name : string) : option value :=
  d ← param_of st p; d !! name.

(** The tags the chain of [f_parse_component] tests for, and the names
    [f_get_activation] tests for, in the order of the source. *)
Definition supported_types : list string :=
  ["LayerNorm"; "BatchNorm1d"; "BatchNorm1dT"; "BatchNorm2d"; "SincNet";
   "Conv1d"; "Conv1dTCN"; "Conv2d"; "Conv2dDS"; "Conv2dRes"; "Conv2dNext";
   "ConvTranspose2d"; "MaxPool1d"; "MaxPool2d"; "Linear"; "Activation";
   "Dropout"; "Flatten"; "Squeeze"; "Permute"; "Mean"; "Max";
   "AutoPoolWeight"; "AutoPoolWeightSplit"; "SoftmaxWeight"; "AbsLayer";
   "DoubleChannel"].

Definition activation_types : list string :=
  ["Sigmoid"; "Softmax"; "ReLU"; "LeakyReLU"; "PReLU"].

(** The class each tag stands for, as the names of the chain give it; the
    tag ['Activation'] stands for the activation class its parameter names. *)
Definition dispatch_table : list (string * string) :=
  [("LayerNorm", "nn.LayerNorm"); ("BatchNorm1d", "nn.BatchNorm1d");
   ("BatchNorm1dT", "nnBatchNorm1dT"); ("BatchNorm2d", "nn.BatchNorm2d");
   ("SincNet", "SincConv_fast"); ("Conv1d", "nn.Conv1d");
   ("Conv1dTCN", "TemporalConvNet"); ("Conv2d", "nn.Conv2d");
   ("Conv2dDS", "depthwise_separable_conv"); ("Conv2dRes", "ResidualBlock");
   ("Conv2dNext", "ConvNeXtBlock"); ("ConvTranspose2d", "nn.ConvTranspose2d");
   ("MaxPool1d", "nn.MaxPool1d"); ("MaxPool2d", "nn.MaxPool2d");
   ("Linear", "nn.Linear"); ("Dropout", "nn.Dropout"); ("Flatten", "nn.Flatten");
   ("Squeeze", "nnSqueeze"); ("Permute", "nnPermute"); ("Mean", "nnMean");
   ("Max", "nnMax"); ("AutoPoolWeight", "nnAutoPoolWeight");
   ("AutoPoolWeightSplit", "nnAutoPoolWeightSplit");
   ("SoftmaxWeight", "nnSoftmaxWeight"); ("AbsLayer", "nnAbs");
   ("DoubleChannel", "nnEmpty")].

Fixpoint assoc (k : string) (l : list (string * string)) : option string :=
  match l with
  | [] => None
  | (k', v) :: l' => if String.eqb k k' then Some v else assoc k l'
  end.

Definition expected_class (module_type : string) (param : pyarg) : option string :=
  if String.eqb module_type "Activation" then
    match param with
    | Val (VStr s) =>
        if bool_decide (s ∈ activation_types) then Some (String.append "nn." s) else None
    | _ => None
    end
  else assoc module_type dispatch_table.

(** The branches that bind [current_input_dim] to a new list. *)
Definition rebinding_types : list string :=
  ["Flatten"; "Squeeze"; "Permute"; "Mean"; "Max"].

(** ** Definitions the statements use *)

(** A branch that returns has bound [module] to an instance of [cls], and,
    when [keeps] holds, names the list it was given. *)
Definition branch_builds (cls : string) (keeps : bool)
  (branch : pyarg → loc → M (option module * loc)) : Prop :=
  ∀ param cid st om cid' st',
    branch param cid st = (Ok (om, cid'), st') →
    ∃ m, om = Some m ∧ class_of m = cls ∧ (keeps = true → cid' = cid).

(** A configuration every branch accepts, on a 4-dimensional input;
    [kernel_size] and [stride] are integers for the 1-dimensional layers and
    pairs for the others. *)
Definition sample_param (module_type : string) : gmap string value :=
  let one_d := bool_decide (module_type ∈ ["SincNet"; "Conv1d"; "MaxPool1d"]) in
  list_to_map
    [("normalized_shape", VInt (-1)); ("num_features", VInt (-1));
     ("in_channels", VInt (-1)); ("in_features", VInt (-1));
     ("out_channels", VInt 8); ("out_features", VInt 8);
     ("num_channels", VList [8; 8]); ("padding", VStr "same");
     ("kernel_size", if one_d then VInt 3 else VList [3; 3]);
     ("stride", if one_d then VInt 1 else VList [1; 1]);
     ("sr_hz", VInt 16000); ("p", float_lit 1 2); ("start_dim", VInt 1);
     ("dim", VInt 2); ("shape", VList [0; 2; 1; 3])].

(** The argument [param] for [sample_param]: the name of an activation for
    ['Activation'], the dictionary otherwise. *)
Definition sample_arg (module_type : string) : pyarg :=
  if String.eqb module_type "Activation" then Val (VStr "ReLU") else Ref 0%nat.

Definition sample_state (module_type : string) : state :=
  mkState [ODict (sample_param module_type); OList [2; 4; 16; 16]] [].

(** The call returned. *)
Definition returns {A} (r : pyres A * state) : bool :=
  match r with (Ok _, _) => true | (Raise _, _) => false end.

(** The tags whose branch fills [in_channels]. *)
Definition conv_types : list string :=
  ["SincNet"; "Conv1d"; "Conv1dTCN"; "Conv2d"; "Conv2dDS"; "Conv2dRes";
   "Conv2dNext"; "ConvTranspose2d"].

(** [m] is what its class builds when called with [in_channels] (for
    [TemporalConvNet] [num_inputs], for [depthwise_separable_conv] [nin])
    set to [v]. *)
Definition with_in_channels (m : module) (v : value) : Prop :=
  match m with
  | SincConv_fast i _ _ _ _ | nn_Conv1d i _ _ _ _ _ | nn_Conv2d i _ _ _ _ _
  | nn_ConvTranspose2d i _ _ _ => i = v
  | mk_TemporalConvNet _ => ∃ nc k dr, TemporalConvNet v nc k dr = Ok m
  | mk_ResidualBlock _ _ _ _ _ _ => ∃ o k s, ResidualBlock v o k s = m
  | mk_ConvNeXtBlock _ _ _ _ _ _ => ∃ o k dp, ConvNeXtBlock v o k dp = Ok m
  | mk_depthwise_separable_conv _ _ =>
      ∃ kpl o k p, depthwise_separable_conv v kpl o k p = Ok m
  | _ => False
  end.








(** A probability as [nn.Dropout] wants it: an [int] or a [float] [p] with
    [0 <= p <= 1] (the constructor raises when [p < 0 or p > 1]). *)
Definition is_probability (p : value) : bool :=
  match p with
  | VInt z => (0 <=? z) && (z <=? 1)
  | VFloat x =>
      (0 <=? B64.mant x) &&
      (if 0 <=? B64.expo x then B64.mant x * 2 ^ B64.expo x <=? 1
       else B64.mant x <=? 2 ^ (- B64.expo x))
  | _ => false
  end.

(** Block [i] of the stack [TemporalConvNet] builds. *)
Definition tcn_level (num_inputs : value) (cs : list Z) (kernel_size : Z)
  (dropout : value) (i : nat) : module :=
  TemporalBlock
    (match i with O => num_inputs | S j => VInt (nth j cs 0) end)
    (VInt (nth i cs 0)) (VInt kernel_size) (VInt 1)
    (VInt (2 ^ Z.of_nat i)) (VInt ((kernel_size - 1) * 2 ^ Z.of_nat i)) dropout.

(** Tensors as the expressions that compute them. *)
Inductive term :=
| Input
| Param (v : value)
| Call (m : module) (x : term)
| Op (name : string) (args : list value) (xs : list term)
| Slice (d : nat) (start stop : option Z) (x : term).

Module Sym.

Global Instance torch : Torch term := {|
  nn_forward := λ m x, Ok (Call m x);
  t_param := Param;
  t_add := λ a b, Ok (Op "add" [] [a; b]);
  t_sub := λ a b, Ok (Op "sub" [] [a; b]);
  t_iadd := λ a b, Ok (Op "iadd" [] [a; b]);
  t_mul := λ a b, Ok (Op "mul" [] [a; b]);
  t_div := λ a b, Ok (Op "div" [] [a; b]);
  t_exp := λ a, Ok (Op "exp" [] [a]);
  t_abs := λ a, Ok (Op "abs" [] [a]);
  t_softmax := λ d a, Ok (Op "softmax" [d] [a]);
  t_sum := λ d k a, Ok (Op "sum" [d; k] [a]);
  t_max := λ d k a, Ok (Op "max" [d; k] [a]);
  t_mean := λ d k a, Ok (Op "mean" [d; k] [a]);
  t_squeeze := λ d a, Ok (Op "squeeze" [d] [a]);
  t_permute := λ d a, Ok (Op "permute" [d] [a]);
  t_slice := λ d a b x, Ok (Slice d a b x);
  t_drop_path := λ p a, Ok (Op "drop_path" [p] [a])
|}.

End Sym.

(** The factory run on a fresh store holding [param] and the list [dims]:
    the module, and the list it returns. *)
Definition factory_shape (module_type : string) (param : gmap string value)
  (dims : list Z) : pyres (module * list Z) :=
  match f_parse_component module_type (Ref 0%nat) 1%nat
          (mkState [ODict param; OList dims] []) with
  | (Ok (m, cid), st) =>
      match dims_of st cid with
      | Some l => Ok (m, l)
      | None => Raise OutsideModel
      end
  | (Raise e, _) => Raise e
  end.

(** ** What the further statements use *)

(** The state a run ends in, whatever its outcome. *)
Definition final {A} (r : pyres A * state) : state := r.2.

(** [m] keeps the relation [R] between the state it starts in and the state
    it ends in, whether it returns or raises. *)
Definition preserves {A} (R : state → state → Prop) (m : M A) : Prop :=
  ∀ st, R st (final (m st)).

(** Every entry of [d] that does not hold [-1] is the same in [d'], and no
    key of [d] is missing in [d']. *)
Definition entries_kept (d d' : gmap string value) : Prop :=
  ∀ name v, d !! name = Some v →
    (py_eq v (VInt (-1)) = false → d' !! name = Some v) ∧ is_Some (d' !! name).

(** What a call on [param] and [current_input_dim] may change in the store:
    entries of the dictionary [param] that are absent or hold [-1], the
    values (not the number) of the entries of the list [current_input_dim],
    and the end of the output; no object disappears. *)
Definition touches_only (param : pyarg) (cid : loc) (st st' : state) : Prop :=
  (∀ q d, param_of st q = Some d →
     ∃ d', param_of st' q = Some d' ∧ entries_kept d d' ∧ (param ≠ Ref q → d' = d)) ∧
  (∀ c l, dims_of st c = Some l →
     ∃ l', dims_of st' c = Some l' ∧ length l' = length l ∧ (c ≠ cid → l' = l)) ∧
  (∃ out, stdout st' = stdout st ++ out).

(** Nothing was added to the output. *)
Definition silent (st st' : state) : Prop := stdout st' = stdout st.

(** The tags whose branch may print a warning. *)
Definition warning_types : list string := ["Conv2dRes"; "Conv2dNext"].

(** The list a rebinding branch builds from the list [l] it was given. *)
Definition rebound (module_type : string) (d : gmap string value) (l : list Z)
  : pyres (list Z) :=
  if String.eqb module_type "Flatten" then
    d0 ← py_index l 0; d1 ← py_index l 1; d2 ← py_index l 2; Ok [d0; d1 * d2]
  else if String.eqb module_type "Squeeze" then Ok (filter (λ c, 1 < c) l)
  else if String.eqb module_type "Permute" then
    match d !! "shape" with
    | Some (VList ss) => mapM (py_index l) ss
    | _ => Raise TypeError
    end
  else d0 ← py_index l 0; d1 ← py_index l 1; Ok [d0; d1].

(** The branch binds [current_input_dim] to a new list: always for
    ['Flatten'], ['Squeeze'] and ['Permute'], and when [keepdim] is [False]
    (given or by default) for ['Mean'] and ['Max']. *)
Definition rebinds (module_type : string) (d : gmap string value) : bool :=
  if bool_decide (module_type ∈ ["Mean"; "Max"]) then
    match d !! "keepdim" with
    | None => true
    | Some v => is_False v
    end
  else true.


(** The tags whose module works entry by entry. *)
Definition pointwise_types : list string := ["Activation"; "Dropout"; "AbsLayer"].

(** The length [Chomp1d(c)] leaves of a sequence of length [L]:
    [len(range(L)[:-c])]. *)
Definition chomped (L c : Z) : Z :=
  if 0 <? c then Z.max 0 (L - c) else Z.min (- c) L.

(** [m] is, or holds, a [StochasticDepth] module. *)
Fixpoint uses_StochasticDepth (m : module) : bool :=
  match m with
  | StochasticDepth _ => true
  | nn_Sequential modules =>
      (fix any (ms : list module) : bool :=
         match ms with
         | [] => false
         | m' :: ms' => uses_StochasticDepth m' || any ms'
         end) modules
  | weight_norm m' => uses_StochasticDepth m'
  | mk_ConvNeXtBlock dwconv norm pwconv1 act pwconv2 drop_path =>
      uses_StochasticDepth dwconv || uses_StochasticDepth norm ||
      uses_StochasticDepth pwconv1 || uses_StochasticDepth act ||
      uses_StochasticDepth pwconv2 || uses_StochasticDepth drop_path
  | mk_TemporalBlock conv1 chomp1 relu1 dropout1 conv2 chomp2 relu2 dropout2
      net downsample relu =>
      uses_StochasticDepth net ||
      match downsample with Some d => uses_StochasticDepth d | None => false end ||
      uses_StochasticDepth relu
  | mk_TemporalConvNet network => uses_StochasticDepth network
  | mk_ResidualBlock conv1 conv2 _ conv_ds relu _ =>
      uses_StochasticDepth conv1 || uses_StochasticDepth conv2 ||
      match conv_ds with Some d => uses_StochasticDepth d | None => false end ||
      uses_StochasticDepth relu
  | mk_depthwise_separable_conv depthwise pointwise =>
      uses_StochasticDepth depthwise || uses_StochasticDepth pointwise
  | mk_nnBatchNorm1dT module_ => uses_StochasticDepth module_
  | _ => false
  end.

(** ** Shapes through the normalisation layers and the grouped convolution

    The layers [Shape.nn_shape] leaves out, by the rules torch documents for
    them.  [nn.LayerNorm] and the batch normalisations return the shape of
    their input: [LayerNorm] wants the last sizes of its input to be
    [normalized_shape], [BatchNorm1d] an input [(N, C)] or [(N, C, L)] and
    [BatchNorm2d] an input [(N, C, H, W)], with [C = num_features].  A
    convolution with [groups] wants both channel counts to be multiples of
    [groups] and has the output size of the plain convolution.  A batch
    normalisation handed a single value per channel fails in training mode
    and works in evaluation mode: such an input is left outside, and so is
    an input with an empty dimension. *)
Module Norm.

(** The number of values a batch normalisation sees per channel. *)
Definition values_per_channel (s : list Z) : Z :=
  match s with
  | B :: _ :: rest => B * Shape.product rest
  | _ => 0
  end.

Definition batch_norm (num_features C : Z) (s : list Z) : pyres (list Z) :=
  _ ← Shape.channels_fit C num_features;
  if forallb (λ n, 0 <? n) s && (1 <? values_per_channel s) then Ok s
  else Raise OutsideModel.

Definition nn_shape (m : module) (s : list Z) : pyres (list Z) :=
  match m, s with
  | nn_LayerNorm (VInt c) _, _ :: _ =>
      _ ← Shape.channels_fit (List.last s 0) c;
      if forallb (λ n, 0 <? n) s then Ok s else Raise OutsideModel
  | nn_LayerNorm (VList ns) _, _ =>
      if forallb (λ n, 0 <? n) s && negb (bool_decide (ns = [])) then
        if bool_decide (ns `suffix_of` s) then Ok s else Raise TorchError
      else Raise OutsideModel
  | nn_BatchNorm1d (VInt c) _, [_; C] => batch_norm c C s
  | nn_BatchNorm1d (VInt c) _, [_; C; _] => batch_norm c C s
  | nn_BatchNorm2d (VInt c), [_; C; _; _] => batch_norm c C s
  | nn_Conv2d (VInt cin) (VInt cout) kernel_size stride padding (VInt groups), _ =>
      if (0 <? groups) && (cin mod groups =? 0) && (cout mod groups =? 0)
      then Shape.nn_shape (nn_Conv2d (VInt cin) (VInt cout) kernel_size stride padding (VInt 1)) s
      else Raise OutsideModel
  | _, _ => Shape.nn_shape m s
  end.

Definition torch : Torch (list Z) := {|
  nn_forward := nn_shape;
  t_param := λ _, [];
  t_add := Shape.broadcast;
  t_sub := Shape.broadcast;
  t_iadd := Shape.broadcast_onto;
  t_mul := Shape.broadcast;
  t_div := Shape.broadcast;
  t_exp := Ok;
  t_abs := Ok;
  t_softmax := Shape.same_along;
  t_sum := Shape.reduce false;
  t_max := Shape.reduce true;
  t_mean := Shape.reduce false;
  t_squeeze := Shape.squeeze;
  t_permute := Shape.permute;
  t_slice := Shape.slice;
  t_drop_path := Shape.drop_path
|}.

(** [m(x)] on shapes, with these layers. *)
Definition shape_of (m : module) (s : list Z) : pyres (list Z) :=
  @forward (list Z) torch m s.

End Norm.

(** ** Running the monad *)

Lemma bind_Ok {A B} (f : A → M B) (m : M A) st b st' :
  (m ≫= f) st = (Ok b, st') →
  ∃ a st1, m st = (Ok a, st1) ∧ f a st1 = (Ok b, st').
Proof.
  unfold mbind, M_bind. destruct (m st) as [[a|e] st1]; [eauto | discriminate].
Qed.

Lemma fmap_Ok {A B} (f : A → B) (m : M A) st b st' :
  (f <$> m) st = (Ok b, st') → ∃ a, m st = (Ok a, st') ∧ b = f a.
Proof.
  unfold fmap, M_fmap. destruct (m st) as [[a|e] st1]; [|discriminate].
  intros [= <- <-]. eauto.
Qed.

Lemma mret_Ok {A} (a b : A) st st' :
  mret (M := M) a st = (Ok b, st') → b = a ∧ st' = st.
Proof. by intros [= <- <-]. Qed.

Lemma lift_Ok {A} (r : pyres A) a st st' :
  lift r st = (Ok a, st') → r = Ok a ∧ st' = st.
Proof. by intros [= <- <-]. Qed.

Lemma getattr_Ok param name st v st' :
  getattr param name st = (Ok v, st') →
  st' = st ∧ ∃ p d, param = Ref p ∧ param_of st p = Some d ∧ d !! name = Some v.
Proof.
  unfold getattr, param_of. destruct param as [p|x]; [|discriminate].
  destruct (heap st !! p) as [[d|l]|] eqn:Eh; try discriminate.
  destruct (d !! name) eqn:E; [|discriminate]. intros [= <- <-].
  split; [done|]. exists p, d. by rewrite Eh.
Qed.

Lemma not_in_keys_Ok param name st b st' :
  not_in_keys name param st = (Ok b, st') →
  st' = st ∧ ∃ p d, param = Ref p ∧ param_of st p = Some d ∧ b = bool_decide (d !! name = None).
Proof.
  unfold not_in_keys, param_of. destruct param as [p|x]; [|discriminate].
  destruct (heap st !! p) as [[d|l]|] eqn:Eh; try discriminate.
  intros [= <- <-]. split; [done|]. exists p, d. by rewrite Eh.
Qed.

Lemma format_param_Ok text param st x st' :
  format_param text param st = (Ok x, st') → st' = st.
Proof.
  unfold format_param. destruct param as [p|?]; [|discriminate].
  destruct (heap st !! p) as [[d|l]|]; try discriminate. by intros [= <- <-].
Qed.

Lemma setattr_Ok param name v st u st' :
  setattr param name v st = (Ok u, st') →
  ∃ p d, param = Ref p ∧ param_of st p = Some d ∧
    param_of st' p = Some (<[name := v]> d) ∧
    (∀ q, q ≠ p → param_of st' q = param_of st q) ∧
    (∀ c, dims_of st' c = dims_of st c) ∧
    stdout st' = stdout st.
Proof.
  unfold setattr, param_of, dims_of. destruct param as [p|?]; [|discriminate].
  destruct (heap st !! p) as [[d|l]|] eqn:E; try discriminate.
  intros [= <- <-]. exists p, d; simpl. rewrite E. split_and!; try done.
  - rewrite list_lookup_insert_eq; [done|]. by eapply lookup_lt_Some.
  - intros q Hq. by rewrite list_lookup_insert_ne.
  - intros c. destruct (decide (c = p)) as [->|Hc].
    + rewrite list_lookup_insert_eq; [|by eapply lookup_lt_Some]. by rewrite E.
    + by rewrite list_lookup_insert_ne.
Qed.

Lemma print_Ok x st u st' :
  print x st = (Ok u, st') →
  heap st' = heap st ∧ stdout st' = stdout st ++ [x].
Proof. by intros [= <- <-]. Qed.

Lemma list_read_Ok cid st l st' :
  list_read cid st = (Ok l, st') → st' = st ∧ dims_of st cid = Some l.
Proof.
  unfold list_read, dims_of. destruct (heap st !! cid) as [[d|l']|]; try discriminate.
  by intros [= <- <-].
Qed.

Lemma list_get_Ok cid i st z st' :
  list_get cid i st = (Ok z, st') →
  st' = st ∧ ∃ l, dims_of st cid = Some l ∧ py_index l i = Ok z.
Proof.
  unfold list_get. intros (l & st1 & [-> Hl]%list_read_Ok & [? ->]%lift_Ok)%bind_Ok.
  eauto.
Qed.

Lemma list_set_Ok cid i x st u st' :
  list_set cid i x st = (Ok u, st') →
  ∃ l l', dims_of st cid = Some l ∧ py_store l i x = Ok l' ∧
    dims_of st' cid = Some l' ∧
    (∀ c, c ≠ cid → dims_of st' c = dims_of st c) ∧
    (∀ q, param_of st' q = param_of st q) ∧
    stdout st' = stdout st.
Proof.
  unfold list_set, param_of, dims_of.
  destruct (heap st !! cid) as [[d|l]|] eqn:E; try discriminate.
  destruct (py_store l i x) as [l'|e] eqn:E'; [|discriminate].
  intros [= <- <-]. exists l, l'; simpl. split_and!; try done.
  - rewrite list_lookup_insert_eq; [done|]. by eapply lookup_lt_Some.
  - intros c Hc. by rewrite list_lookup_insert_ne.
  - intros q. destruct (decide (q = cid)) as [->|Hq].
    + rewrite list_lookup_insert_eq; [|by eapply lookup_lt_Some]. by rewrite E.
    + by rewrite list_lookup_insert_ne.
Qed.

Lemma list_new_Ok l st c st' :
  list_new l st = (Ok c, st') →
  c = length (heap st) ∧ dims_of st' c = Some l ∧
  (∀ c', c' ≠ c → dims_of st' c' = dims_of st c') ∧
  (∀ q, param_of st' q = param_of st q) ∧
  stdout st' = stdout st.
Proof.
  unfold list_new, param_of, dims_of. intros [= <- <-]. simpl. split_and!; try done.
  - by rewrite lookup_app_r, Nat.sub_diag.
  - intros c' Hc. destruct (decide (c' < length (heap st))%nat).
    + by rewrite lookup_app_l.
    + rewrite !lookup_ge_None_2; [done|lia|]. rewrite length_app. simpl. lia.
  - intros q. destruct (decide (q < length (heap st))%nat).
    + by rewrite lookup_app_l.
    + destruct (decide (q = length (heap st))) as [->|].
      * rewrite lookup_app_r, Nat.sub_diag by done. simpl.
        by rewrite lookup_ge_None_2.
      * rewrite !lookup_ge_None_2; [done|lia|]. rewrite length_app. simpl. lia.
Qed.

(** Inversion of a run that returned: one step. *)
Ltac minv_step :=
  match goal with
  | H : mbind _ _ _ = (Ok _, _) |- _ =>
      let a := fresh "a" in let s := fresh "st" in let E := fresh "E" in
      apply bind_Ok in H as (a & s & E & H); cbv beta zeta in H
  | H : fmap _ _ _ = (Ok _, _) |- _ =>
      let a := fresh "a" in let E := fresh "E" in
      apply fmap_Ok in H as (a & H & E)
  | H : mret _ _ = (Ok _, _) |- _ => apply mret_Ok in H as [? ?]
  | H : lift _ _ = (Ok _, _) |- _ => apply lift_Ok in H as [? ?]
  | H : raise _ _ = (Ok _, _) |- _ => discriminate H
  | H : getattr _ _ _ = (Ok _, _) |- _ =>
      apply getattr_Ok in H as (? & ? & ? & ? & ? & ?)
  | H : not_in_keys _ _ _ = (Ok _, _) |- _ =>
      apply not_in_keys_Ok in H as (? & ? & ? & ? & ? & ?)
  | H : format_param _ _ _ = (Ok _, _) |- _ => apply format_param_Ok in H
  | H : setattr _ _ _ _ = (Ok _, _) |- _ =>
      apply setattr_Ok in H as (? & ? & ? & ? & ? & ? & ? & ?)
  | H : print _ _ = (Ok _, _) |- _ => apply print_Ok in H as [? ?]
  | H : list_read _ _ = (Ok _, _) |- _ => apply list_read_Ok in H as [? ?]
  | H : list_get _ _ _ = (Ok _, _) |- _ => apply list_get_Ok in H as (? & ? & ? & ?)
  | H : list_set _ _ _ _ = (Ok _, _) |- _ =>
      apply list_set_Ok in H as (? & ? & ? & ? & ? & ? & ? & ?)
  | H : list_new _ _ = (Ok _, _) |- _ => apply list_new_Ok in H as (? & ? & ? & ? & ?)
  | H : (if ?b then _ else _) _ = (Ok _, _) |- _ => destruct b eqn:?
  | H : (let '(_, _) := ?x in _) _ = (Ok _, _) |- _ => destruct x
  | H : match ?x with Some _ => _ | None => _ end _ = (Ok _, _) |- _ => destruct x eqn:?
  | H : fill_if_minus_one _ _ _ _ = (Ok _, _) |- _ => unfold fill_if_minus_one in H
  | H : default_if_absent _ _ _ _ = (Ok _, _) |- _ => unfold default_if_absent in H
  | H : store_attr _ _ _ _ _ = (Ok _, _) |- _ => unfold store_attr in H
  | H : store_next_size _ _ _ _ _ = (Ok _, _) |- _ => unfold store_next_size in H
  | H : int_attr _ _ _ = (Ok _, _) |- _ => unfold int_attr in H
  | H : item_attr _ _ _ _ = (Ok _, _) |- _ => unfold item_attr in H
  end; simplify_eq.

Ltac minv := repeat minv_step.

(** Runs that return, from the store they start in. *)
Lemma getattr_run st p d name v :
  param_of st p = Some d → d !! name = Some v →
  getattr (Ref p) name st = (Ok v, st).
Proof.
  unfold param_of, getattr. destruct (heap st !! p) as [[d0|?]|]; try discriminate.
  intros [= ->] ->. done.
Qed.

Lemma setattr_run st p d name v :
  param_of st p = Some d →
  ∃ st1, setattr (Ref p) name v st = (Ok tt, st1) ∧
         param_of st1 p = Some (<[name := v]> d) ∧
         (∀ c, dims_of st1 c = dims_of st c).
Proof.
  intros Hd. destruct (setattr (Ref p) name v st) as [[[]|e] st1] eqn:E.
  - apply setattr_Ok in E as (p' & d' & [= <-] & Hd' & Hn & _ & Hc & _).
    exists st1. rewrite Hd in Hd'. injection Hd' as <-. done.
  - exfalso. unfold setattr, param_of in *.
    destruct (heap st !! p) as [[d0|?]|]; discriminate.
Qed.

Lemma list_get_run st cid l i x :
  dims_of st cid = Some l → py_index l i = Ok x → list_get cid i st = (Ok x, st).
Proof.
  unfold dims_of, list_get, list_read. intros Hl Hx.
  unfold mbind, M_bind. destruct (heap st !! cid) as [[?|l0]|]; try discriminate.
  injection Hl as ->. unfold lift. by rewrite Hx.
Qed.

Lemma list_set_run st cid (l l' : list Z) i x :
  dims_of st cid = Some l → py_store l i x = Ok l' →
  ∃ st', list_set cid i x st = (Ok tt, st') ∧ dims_of st' cid = Some l'.
Proof.
  intros Hl Hx. destruct (list_set cid i x st) as [[[]|e] st'] eqn:E.
  - exists st'. split; [done|].
    apply list_set_Ok in E as (l0 & l1 & Hl0 & Hs & Hl1 & _).
    rewrite Hl in Hl0. injection Hl0 as <-. rewrite Hx in Hs. by injection Hs as <-.
  - exfalso. unfold list_set, dims_of in *.
    destruct (heap st !! cid) as [[?|l0]|]; try discriminate.
    injection Hl as ->. rewrite Hx in E. discriminate.
Qed.

(** Reading a list after an item assignment. *)
Lemma py_store_index {A} (l l' : list A) i j x :
  0 ≤ i → 0 ≤ j → py_store l i x = Ok l' →
  py_index l' j = if i =? j then Ok x else py_index l j.
Proof.
  intros Hi Hj. unfold py_store, py_index.
  destruct (Z.ltb_spec i 0) as [?|_]; [lia|].
  destruct (Z.ltb_spec j 0) as [?|_]; [lia|].
  destruct (Z.leb_spec 0 i) as [_|?]; [|lia].
  destruct (Z.leb_spec 0 j) as [_|?]; [|lia].
  destruct (Z.ltb_spec i (Z.of_nat (length l))) as [Hil|?]; [|discriminate].
  simpl. intros [= <-]. rewrite length_insert.
  destruct (Z.eqb_spec i j) as [->|Hne].
  - destruct (Z.ltb_spec j (Z.of_nat (length l))); [|lia]. simpl.
    by rewrite list_lookup_insert_eq by lia.
  - destruct (Z.ltb_spec j (Z.of_nat (length l))); [|done]. simpl.
    by rewrite list_lookup_insert_ne by lia.
Qed.

(** ** The tags of the chain *)

Lemma py_eq_VStr v s : py_eq v (VStr s) = true ↔ v = VStr s.
Proof.
  destruct v; simpl; try (split; [discriminate | by intros [=]]).
  rewrite String.eqb_eq. split; [by intros -> | by intros [=]].
Qed.

Lemma arg_eq_VStr a s : arg_eq a (VStr s) = true ↔ a = Val (VStr s).
Proof.
  destruct a as [l|v]; simpl.
  - split; [discriminate | by intros [=]].
  - rewrite py_eq_VStr. split; [by intros -> | by intros [=]].
Qed.

Lemma dispatch_unknown module_type param cid :
  module_type ∉ supported_types →
  f_parse_component_body module_type param cid = branch_unknown module_type cid.
Proof.
  intros Hn. unfold f_parse_component_body.
  repeat match goal with
  | |- context [String.eqb module_type ?s] =>
      destruct (String.eqb_spec module_type s) as [->|_];
      [exfalso; apply Hn; apply list_elem_of_In; simpl; tauto|]
  end.
  reflexivity.
Qed.

(** C8.  A tag outside the supported ones is no error value: the call of
    [f_parse_component] prints one line, changes nothing else, and raises
    [UnboundLocalError] when [return] reads the unbound [module]; and
    [f_get_activation] raises the same way for every argument that is not one
    of its five names. *)
Theorem unknown_tags_raise :
  (∀ module_type param cid st,
     module_type ∉ supported_types →
     f_parse_component module_type param cid st =
       (Raise UnboundLocalError,
        mkState (heap st)
          (stdout st ++ [Line (String.append "UNKNOWN module "
             (String.append dquote (String.append module_type dquote)))]))) ∧
  (∀ activation_type,
     (∀ s, s ∈ activation_types → activation_type ≠ Val (VStr s)) →
     f_get_activation activation_type = Raise UnboundLocalError).
Proof.
  split.
  - intros mt param cid st Hn. unfold f_parse_component.
    rewrite dispatch_unknown by done. reflexivity.
  - intros a Ha. unfold f_get_activation.
    repeat match goal with
    | |- context [arg_eq a (VStr ?s)] =>
        destruct (arg_eq a (VStr s)) eqn:E;
        [apply arg_eq_VStr in E; exfalso; apply (Ha s);
         [apply list_elem_of_In; simpl; tauto | done] | clear E]
    end.
    reflexivity.
Qed.

Lemma unknown_tags_raise_witness :
  f_parse_component "Conv3d" (Val VNone) 0%nat (mkState [] []) =
    (Raise UnboundLocalError,
     mkState [] [Line (String.append "UNKNOWN module "
                   (String.append dquote (String.append "Conv3d" dquote)))]) ∧
  f_get_activation (Val (VStr "Tanh")) = Raise UnboundLocalError.
Proof.
  split.
  - apply (proj1 unknown_tags_raise "Conv3d" (Val VNone) 0%nat (mkState [] [])).
    intros H%list_elem_of_In. simpl in H. intuition discriminate.
  - apply (proj2 unknown_tags_raise (Val (VStr "Tanh"))).
    intros s H%list_elem_of_In [= <-]. simpl in H. intuition discriminate.
Defined.

(** ** What a returning call of the factory built *)

Ltac mlight_step :=
  match goal with
  | H : mbind _ _ _ = (Ok _, _) |- _ =>
      let a := fresh "a" in let s := fresh "st" in let E := fresh "E" in
      apply bind_Ok in H as (a & s & E & H); cbv beta zeta in H
  | H : mret _ _ = (Ok _, _) |- _ => apply mret_Ok in H as [? ?]
  | H : lift _ _ = (Ok _, _) |- _ => apply lift_Ok in H as [? ?]
  | H : raise _ _ = (Ok _, _) |- _ => discriminate H
  | H : (if ?b then _ else _) _ = (Ok _, _) |- _ => destruct b eqn:?
  | H : (let '(_, _) := ?x in _) _ = (Ok _, _) |- _ => destruct x
  | H : match ?x with Some _ => _ | None => _ end _ = (Ok _, _) |- _ => destruct x eqn:?
  end; simplify_eq.

Lemma TemporalConvNet_class a b c d m :
  TemporalConvNet a b c d = Ok m → class_of m = "TemporalConvNet".
Proof.
  unfold TemporalConvNet. destruct (py_len b); [|discriminate]. simpl.
  destruct (TemporalConvNet_loop _ _ _ _ _ _); [|discriminate]. by intros [= <-].
Qed.

Lemma ConvNeXtBlock_class a b c d m :
  ConvNeXtBlock a b c d = Ok m → class_of m = "ConvNeXtBlock".
Proof.
  unfold ConvNeXtBlock. destruct (py_floordiv _ _); [|discriminate]. simpl.
  destruct (py_mul _ _); [|discriminate]. simpl. by intros [= <-].
Qed.

Lemma depthwise_separable_conv_class a b c d e m :
  depthwise_separable_conv a b c d e = Ok m → class_of m = "depthwise_separable_conv".
Proof.
  unfold depthwise_separable_conv. destruct (py_mul _ _); [|discriminate]. simpl.
  by intros [= <-].
Qed.

Lemma ResidualBlock_class a b c d : class_of (ResidualBlock a b c d) = "ResidualBlock".
Proof. unfold ResidualBlock. by destruct (negb _). Qed.

Lemma f_get_activation_class a m :
  f_get_activation a = Ok m →
  ∃ s, a = Val (VStr s) ∧ s ∈ activation_types ∧ class_of m = String.append "nn." s.
Proof.
  unfold f_get_activation.
  repeat match goal with
  | |- context [arg_eq a (VStr ?s)] =>
      destruct (arg_eq a (VStr s)) eqn:E;
      [apply arg_eq_VStr in E; intros [= <-]; exists s; split_and!;
       [done | apply list_elem_of_In; simpl; tauto | done] | clear E]
  end.
  discriminate.
Qed.

Ltac solve_branch :=
  intros param cid st om cid' st' H;
  match type of H with ?b _ _ _ = _ => unfold b in H end;
  repeat mlight_step;
  eexists; (split; [reflexivity | split; [ | done]]);
  first [ reflexivity
        | by eapply TemporalConvNet_class
        | by eapply ConvNeXtBlock_class
        | by eapply depthwise_separable_conv_class
        | by apply ResidualBlock_class ].

Lemma branches_build :
  branch_builds "nn.LayerNorm" true branch_LayerNorm ∧
  branch_builds "nn.BatchNorm1d" true branch_BatchNorm1d ∧
  branch_builds "nnBatchNorm1dT" true branch_BatchNorm1dT ∧
  branch_builds "nn.BatchNorm2d" true branch_BatchNorm2d ∧
  branch_builds "SincConv_fast" true branch_SincNet ∧
  branch_builds "nn.Conv1d" true branch_Conv1d ∧
  branch_builds "TemporalConvNet" true branch_Conv1dTCN ∧
  branch_builds "nn.Conv2d" true branch_Conv2d ∧
  branch_builds "depthwise_separable_conv" true branch_Conv2dDS ∧
  branch_builds "ResidualBlock" true branch_Conv2dRes ∧
  branch_builds "ConvNeXtBlock" true branch_Conv2dNext ∧
  branch_builds "nn.ConvTranspose2d" true branch_ConvTranspose2d ∧
  branch_builds "nn.MaxPool1d" true branch_MaxPool1d ∧
  branch_builds "nn.MaxPool2d" true branch_MaxPool2d ∧
  branch_builds "nn.Linear" true branch_Linear ∧
  branch_builds "nn.Dropout" true branch_Dropout ∧
  branch_builds "nn.Flatten" false branch_Flatten ∧
  branch_builds "nnSqueeze" false branch_Squeeze ∧
  branch_builds "nnPermute" false branch_Permute ∧
  branch_builds "nnMean" false branch_Mean ∧
  branch_builds "nnMax" false branch_Max ∧
  branch_builds "nnAutoPoolWeight" true branch_AutoPoolWeight ∧
  branch_builds "nnAutoPoolWeightSplit" true branch_AutoPoolWeightSplit ∧
  branch_builds "nnSoftmaxWeight" true branch_SoftmaxWeight ∧
  branch_builds "nnAbs" true branch_AbsLayer ∧
  branch_builds "nnEmpty" true branch_DoubleChannel.
Proof. split_and!; solve_branch. Qed.

Lemma branch_Activation_builds param cid st om cid' st' :
  branch_Activation param cid st = (Ok (om, cid'), st') →
  ∃ m, om = Some m ∧ expected_class "Activation" param = Some (class_of m) ∧ cid' = cid.
Proof.
  intros H. unfold branch_Activation in H. repeat mlight_step.
  match goal with H : f_get_activation _ = Ok _ |- _ =>
    apply f_get_activation_class in H as (s & -> & Hs & Hc) end.
  eexists; (split; [done | split; [ | done]]).
  unfold expected_class. simpl. by rewrite bool_decide_eq_true_2, Hc.
Qed.

Lemma f_parse_component_returns module_type param cid st m cid' st' :
  f_parse_component module_type param cid st = (Ok (m, cid'), st') →
  module_type ∈ supported_types ∧
  expected_class module_type param = Some (class_of m) ∧
  (module_type ∉ rebinding_types → cid' = cid).
Proof.
  unfold f_parse_component. intros H.
  apply bind_Ok in H as ([om c] & st1 & E & H). cbv beta iota in H.
  destruct om as [m0|]; [|discriminate]. apply mret_Ok in H as [[= -> ->] ->].
  unfold f_parse_component_body in E.
  pose proof branches_build as HB.
  repeat match type of E with
  | context [String.eqb module_type ?s] =>
      destruct (String.eqb module_type s) eqn:Es;
      [apply String.eqb_eq in Es; subst module_type | clear Es]
  end.
  28: { unfold branch_unknown in E. repeat mlight_step. }
  all: (split; [apply list_elem_of_In; simpl; tauto|]).
  16: { apply branch_Activation_builds in E as (? & [= <-] & ? & ?).
        split; [done|]. done. }
  all: repeat match type of HB with
       | branch_builds ?c ?k ?b ∧ _ => destruct HB as [? HB]
       end.
  all: match type of E with ?b _ _ _ = _ =>
         match goal with Hb : branch_builds _ _ b |- _ =>
           apply Hb in E as (? & [= <-] & Hcls & Hc) end end.
  all: split; [by rewrite Hcls|].
  all: first [ intros _; by apply Hc
             | intros Hn; exfalso; apply Hn; apply list_elem_of_In; simpl; tauto ].
Qed.

Lemma every_tag_builds :
  forallb (λ t, returns (f_parse_component t (sample_arg t) 1%nat (sample_state t)))
    supported_types = true.
Proof. vm_compute. reflexivity. Qed.

(** C3.  Dispatch by type tag: the tags of the chain are pairwise distinct, a
    call that returns was made with one of them and returns an instance of
    the class that tag stands for ([nn.Conv1d] for ['Conv1d'],
    [TemporalConvNet] for ['Conv1dTCN'], [nnEmpty] for ['DoubleChannel'],
    ...), and every tag has a configuration on which the call returns. *)
Theorem dispatch_by_tag :
  NoDup supported_types ∧
  (∀ module_type param cid st m cid' st',
     f_parse_component module_type param cid st = (Ok (m, cid'), st') →
     module_type ∈ supported_types ∧
     expected_class module_type param = Some (class_of m)) ∧
  (∀ module_type, module_type ∈ supported_types →
     ∃ param cid st r st',
       f_parse_component module_type param cid st = (Ok r, st')).
Proof.
  split_and!.
  - apply (bool_decide_unpack (NoDup supported_types)). vm_compute. exact I.
  - intros mt param cid st m cid' st' H.
    by apply f_parse_component_returns in H as (? & ? & _).
  - intros mt Hin. pose proof every_tag_builds as Hb.
    rewrite forallb_forall in Hb. apply list_elem_of_In, Hb in Hin.
    exists (sample_arg mt), 1%nat, (sample_state mt).
    destruct (f_parse_component _ _ _ _) as [[r|e] st']; [eauto | discriminate].
Qed.

Lemma dispatch_by_tag_witness :
  "DoubleChannel" ∈ supported_types ∧
  expected_class "DoubleChannel" (Val VNone) = Some (class_of nnEmpty).
Proof.
  apply (proj1 (proj2 dispatch_by_tag) "DoubleChannel" (Val VNone) 0%nat
           (mkState [OList [1; 2]] []) nnEmpty 0%nat (mkState [OList [1; 4]] [])).
  vm_compute. reflexivity.
Defined.

(** Brings the facts about later states back to earlier ones. *)
Ltac mframes :=
  repeat match goal with
  | Hf : (∀ q, param_of ?s q = param_of _ q), H : context [param_of ?s _] |- _ =>
      rewrite Hf in H
  | Hf : (∀ q, param_of ?s q = param_of _ q) |- context [param_of ?s _] =>
      rewrite Hf
  | Hf : (∀ c, dims_of ?s c = dims_of _ c), H : context [dims_of ?s _] |- _ =>
      rewrite Hf in H
  | Hf : (∀ c, dims_of ?s c = dims_of _ c) |- context [dims_of ?s _] =>
      rewrite Hf
  | H : heap ?s = heap ?s0 |- _ =>
      assert (∀ q, param_of s q = param_of s0 q) by (intros; unfold param_of; by rewrite H);
      assert (∀ c, dims_of s c = dims_of s0 c) by (intros; unfold dims_of; by rewrite H);
      clear H
  | H1 : param_of ?s ?p = Some ?a, H2 : param_of ?s ?p = Some ?b |- _ =>
      rewrite H1 in H2; simplify_eq
  | H1 : dims_of ?s ?p = Some ?a, H2 : dims_of ?s ?p = Some ?b |- _ =>
      rewrite H1 in H2; simplify_eq
  end.

Ltac enter_branch H :=
  unfold f_parse_component in H;
  let om := fresh "om" in let c := fresh "c" in let s := fresh "st" in
  let E := fresh "E" in
  apply bind_Ok in H as ([om c] & s & E & H); cbv beta iota in H;
  destruct om; [apply mret_Ok in H as [? ?]; simplify_eq | discriminate H];
  cbv [f_parse_component_body String.eqb Ascii.eqb Bool.eqb] in E.

Ltac run_branch H :=
  enter_branch H;
  match goal with E : ?b _ _ _ = (Ok _, _) |- _ => unfold b in E end;
  unfold attr_of in *;
  repeat match goal with
  | H : context [param_of ?s ?p ≫= _] |- _ =>
      let d := fresh "d" in let Hd := fresh "Hd" in
      destruct (param_of s p) as [d|] eqn:Hd; [simpl in H | discriminate H]
  end;
  minv; mframes.

Ltac mfinish :=
  repeat match goal with
  | H : param_of ?s ?p = Some _ |- context [param_of ?s ?p] => rewrite H
  end;
  simpl; simplify_map_eq; try congruence; eauto 10.

Lemma TemporalConvNet_with a b c d m :
  TemporalConvNet a b c d = Ok m → with_in_channels m a.
Proof.
  intros H. assert (∃ n, m = mk_TemporalConvNet n) as [n ->]; [|simpl; eauto].
  revert H. unfold TemporalConvNet. destruct (py_len b); [|discriminate]. simpl.
  destruct (TemporalConvNet_loop _ _ _ _ _ _); [|discriminate]. intros [= <-]. eauto.
Qed.

Lemma ConvNeXtBlock_with a b c d m :
  ConvNeXtBlock a b c d = Ok m → with_in_channels m a.
Proof.
  intros H. assert (∃ x1 x2 x3 x4 x5 x6, m = mk_ConvNeXtBlock x1 x2 x3 x4 x5 x6)
    as (?&?&?&?&?&?&->); [|simpl; eauto].
  revert H. unfold ConvNeXtBlock. destruct (py_floordiv _ _); [|discriminate]. simpl.
  destruct (py_mul _ _); [|discriminate]. simpl. intros [= <-]. eauto 10.
Qed.

Lemma depthwise_separable_conv_with a b c d e m :
  depthwise_separable_conv a b c d e = Ok m → with_in_channels m a.
Proof.
  intros H. assert (∃ x1 x2, m = mk_depthwise_separable_conv x1 x2)
    as (?&?&->); [|simpl; eauto 10].
  revert H. unfold depthwise_separable_conv. destruct (py_mul _ _); [|discriminate]. simpl.
  intros [= <-]. eauto.
Qed.

Lemma ResidualBlock_with a b c d : with_in_channels (ResidualBlock a b c d) a.
Proof.
  assert (∃ x1 x2 x3 x4 x5 x6, ResidualBlock a b c d = mk_ResidualBlock x1 x2 x3 x4 x5 x6)
    as (?&?&?&?&?&?&E).
  { unfold ResidualBlock. destruct (negb _); eauto 10. }
  generalize (eq_refl (ResidualBlock a b c d)). rewrite E at 1 3. simpl. eauto.
Qed.

(** C2.  Auto-fill of unspecified parameters: when the call returns and the
    entry held [-1], the module was built with [in_channels] equal to
    [current_input_dim[1]] for the eight convolution tags, [nn.Linear] with
    [in_features] equal to [current_input_dim[-1]], [nn.BatchNorm1d] and
    [nnBatchNorm1dT] with [num_features] equal to [current_input_dim[-1]],
    [nn.BatchNorm2d] with [num_features] equal to [current_input_dim[1]], and
    [nn.LayerNorm] with [normalized_shape] equal to [current_input_dim[1:]]. *)
Theorem autofill_in_constructor :
  (∀ module_type p cid st m cid' st' v l,
     module_type ∈ conv_types →
     f_parse_component module_type (Ref p) cid st = (Ok (m, cid'), st') →
     attr_of st p "in_channels" = Some v → py_eq v (VInt (-1)) = true →
     dims_of st cid = Some l →
     ∃ c, py_index l 1 = Ok c ∧ with_in_channels m (VInt c)) ∧
  (∀ p cid st m cid' st' v l,
     f_parse_component "Linear" (Ref p) cid st = (Ok (m, cid'), st') →
     attr_of st p "in_features" = Some v → py_eq v (VInt (-1)) = true →
     dims_of st cid = Some l →
     ∃ c o, py_index l (-1) = Ok c ∧ m = nn_Linear (VInt c) o) ∧
  (∀ p cid st m cid' st' v l,
     f_parse_component "BatchNorm1d" (Ref p) cid st = (Ok (m, cid'), st') →
     attr_of st p "num_features" = Some v → py_eq v (VInt (-1)) = true →
     dims_of st cid = Some l →
     ∃ c a, py_index l (-1) = Ok c ∧ m = nn_BatchNorm1d (VInt c) a) ∧
  (∀ p cid st m cid' st' v l,
     f_parse_component "BatchNorm1dT" (Ref p) cid st = (Ok (m, cid'), st') →
     attr_of st p "num_features" = Some v → py_eq v (VInt (-1)) = true →
     dims_of st cid = Some l →
     ∃ c, py_index l (-1) = Ok c ∧ m = nnBatchNorm1dT (VInt c)) ∧
  (∀ p cid st m cid' st' v l,
     f_parse_component "BatchNorm2d" (Ref p) cid st = (Ok (m, cid'), st') →
     attr_of st p "num_features" = Some v → py_eq v (VInt (-1)) = true →
     dims_of st cid = Some l →
     ∃ c, py_index l 1 = Ok c ∧ m = nn_BatchNorm2d (VInt c)) ∧
  (∀ p cid st m cid' st' v l,
     f_parse_component "LayerNorm" (Ref p) cid st = (Ok (m, cid'), st') →
     attr_of st p "normalized_shape" = Some v → py_eq v (VInt (-1)) = true →
     dims_of st cid = Some l →
     ∃ eps, m = nn_LayerNorm (VList (drop 1 l)) eps).
Proof.
  split_and!.
  - intros mt p cid st m cid' st' v l Hin H Hv Hm Hl.
    apply list_elem_of_In in Hin. simpl in Hin.
    repeat (destruct Hin as [<-|Hin]; [run_branch H|]); try done.
    all: try congruence.
    all: eexists; (split; [eassumption|]).
    all: simplify_map_eq.
    all: try reflexivity.
    all: eauto using TemporalConvNet_with, ConvNeXtBlock_with,
           depthwise_separable_conv_with, ResidualBlock_with.
  - intros p cid st m cid' st' v l H Hv Hm Hl. run_branch H; try congruence.
    all: simplify_map_eq; eauto.
  - intros p cid st m cid' st' v l H Hv Hm Hl. run_branch H; try congruence.
    all: simplify_map_eq; eauto.
  - intros p cid st m cid' st' v l H Hv Hm Hl. run_branch H; try congruence.
    all: simplify_map_eq; eauto.
  - intros p cid st m cid' st' v l H Hv Hm Hl. run_branch H; try congruence.
    all: simplify_map_eq; eauto.
  - intros p cid st m cid' st' v l H Hv Hm Hl. run_branch H; try congruence.
    all: simplify_map_eq; eauto.
Qed.



Lemma autofill_in_constructor_witness :
  ∃ c, py_index [4; 1; 100] 1 = Ok c ∧
       with_in_channels
         (nn_Conv1d (VInt 1) (VInt 16) (VInt 3) (VInt 2) (VInt 0) (VInt 1)) (VInt c).
Proof.
  apply (proj1 autofill_in_constructor "Conv1d" 0%nat 1%nat
           (mkState [ODict (list_to_map
                       [("in_channels", VInt (-1)); ("out_channels", VInt 16);
                        ("kernel_size", VInt 3); ("stride", VInt 2)]);
                     OList [4; 1; 100]] [])
           _ 1%nat
           (mkState [ODict (list_to_map
                       [("in_channels", VInt 1); ("out_channels", VInt 16);
                        ("kernel_size", VInt 3); ("stride", VInt 2)]);
                     OList [4; 16; 49]] [])
           (VInt (-1)) [4; 1; 100]).
  - apply list_elem_of_In. simpl. tauto.
  - vm_compute. reflexivity.
  - reflexivity.
  - reflexivity.
  - reflexivity.
Defined.


(** ** The temporal convolution stack *)

Lemma py_index_nth (l : list Z) (i : nat) :
  (i < length l)%nat → py_index l (Z.of_nat i) = Ok (nth i l 0).
Proof.
  intros Hi. unfold py_index.
  destruct (Z.ltb_spec (Z.of_nat i) 0) as [?|_]; [lia|].
  destruct (Z.leb_spec 0 (Z.of_nat i)) as [_|?]; [|lia].
  destruct (Z.ltb_spec (Z.of_nat i) (Z.of_nat (length l))) as [_|?]; [|lia].
  simpl. rewrite Nat2Z.id.
  destruct (l !! i) as [x|] eqn:E.
  - f_equal. symmetry. apply nth_lookup_Some with (d := 0) in E. done.
  - apply lookup_ge_None in E. lia.
Qed.

Lemma TemporalConvNet_loop_levels num_inputs cs k dropout n :
  ∀ j layers, (j + n = length cs)%nat →
    TemporalConvNet_loop num_inputs (VList cs) (VInt k) dropout (seq j n) layers =
    Ok (layers ++ map (tcn_level num_inputs cs k dropout) (seq j n)).
Proof.
  induction n as [|n IH]; intros j layers Hj.
  - simpl. by rewrite app_nil_r.
  - change (seq j (S n)) with (j :: seq (S j) n).
    cbn [TemporalConvNet_loop map].
    assert (py_index cs (Z.of_nat j) = Ok (nth j cs 0)) as Hout
      by (apply py_index_nth; lia).
    cbn [py_getitem]. rewrite Hout.
    destruct j as [|j'].
    + cbn [Nat.eqb]. cbn [mbind pyres_bind fmap pyres_fmap py_sub py_mul as_int].
      rewrite IH by lia. by rewrite <- app_assoc.
    + cbn [Nat.eqb].
      replace (Z.of_nat (S j') - 1) with (Z.of_nat j') by lia.
      rewrite py_index_nth by lia.
      cbn [mbind pyres_bind fmap pyres_fmap py_sub py_mul as_int].
      rewrite IH by lia. by rewrite <- app_assoc.
Qed.

(** C6.  The stack [TemporalConvNet] builds for the channel list
    [c_0, ..., c_{n-1}]: exactly [n] blocks, in order, block [i] being the
    [TemporalBlock] with dilation [2^i], padding [(kernel_size - 1) * 2^i],
    stride 1, [num_inputs] input channels when [i = 0] and [c_{i-1}]
    otherwise, and [c_i] output channels.  This is the stack of every call
    that returns, whatever the channel list, the kernel size and the
    dropout; and the call returns when the constructors of the blocks do:
    for positive channel counts, a positive kernel size and a dropout
    probability. *)
Theorem TemporalConvNet_levels num_inputs (cs : list Z) (k : Z) dropout :
  ∃ blocks,
    length blocks = length cs ∧
    (∀ (i : nat) c, cs !! i = Some c →
       ∃ cin,
         match i with
         | O => cin = num_inputs
         | S j => ∃ c', cs !! j = Some c' ∧ cin = VInt c'
         end ∧
         blocks !! i =
           Some (TemporalBlock cin (VInt c) (VInt k) (VInt 1)
                   (VInt (2 ^ Z.of_nat i)) (VInt ((k - 1) * 2 ^ Z.of_nat i)) dropout)) ∧
    (∀ m, TemporalConvNet num_inputs (VList cs) (VInt k) dropout = Ok m →
       m = mk_TemporalConvNet (nn_Sequential blocks)) ∧
    (∀ ni, num_inputs = VInt ni → 0 < ni → Forall (λ c, 0 < c) cs → 0 < k →
       is_probability dropout = true →
       TemporalConvNet num_inputs (VList cs) (VInt k) dropout =
         Ok (mk_TemporalConvNet (nn_Sequential blocks))).
Proof.
  exists (map (tcn_level num_inputs cs k dropout) (seq 0 (length cs))).
  assert (TemporalConvNet num_inputs (VList cs) (VInt k) dropout =
          Ok (mk_TemporalConvNet
                (nn_Sequential (map (tcn_level num_inputs cs k dropout)
                                  (seq 0 (length cs)))))) as Hrun.
  { unfold TemporalConvNet. simpl. by rewrite TemporalConvNet_loop_levels by lia. }
  split_and!.
  - by rewrite length_map, length_seq.
  - intros i c Hc.
    exists (match i with O => num_inputs | S j => VInt (nth j cs 0) end). split.
    + destruct i as [|j]; [done|]. exists (nth j cs 0). split; [|done].
      apply lookup_lt_Some in Hc.
      destruct (nth_lookup_or_length cs j 0) as [?|?]; [done|lia].
    + rewrite list_lookup_fmap.
      rewrite lookup_seq_lt by (by eapply lookup_lt_Some). simpl.
      unfold tcn_level. by rewrite (nth_lookup_Some _ _ 0 _ Hc).
  - intros m Hm. rewrite Hrun in Hm. by injection Hm as <-.
  - intros ni _ _ _ _ _. exact Hrun.
Qed.

Lemma TemporalConvNet_levels_witness :
  ∃ blocks,
    length blocks = length [8; 16] ∧
    blocks !! 1%nat =
      Some (TemporalBlock (VInt 8) (VInt 16) (VInt 2) (VInt 1)
              (VInt (2 ^ Z.of_nat 1)) (VInt ((2 - 1) * 2 ^ Z.of_nat 1)) (float_lit 1 5)) ∧
    TemporalConvNet (VInt 3) (VList [8; 16]) (VInt 2) (float_lit 1 5) =
      Ok (mk_TemporalConvNet (nn_Sequential blocks)).
Proof.
  destruct (TemporalConvNet_levels (VInt 3) [8; 16] 2 (float_lit 1 5))
    as (blocks & Hlen & Hblocks & _ & Hrun).
  exists blocks. split_and!.
  - exact Hlen.
  - destruct (Hblocks 1%nat 16 eq_refl) as (cin & (c' & Hc' & ->) & Hb).
    injection Hc' as <-. exact Hb.
  - apply (Hrun 3); [reflexivity | reflexivity | repeat constructor | reflexivity | reflexivity].
Defined.

(** ** The residual blocks *)

(** C7.  The skip path of [ResidualBlock] and of [TemporalBlock], over any
    tensors: what is added to the main path is the input itself when
    [in_channels == out_channels] and a convolution of kernel size 1 applied
    to the input otherwise, and the block returns the ReLU of the sum.  On
    symbolic tensors the operand is the input exactly when the channel counts
    are equal. *)
Theorem residual_skip_path :
  (∀ (T : Type) (TT : Torch T) (x : T) i o k s,
     forward (ResidualBlock i o k s) x =
       (out ← forward (nn_Sequential
                 [nn_Conv2d i o k s (VStr "same") (VInt 1); nn_BatchNorm2d o; nn_ReLU]) x;
        out ← forward (nn_Sequential
                 [nn_Conv2d o o k (VInt 1) (VStr "same") (VInt 1); nn_BatchNorm2d o]) out;
        residual ← (if py_eq i o then Ok x
                    else forward (nn_Conv2d i o (VInt 1) (VInt 1) (VStr "same") (VInt 1)) x);
        sum ← t_iadd out residual;
        forward nn_ReLU sum)) ∧
  (∀ (T : Type) (TT : Torch T) (x : T) ni no k s d p dr,
     forward (TemporalBlock ni no k s d p dr) x =
       (out ← forward (nn_Sequential
                 [weight_norm (nn_Conv1d ni no k s p d); Chomp1d p; nn_ReLU; nn_Dropout dr;
                  weight_norm (nn_Conv1d no no k s p d); Chomp1d p; nn_ReLU; nn_Dropout dr]) x;
        res ← (if py_eq ni no then Ok x
               else forward (nn_Conv1d ni no (VInt 1) (VInt 1) (VInt 0) (VInt 1)) x);
        sum ← t_add out res;
        forward nn_ReLU sum)) ∧
  (∀ i o k s, ∃ main skip,
     forward (ResidualBlock i o k s) Input = Ok (Call nn_ReLU (Op "iadd" [] [main; skip])) ∧
     (skip = Input ↔ py_eq i o = true) ∧
     (py_eq i o = false →
      skip = Call (nn_Conv2d i o (VInt 1) (VInt 1) (VStr "same") (VInt 1)) Input)) ∧
  (∀ ni no k s d (c : Z) dr, ∃ main skip,
     forward (TemporalBlock ni no k s d (VInt c) dr) Input =
       Ok (Call nn_ReLU (Op "add" [] [main; skip])) ∧
     (skip = Input ↔ py_eq ni no = true) ∧
     (py_eq ni no = false →
      skip = Call (nn_Conv1d ni no (VInt 1) (VInt 1) (VInt 0) (VInt 1)) Input)).
Proof.
  split_and!.
  - intros T TT x i o k s. unfold ResidualBlock. by destruct (py_eq i o).
  - intros T TT x ni no k s d p dr. unfold TemporalBlock. by destruct (py_eq ni no).
  - intros i o k s. unfold ResidualBlock.
    destruct (py_eq i o); simpl; eexists _, _; (split; [reflexivity|]); by split.
  - intros ni no k s d c dr. unfold TemporalBlock.
    destruct (py_eq ni no); simpl;
      eexists _, _; (split; [reflexivity|]); by split.
Qed.

(** ** Binary64 division on small integers *)

Lemma rne_div_exact q d : 0 < d → B64.rne_div (q * d) d = q.
Proof.
  intros Hd. unfold B64.rne_div. rewrite Z.div_mul, Z.mod_mul by lia.
  destruct (Z.ltb_spec (2 * 0) d); [done|lia].
Qed.

Lemma rne_div_cases n d :
  0 < d →
  ∃ q r, n = d * q + r ∧ 0 ≤ r < d ∧
    ((2 * r < d ∧ B64.rne_div n d = q) ∨
     (d < 2 * r ∧ B64.rne_div n d = q + 1) ∨
     (2 * r = d ∧ (B64.rne_div n d = q ∨ B64.rne_div n d = q + 1))).
Proof.
  intros Hd. exists (n / d), (n mod d).
  split; [apply Z.div_mod; lia|]. split; [apply Z.mod_pos_bound; lia|].
  unfold B64.rne_div.
  destruct (Z.ltb_spec (2 * (n mod d)) d); [by left|].
  destruct (Z.ltb_spec d (2 * (n mod d))); [right; by left|].
  right; right. split; [lia|]. destruct (Z.even _); auto.
Qed.

Lemma rne_div_ge K n d : 0 < d → K * d ≤ n → K ≤ B64.rne_div n d.
Proof.
  intros Hd H. destruct (rne_div_cases n d Hd) as (q & r & -> & Hr & Hc).
  assert (K ≤ q) by nia. intuition lia.
Qed.

Lemma rne_div_le K n d : 0 < d → n ≤ K * d → B64.rne_div n d ≤ K.
Proof.
  intros Hd H. destruct (rne_div_cases n d Hd) as (q & r & -> & Hr & Hc).
  destruct (decide (r = 0)) as [->|Hne].
  - assert (q ≤ K) by nia. intuition lia.
  - assert (q + 1 ≤ K) by nia. intuition lia.
Qed.

Lemma rne_div_lt K n d : 0 < d → 2 * n < (2 * K - 1) * d → B64.rne_div n d ≤ K - 1.
Proof.
  intros Hd H. destruct (rne_div_cases n d Hd) as (q & r & -> & Hr & Hc).
  destruct Hc as [[? ->]|[[? ->]|[? [-> | ->]]]]; nia.
Qed.

Lemma rne_div_err n d : 0 < d → 2 * (B64.rne_div n d * d) ≤ 2 * n + d.
Proof.
  intros Hd. destruct (rne_div_cases n d Hd) as (q & r & -> & Hr & Hc).
  destruct Hc as [[? ->]|[[? ->]|[? [-> | ->]]]]; nia.
Qed.

Lemma pow2_pos e : 0 < 2 ^ e ∨ (e < 0 ∧ 2 ^ e = 0).
Proof.
  destruct (Z.ltb_spec e 0).
  - right. split; [done|]. by apply Z.pow_neg_r.
  - left. by apply Z.pow_pos_nonneg.
Qed.

Lemma ilog2_ratio_lower n d :
  0 < n → 0 < d →
  d * 2 ^ Z.max 0 (B64.ilog2_ratio n d) ≤ n * 2 ^ Z.max 0 (- B64.ilog2_ratio n d).
Proof.
  intros Hn Hd. unfold B64.ilog2_ratio.
  destruct (Z.leb_spec (d * 2 ^ Z.max 0 (Z.log2 n - Z.log2 d))
              (n * 2 ^ Z.max 0 (- (Z.log2 n - Z.log2 d)))) as [H|H]; [done|].
  pose proof (Z.log2_spec n Hn) as [Hn1 Hn2].
  pose proof (Z.log2_spec d Hd) as [Hd1 Hd2].
  pose proof (Z.log2_nonneg n). pose proof (Z.log2_nonneg d).
  set (a := Z.log2 n) in *. set (b := Z.log2 d) in *.
  destruct (Z.le_gt_cases (a - b - 1) 0) as [Hs|Hs].
  - rewrite Z.max_l by lia. rewrite Z.max_r by lia.
    rewrite Z.pow_0_r. replace (- (a - b - 1)) with (b + 1 - a) by lia.
    assert (2 ^ (b + 1) = 2 ^ a * 2 ^ (b + 1 - a)) as Hp.
    { rewrite <- Z.pow_add_r by lia. f_equal; lia. }
    replace (Z.succ b) with (b + 1) in Hd2 by lia.
    assert (0 < 2 ^ (b + 1 - a)) by (apply Z.pow_pos_nonneg; lia).
    nia.
  - rewrite Z.max_r by lia. rewrite Z.max_l by lia. rewrite Z.pow_0_r.
    assert (2 ^ a = 2 ^ (b + 1) * 2 ^ (a - b - 1)) as Hp.
    { rewrite <- Z.pow_add_r by lia. f_equal; lia. }
    replace (Z.succ b) with (b + 1) in Hd2 by lia.
    assert (0 < 2 ^ (a - b - 1)) by (apply Z.pow_pos_nonneg; lia).
    nia.
Qed.

(** The last place of a quotient below [2^52] is a fraction. *)
Lemma ulp_exp_neg n d :
  n ≠ 0 → 0 < d → Z.abs n < d * 2 ^ 52 → B64.ulp_exp n d < 0.
Proof.
  intros Hn Hd Hb. unfold B64.ulp_exp, B64.emin, B64.prec.
  pose proof (ilog2_ratio_lower (Z.abs n) d ltac:(lia) Hd) as H.
  set (e := B64.ilog2_ratio (Z.abs n) d) in *.
  destruct (Z.le_gt_cases 52 e) as [He|He]; [|lia].
  exfalso. rewrite Z.max_r in H by lia. rewrite Z.max_l in H by lia.
  rewrite Z.pow_0_r in H.
  assert (2 ^ e = 2 ^ 52 * 2 ^ (e - 52)) as Hp.
  { rewrite <- Z.pow_add_r by lia. f_equal; lia. }
  assert (0 < 2 ^ (e - 52)) by (apply Z.pow_pos_nonneg; lia).
  nia.
Qed.

Lemma ulp_exp_ge_emin n d : B64.emin ≤ B64.ulp_exp n d.
Proof. unfold B64.ulp_exp. lia. Qed.

(** Above the subnormal range the quotient has 53 significant bits. *)
Lemma ulp_exp_normal n d :
  n ≠ 0 → 0 < d → B64.ulp_exp n d < 0 → B64.ulp_exp n d ≠ B64.emin →
  d * 2 ^ 52 ≤ Z.abs n * 2 ^ (- B64.ulp_exp n d).
Proof.
  intros Hn Hd Hneg Hne. unfold B64.ulp_exp, B64.emin, B64.prec in *.
  pose proof (ilog2_ratio_lower (Z.abs n) d ltac:(lia) Hd) as H.
  set (e := B64.ilog2_ratio (Z.abs n) d) in *.
  assert (Z.max (-1074) (e - (53 - 1)) = e - 52) as Hex by lia.
  rewrite Hex in *. replace (- (e - 52)) with (52 - e) by lia.
  destruct (Z.le_gt_cases 0 e) as [He|He].
  - rewrite Z.max_r in H by lia. rewrite Z.max_l in H by lia.
    rewrite Z.pow_0_r in H.
    assert (2 ^ 52 = 2 ^ e * 2 ^ (52 - e)) as Hp.
    { rewrite <- Z.pow_add_r by lia. f_equal; lia. }
    assert (0 < 2 ^ (52 - e)) by (apply Z.pow_pos_nonneg; lia).
    assert (0 < 2 ^ e) by (apply Z.pow_pos_nonneg; lia).
    rewrite Hp. nia.
  - rewrite Z.max_l in H by lia. rewrite Z.max_r in H by lia.
    rewrite Z.pow_0_r in H.
    assert (2 ^ (52 - e) = 2 ^ 52 * 2 ^ (- e)) as Hp.
    { rewrite <- Z.pow_add_r by lia. f_equal; lia. }
    rewrite Hp. nia.
Qed.

(** The rounding of a quotient below [2^52], spelled out. *)
Lemma round_small n d :
  n ≠ 0 → 0 < d → Z.abs n < d * 2 ^ 52 →
  B64.round n d =
    Ok (B64.mk (B64.rne_div (n * 2 ^ (- B64.ulp_exp n d)) d) (B64.ulp_exp n d)).
Proof.
  intros Hn Hd Hb. pose proof (ulp_exp_neg n d Hn Hd Hb) as Hneg.
  unfold B64.round. destruct (Z.eqb_spec n 0); [done|].
  cbv zeta. rewrite (Z.max_r 0 (- _)) by lia. rewrite (Z.max_l 0 (B64.ulp_exp n d)) by lia.
  rewrite Z.pow_0_r, Z.mul_1_r.
  destruct (Z.leb_spec 0 (B64.ulp_exp n d)); [lia|]. done.
Qed.

Lemma pow2_52 : 2 ^ 52 = 4503599627370496.
Proof. reflexivity. Qed.

Lemma pow2_50 : 2 ^ 50 = 1125899906842624.
Proof. reflexivity. Qed.

Lemma pow2_emin_large e : B64.emin ≤ e → e < 0 → 0 < 2 ^ (- e) ≤ 2 ^ 1074.
Proof.
  unfold B64.emin. intros. split; [apply Z.pow_pos_nonneg; lia|].
  apply Z.pow_le_mono_r; lia.
Qed.

Lemma pow2_1074_large : 2 ^ 52 < 2 ^ 1074.
Proof. apply Z.pow_lt_mono_r; lia. Qed.

Lemma abs_mul_bound N lo hi P X :
  0 < P → lo * P ≤ N → N ≤ hi * P → - X ≤ lo → hi ≤ X → Z.abs N ≤ X * P.
Proof. intros. assert (N ≤ X * P) by nia. assert (- X * P ≤ N) by nia. lia. Qed.

Lemma floor_quotient_abs a s q :
  0 < s → q * s ≤ a → a ≤ (q + 1) * s - 1 → s * Z.abs q ≤ Z.abs a + s.
Proof. intros. nia. Qed.

(** The distance that keeps the second rounding below the next integer. *)
Lemma gap_from_normal s q P1 m1 N2 P2 a :
  0 < s < 1125899906842624 → - 1125899906842624 < a < 1125899906842624 →
  q * s ≤ a → a ≤ (q + 1) * s - 1 →
  0 < P1 → 0 < P2 →
  q * P1 ≤ m1 → m1 ≤ (q + 1) * P1 →
  P1 ≤ 2 * s * ((q + 1) * P1 - m1) →
  N2 = m1 + P1 →
  P1 * 4503599627370496 ≤ Z.abs N2 * P2 →
  P1 < 2 * ((q + 1) * P1 - m1) * P2.
Proof.
  intros Hs Ha Hq1 Hq2 HP1 HP2 Hm1 Hm2 HD HN Hn.
  set (D := (q + 1) * P1 - m1) in *.
  pose proof (floor_quotient_abs a s q ltac:(lia) Hq1 Hq2) as Hsq.
  assert (Z.abs N2 ≤ (Z.abs q + 2) * P1) as HNb.
  { apply (abs_mul_bound N2 (q + 1) (q + 2)); [done|lia|lia|lia|lia]. }
  assert (s * (Z.abs q + 2) < 4503599627370496) as HsX by lia.
  assert (s * Z.abs N2 < 4503599627370496 * (2 * s * D)) as H1.
  { apply Z.le_lt_trans with (s * (Z.abs q + 2) * P1).
    - rewrite <- Z.mul_assoc. apply Z.mul_le_mono_nonneg_l; lia.
    - apply Z.lt_le_trans with (4503599627370496 * P1).
      + apply Z.mul_lt_mono_pos_r; lia.
      + apply Z.mul_le_mono_nonneg_l; lia. }
  assert (Z.abs N2 < 2 * D * 4503599627370496) as H2.
  { apply Z.mul_lt_mono_pos_l with s; [lia|]. lia. }
  assert (Z.abs N2 * P2 < 2 * D * 4503599627370496 * P2) as H3.
  { apply Z.mul_lt_mono_pos_r; lia. }
  assert (P1 * 4503599627370496 < (2 * D * P2) * 4503599627370496) as H4 by lia.
  apply Z.mul_lt_mono_pos_r in H4; lia.
Qed.

(** Below [2^50] neither rounding reaches the next integer. *)
Lemma f_get_next_size_small in_L k s :
  - 2 ^ 50 < in_L - k < 2 ^ 50 → 0 < s < 2 ^ 50 →
  f_get_next_size in_L k s = Ok ((in_L - k) / s + 1).
Proof.
  intros Ha Hs. unfold f_get_next_size, B64.truediv.
  destruct (Z.eqb_spec s 0); [lia|]. destruct (Z.ltb_spec s 0); [lia|].
  set (a := in_L - k) in *.
  pose proof pow2_52 as E52. pose proof pow2_50 as E50. rewrite E50 in *.
  destruct (decide (a = 0)) as [Ha0|Ha0].
  { rewrite Ha0. change (B64.round 0 s) with (Ok (B64.mk 0 0)).
    rewrite Z.div_0_l by lia. reflexivity. }
  rewrite round_small by (try done; lia).
  cbn [mbind pyres_bind].
  pose proof (ulp_exp_neg a s Ha0 ltac:(lia) ltac:(lia)) as Hneg1.
  pose proof (ulp_exp_ge_emin a s) as Hmin1.
  set (ex1 := B64.ulp_exp a s) in *.
  pose proof (pow2_emin_large ex1 Hmin1 Hneg1) as [HP1 HP1'].
  assert (4 * s < 2 ^ (- ex1)) as H4s.
  { destruct (decide (ex1 = B64.emin)) as [->|Hn].
    - change (- B64.emin) with 1074. pose proof pow2_1074_large. lia.
    - pose proof (ulp_exp_normal a s Ha0 ltac:(lia) Hneg1 Hn) as Hn1.
      fold ex1 in Hn1. nia. }
  set (P1 := 2 ^ (- ex1)) in *.
  set (q := a / s).
  assert (q * s ≤ a ∧ a ≤ (q + 1) * s - 1) as [Hq1 Hq2].
  { pose proof (Z.div_mod a s ltac:(lia)). pose proof (Z.mod_pos_bound a s ltac:(lia)).
    fold q in H. nia. }
  assert (- 1125899906842624 < q < 1125899906842624) as Hqb by nia.
  pose proof (rne_div_ge (q * P1) (a * P1) s ltac:(lia) ltac:(nia)) as Hm1.
  pose proof (rne_div_le ((q + 1) * P1) (a * P1) s ltac:(lia) ltac:(nia)) as Hm2.
  pose proof (rne_div_err (a * P1) s ltac:(lia)) as Hm3.
  set (m1 := B64.rne_div (a * P1) s) in *.
  assert (P1 ≤ 2 * s * ((q + 1) * P1 - m1)) as HD by nia.
  assert (1 ≤ (q + 1) * P1 - m1) as HD1 by nia.
  unfold B64.add_int. cbn [B64.expo B64.mant].
  destruct (Z.leb_spec 0 ex1); [lia|]. fold P1. rewrite Z.mul_1_l.
  set (N2 := m1 + P1) in *.
  destruct (decide (N2 = 0)) as [HN0|HN0].
  { rewrite HN0. change (B64.round 0 P1) with (Ok (B64.mk 0 0)).
    cbn [mbind pyres_bind]. change (B64.floor (B64.mk 0 0)) with 0.
    f_equal. nia. }
  assert (Z.abs N2 < P1 * 2 ^ 52) as HN2b by (rewrite E52; nia).
  rewrite round_small by (try done; lia).
  cbn [mbind pyres_bind].
  pose proof (ulp_exp_neg N2 P1 HN0 ltac:(lia) HN2b) as Hneg2.
  pose proof (ulp_exp_ge_emin N2 P1) as Hmin2.
  set (ex2 := B64.ulp_exp N2 P1) in *.
  pose proof (pow2_emin_large ex2 Hmin2 Hneg2) as [HP2 HP2'].
  unfold B64.floor. cbn [B64.expo B64.mant].
  destruct (Z.leb_spec 0 ex2); [lia|].
  assert (P1 < 2 * ((q + 1) * P1 - m1) * 2 ^ (- ex2)) as Hgap.
  { destruct (decide (ex2 = B64.emin)) as [He|Hn].
    - rewrite He. change (- B64.emin) with 1074.
      apply Z.le_lt_trans with (2 ^ 1074); [done|].
      clear - HD1 HP1'. assert (0 < 2 ^ 1074) by (apply Z.pow_pos_nonneg; lia). nia.
    - pose proof (ulp_exp_normal N2 P1 HN0 ltac:(lia) Hneg2 Hn) as Hn2.
      fold ex2 in Hn2. rewrite E52 in Hn2.
      apply (gap_from_normal s q P1 m1 N2 (2 ^ (- ex2)) a); try done; lia. }
  set (P2 := 2 ^ (- ex2)) in *.
  assert (N2 = m1 + P1) as HN2 by reflexivity.
  assert ((q + 1) * P2 * P1 ≤ N2 * P2) as Hlo.
  { replace ((q + 1) * P2 * P1) with ((q + 1) * P1 * P2) by ring.
    apply Z.mul_le_mono_nonneg_r; lia. }
  assert (2 * (N2 * P2) < (2 * ((q + 2) * P2) - 1) * P1) as Hhi.
  { clear - Hgap HN2. rewrite HN2. lia. }
  pose proof (rne_div_ge ((q + 1) * P2) (N2 * P2) P1 ltac:(lia) Hlo) as Hr1.
  pose proof (rne_div_lt ((q + 2) * P2) (N2 * P2) P1 ltac:(lia) Hhi) as Hr2.
  set (m2 := B64.rne_div (N2 * P2) P1) in *.
  f_equal. symmetry. apply Z.div_unique with (r := m2 - (q + 1) * P2).
  - left. clear - Hr1 Hr2. lia.
  - ring.
Qed.

(** ** The size updates of the convolution branches *)

Lemma size_update_1d module_type p cid st m cid' st' l :
  module_type ∈ ["SincNet"; "Conv1d"] →
  f_parse_component module_type (Ref p) cid st = (Ok (m, cid'), st') →
  dims_of st cid = Some l →
  ∃ kv sv k s L r l',
    attr_of st' p "kernel_size" = Some kv ∧ as_int kv = Ok k ∧
    attr_of st' p "stride" = Some sv ∧ as_int sv = Ok s ∧
    py_index l 2 = Ok L ∧ f_get_next_size L k s = Ok r ∧
    dims_of st' cid' = Some l' ∧ py_index l' 2 = Ok r.
Proof.
  intros Hin H Hl. apply list_elem_of_In in Hin. simpl in Hin.
  repeat (destruct Hin as [<-|Hin]; [run_branch H|]); try done.
  all: match goal with
       | Hs1 : py_store ?l0 1 _ = Ok ?l1, Hi : py_index ?l1 2 = Ok ?L,
         Hf : f_get_next_size ?L ?k ?s = Ok ?r, Hs2 : py_store ?l1 2 ?r = Ok ?l2,
         Hk : as_int ?kv = Ok ?k, Hs : as_int ?sv = Ok ?s,
         Hkv : _ !! "kernel_size" = Some ?kv, Hsv : _ !! "stride" = Some ?sv |- _ =>
           exists kv, sv, k, s, L, r, l2;
           rewrite (py_store_index _ _ 1 2 _ ltac:(lia) ltac:(lia) Hs1) in Hi;
           pose proof (py_store_index _ _ 2 2 _ ltac:(lia) ltac:(lia) Hs2) as Hi2
       end.
  all: split_and!; try done.
  all: unfold attr_of; mfinish.
Qed.

Lemma size_update_2d p cid st m cid' st' l pv :
  f_parse_component "Conv2d" (Ref p) cid st = (Ok (m, cid'), st') →
  dims_of st cid = Some l →
  attr_of st' p "padding" = Some pv → py_eq pv (VStr "same") = false →
  ∃ kv sv k0 k1 s0 s1 H W r0 r1 l',
    attr_of st' p "kernel_size" = Some kv ∧ attr_of st' p "stride" = Some sv ∧
    py_getitem kv 0 = Ok k0 ∧ py_getitem kv 1 = Ok k1 ∧
    py_getitem sv 0 = Ok s0 ∧ py_getitem sv 1 = Ok s1 ∧
    py_index l 2 = Ok H ∧ py_index l 3 = Ok W ∧
    f_get_next_size H k0 s0 = Ok r0 ∧ f_get_next_size W k1 s1 = Ok r1 ∧
    dims_of st' cid' = Some l' ∧ py_index l' 2 = Ok r0 ∧ py_index l' 3 = Ok r1.
Proof.
  intros H Hl Hp Hs. run_branch H.
  all: simplify_map_eq.
  all: try (match goal with H : negb (py_eq _ _) = false |- _ =>
              apply negb_false_iff in H end; congruence).
  all: match goal with
       | Hs1 : py_store ?l0 1 _ = Ok ?l1, Hi2 : py_index ?l1 2 = Ok ?H,
         Hf2 : f_get_next_size ?H ?k0 ?s0 = Ok ?r0, Hs2 : py_store ?l1 2 ?r0 = Ok ?l2,
         Hi3 : py_index ?l2 3 = Ok ?W,
         Hf3 : f_get_next_size ?W ?k1 ?s1 = Ok ?r1, Hs3 : py_store ?l2 3 ?r1 = Ok ?l3,
         Hk0 : py_getitem ?kv 0 = Ok ?k0, Hk1 : py_getitem ?kv 1 = Ok ?k1,
         Hs0 : py_getitem ?sv 0 = Ok ?s0, Hs1' : py_getitem ?sv 1 = Ok ?s1 |- _ =>
           exists kv, sv, k0, k1, s0, s1, H, W, r0, r1, l3;
           rewrite (py_store_index _ _ 1 2 _ ltac:(lia) ltac:(lia) Hs1) in Hi2;
           rewrite (py_store_index _ _ 2 3 _ ltac:(lia) ltac:(lia) Hs2) in Hi3;
           rewrite (py_store_index _ _ 1 3 _ ltac:(lia) ltac:(lia) Hs1) in Hi3;
           pose proof (py_store_index _ _ 3 3 _ ltac:(lia) ltac:(lia) Hs3) as Hj3;
           pose proof (py_store_index _ _ 3 2 _ ltac:(lia) ltac:(lia) Hs3) as Hj2;
           rewrite (py_store_index _ _ 2 2 _ ltac:(lia) ltac:(lia) Hs2) in Hj2
       end.
  all: split_and!; try done.
  all: unfold attr_of; mfinish.
Qed.

(** C4 (amended).  The output-size formula: for integers with
    [|in_L - k| < 2^50] and [0 < s < 2^50], [f_get_next_size in_L k s] is
    [floor((in_L - k) / s) + 1]; and the ['SincNet'], ['Conv1d'] and
    ['Conv2d'] (padding other than ['same']) branches store in each spatial
    entry of the shape vector the value of [f_get_next_size] on the entry's
    old value and the branch's kernel size and stride. *)
Theorem next_size_formula :
  (∀ in_L k s,
     - 2 ^ 50 < in_L - k < 2 ^ 50 → 0 < s < 2 ^ 50 →
     f_get_next_size in_L k s = Ok ((in_L - k) / s + 1)) ∧
  (∀ module_type p cid st m cid' st' l,
     module_type ∈ ["SincNet"; "Conv1d"] →
     f_parse_component module_type (Ref p) cid st = (Ok (m, cid'), st') →
     dims_of st cid = Some l →
     ∃ kv sv k s L r l',
       attr_of st' p "kernel_size" = Some kv ∧ as_int kv = Ok k ∧
       attr_of st' p "stride" = Some sv ∧ as_int sv = Ok s ∧
       py_index l 2 = Ok L ∧ f_get_next_size L k s = Ok r ∧
       dims_of st' cid' = Some l' ∧ py_index l' 2 = Ok r) ∧
  (∀ p cid st m cid' st' l pv,
     f_parse_component "Conv2d" (Ref p) cid st = (Ok (m, cid'), st') →
     dims_of st cid = Some l →
     attr_of st' p "padding" = Some pv → py_eq pv (VStr "same") = false →
     ∃ kv sv k0 k1 s0 s1 H W r0 r1 l',
       attr_of st' p "kernel_size" = Some kv ∧ attr_of st' p "stride" = Some sv ∧
       py_getitem kv 0 = Ok k0 ∧ py_getitem kv 1 = Ok k1 ∧
       py_getitem sv 0 = Ok s0 ∧ py_getitem sv 1 = Ok s1 ∧
       py_index l 2 = Ok H ∧ py_index l 3 = Ok W ∧
       f_get_next_size H k0 s0 = Ok r0 ∧ f_get_next_size W k1 s1 = Ok r1 ∧
       dims_of st' cid' = Some l' ∧ py_index l' 2 = Ok r0 ∧ py_index l' 3 = Ok r1).
Proof.
  split_and!.
  - apply f_get_next_size_small.
  - apply size_update_1d.
  - apply size_update_2d.
Qed.

Lemma next_size_formula_witness :
  f_get_next_size 100 3 2 = Ok ((100 - 3) / 2 + 1).
Proof.
  apply (proj1 next_size_formula 100 3 2); split; reflexivity.
Defined.

(** Beyond the range of exact binary64 arithmetic the formula fails:
    [(2^53 + 1) / 1] rounds to [2^53], and so does [2^53 + 1.0]. *)
Lemma next_size_large_counterexample :
  f_get_next_size (2 ^ 53 + 1) 0 1 = Ok (2 ^ 53) ∧
  f_get_next_size (2 ^ 53 + 1) 0 1 ≠ Ok ((2 ^ 53 + 1 - 0) / 1 + 1).
Proof. split; [vm_compute; reflexivity | vm_compute; discriminate]. Qed.

(** ** Shapes through the temporal blocks *)

Ltac zbool :=
  repeat match goal with
  | |- context [?a <? ?b] => destruct (Z.ltb_spec a b); try lia
  | |- context [?a <=? ?b] => destruct (Z.leb_spec a b); try lia
  | |- context [?a =? ?b] => destruct (Z.eqb_spec a b); try lia
  end.

Lemma broadcast_rev_same s : Shape.broadcast_rev s s = Ok s.
Proof.
  induction s as [|x s IH]; [done|]. simpl. rewrite IH. simpl.
  by rewrite Z.eqb_refl.
Qed.

Lemma broadcast_same s : Shape.broadcast s s = Ok s.
Proof.
  unfold Shape.broadcast. rewrite broadcast_rev_same. simpl.
  by rewrite reverse_involutive.
Qed.

Lemma window_out_padded L k d :
  1 ≤ L → 1 ≤ k → 0 < d →
  Shape.window_out L k 1 ((k - 1) * d) d = Ok (L + (k - 1) * d).
Proof.
  intros HL Hk Hd. unfold Shape.window_out.
  assert (0 ≤ (k - 1) * d) by nia.
  zbool; simpl; zbool. f_equal. rewrite Z.div_1_r. lia.
Qed.

Lemma window_out_pointwise L :
  1 ≤ L → Shape.window_out L 1 1 0 1 = Ok L.
Proof.
  intros HL. unfold Shape.window_out. zbool; simpl; zbool.
  f_equal. rewrite Z.div_1_r. lia.
Qed.

Lemma channels_fit_same c : 0 < c → Shape.channels_fit c c = Ok tt.
Proof. intros. unfold Shape.channels_fit. zbool. done. Qed.

(** Chomp1d removes the last [p] entries when [p] is positive... *)
Lemma Chomp1d_positive B C L p :
  0 < p → 0 ≤ L →
  forward (Chomp1d (VInt p)) [B; C; L + p] = Ok [B; C; L].
Proof.
  intros Hp HL. simpl. unfold Shape.slice, Shape.slice_len. simpl.
  zbool. do 2 f_equal. f_equal. f_equal. lia.
Qed.

(** ... and everything when [p] is [0]: [x[:, :, :-0]] is [x[:, :, :0]]. *)
Lemma Chomp1d_zero B C L :
  0 ≤ L → forward (Chomp1d (VInt 0)) [B; C; L] = Ok [B; C; 0].
Proof.
  intros HL. simpl. unfold Shape.slice, Shape.slice_len. simpl.
  zbool. do 2 f_equal. f_equal. f_equal. lia.
Qed.

Lemma TemporalBlock_keeps_length B cin cout k d L dr :
  0 < cin → 0 < cout → 2 ≤ k → 0 < d → 1 ≤ L →
  forward (TemporalBlock (VInt cin) (VInt cout) (VInt k) (VInt 1) (VInt d)
             (VInt ((k - 1) * d)) dr) [B; cin; L] = Ok [B; cout; L].
Proof.
  intros Hi Ho Hk Hd HL.
  assert (0 < (k - 1) * d) as Hp by nia.
  unfold TemporalBlock.
  cbn [forward nn_forward Shape.torch Shape.nn_shape mbind pyres_bind].
  rewrite !channels_fit_same by done. cbn [mbind pyres_bind].
  rewrite window_out_padded by lia. cbn [mbind pyres_bind].
  change (as_int (VInt ?p)) with (Ok p). cbn [mbind pyres_bind].
  assert (∀ C, t_slice 2 None (Some (- ((k - 1) * d))) [B; C; L + (k - 1) * d]
               = Ok [B; C; L]) as Hs.
  { intros C. apply (Chomp1d_positive B C L ((k - 1) * d)); lia. }
  rewrite Hs. cbn [mbind pyres_bind].
  rewrite !channels_fit_same by done. cbn [mbind pyres_bind].
  rewrite window_out_padded by lia. cbn [mbind pyres_bind].
  rewrite Hs. cbn [mbind pyres_bind].
  simpl py_eq. destruct (Z.eqb_spec cin cout) as [->|Hne]; cbn [negb mbind pyres_bind].
  - cbn [t_add Shape.torch]. by rewrite broadcast_same.
  - cbn [forward nn_forward Shape.torch Shape.nn_shape mbind pyres_bind].
    rewrite !channels_fit_same by done. cbn [mbind pyres_bind].
    rewrite window_out_pointwise by lia. cbn [mbind pyres_bind].
    cbn [t_add Shape.torch]. by rewrite broadcast_same.
Qed.

Lemma forward_Sequential_cons {T} `{Torch T} m ms (x : T) :
  forward (nn_Sequential (m :: ms)) x = (y ← forward m x; forward (nn_Sequential ms) y).
Proof. reflexivity. Qed.

Lemma forward_levels B ni cs k dr L n :
  0 < ni → Forall (λ c, 0 < c) cs → 2 ≤ k → 1 ≤ L →
  ∀ j cin, (j + n = length cs)%nat →
    cin = match j with O => ni | S j' => nth j' cs 0 end →
    forward (nn_Sequential (map (tcn_level (VInt ni) cs k dr) (seq j n))) [B; cin; L] =
    Ok [B; match n with O => cin | S _ => nth (j + n - 1) cs 0 end; L].
Proof.
  intros Hni Hcs Hk HL. induction n as [|n IH]; intros j cin Hj Hcin; [done|].
  change (seq j (S n)) with (j :: seq (S j) n). cbn [map].
  rewrite forward_Sequential_cons.
  assert (0 < nth j cs 0) as Hpos.
  { rewrite Forall_forall in Hcs. apply Hcs, list_elem_of_In, nth_In. lia. }
  assert (0 < cin) as Hcpos.
  { subst cin. destruct j as [|j']; [done|].
    rewrite Forall_forall in Hcs. apply Hcs, list_elem_of_In, nth_In. lia. }
  assert (tcn_level (VInt ni) cs k dr j =
          TemporalBlock (VInt cin) (VInt (nth j cs 0)) (VInt k) (VInt 1)
            (VInt (2 ^ Z.of_nat j)) (VInt ((k - 1) * 2 ^ Z.of_nat j)) dr) as ->.
  { unfold tcn_level. subst cin. by destruct j. }
  rewrite TemporalBlock_keeps_length by (try done; lia).
  cbn [mbind pyres_bind].
  rewrite (IH (S j) (nth j cs 0)) by (done || lia).
  destruct n as [|n']; do 3 f_equal; f_equal; lia.
Qed.

Lemma nth_last_length {A} (l : list A) (d : A) :
  nth (length l - 1) l d = List.last l d.
Proof.
  induction l as [|x l IH]; [done|].
  destruct l as [|y l']; [done|].
  change (List.last (x :: y :: l') d) with (List.last (y :: l') d).
  rewrite <- IH. cbn [length].
  replace (S (S (length l')) - 1)%nat with (S (length l')) by lia.
  replace (S (length l') - 1)%nat with (length l') by lia.
  reflexivity.
Qed.

(** X1.  With a kernel of size 2 or more, positive channel counts and a
    dropout probability, the stack is built, keeps the length of its input
    and ends with the last channel count. *)
Lemma TemporalConvNet_keeps_length B ni cs k dr L :
  0 < ni → cs ≠ [] → Forall (λ c, 0 < c) cs → 2 ≤ k → 1 ≤ L →
  is_probability dr = true →
  ∃ m, TemporalConvNet (VInt ni) (VList cs) (VInt k) dr = Ok m ∧
       forward m [B; ni; L] = Ok [B; List.last cs 0; L].
Proof.
  intros Hni Hne Hcs Hk HL _.
  exists (mk_TemporalConvNet
            (nn_Sequential (map (tcn_level (VInt ni) cs k dr) (seq 0 (length cs))))).
  split.
  - unfold TemporalConvNet. simpl. by rewrite TemporalConvNet_loop_levels by lia.
  - change (forward (nn_Sequential (map (tcn_level (VInt ni) cs k dr) (seq 0 (length cs))))
              [B; ni; L] = Ok [B; List.last cs 0; L]).
    rewrite (forward_levels B ni cs k dr L (length cs)) with (cin := ni); try done.
    destruct cs as [|c cs']; [done|].
    rewrite <- nth_last_length. cbn [length]. do 3 f_equal.
Qed.

Lemma TemporalConvNet_keeps_length_witness :
  ∃ m, TemporalConvNet (VInt 3) (VList [8; 16]) (VInt 2) (float_lit 1 5) = Ok m ∧
       forward m [4; 3; 50] = Ok [4; List.last [8; 16] 0; 50].
Proof.
  apply (TemporalConvNet_keeps_length 4 3 [8; 16] 2 (float_lit 1 5) 50).
  - reflexivity.
  - discriminate.
  - repeat constructor.
  - discriminate.
  - discriminate.
  - reflexivity.
Defined.

Lemma tcn_factory p cid st m cid' st' l :
  f_parse_component "Conv1dTCN" (Ref p) cid st = (Ok (m, cid'), st') →
  dims_of st cid = Some l →
  ∃ nc c l',
    attr_of st' p "num_channels" = Some nc ∧ py_getitem nc (-1) = Ok c ∧
    dims_of st' cid' = Some l' ∧ py_index l' 1 = Ok c ∧
    py_index l' 0 = py_index l 0 ∧ py_index l' 2 = py_index l 2.
Proof.
  intros H Hl. run_branch H.
  all: simplify_map_eq.
  all: match goal with
       | Hs1 : py_store ?l0 1 ?c = Ok ?l1, Hg : py_getitem ?nc (-1) = Ok ?c |- _ =>
           exists nc, c, l1;
           rewrite (py_store_index _ _ 1 0 _ ltac:(lia) ltac:(lia) Hs1),
             (py_store_index _ _ 1 1 _ ltac:(lia) ltac:(lia) Hs1),
             (py_store_index _ _ 1 2 _ ltac:(lia) ltac:(lia) Hs1)
       end.
  all: split_and!; try done.
  all: unfold attr_of; mfinish.
Qed.

(** C5.  With [kernel_size] 1 the padding is 0 and [Chomp1d(0)] slices with
    [:-0], which keeps nothing: the block does not map a sequence of length
    5 to one of length 5, the second convolution is handed an empty
    sequence and [forward] raises. *)
Theorem kernel_one_loses_the_sequence :
  forward (Chomp1d (VInt 0)) [1; 1; 5] = Ok [1; 1; 0] ∧
  forward (TemporalBlock (VInt 1) (VInt 1) (VInt 1) (VInt 1) (VInt 1)
             (VInt ((1 - 1) * 1)) (float_lit 1 5)) [1; 1; 5] = Raise TorchError ∧
  (m ← TemporalConvNet (VInt 1) (VList [1]) (VInt 1) (float_lit 1 5);
   forward m [1; 1; 5]) = Raise TorchError.
Proof. repeat split; vm_compute; reflexivity. Qed.

(** ** Channel-splitting pooling *)

Lemma pow2_53 : 2 ^ 53 = 9007199254740992.
Proof. reflexivity. Qed.

(** [int(n/2)] is exact below [2^53]. *)
Lemma int_div_2 n : 0 ≤ n < 2 ^ 53 → int_div n 2 = Ok (n / 2).
Proof.
  intros Hn. rewrite pow2_53 in Hn. unfold int_div, B64.truediv.
  change (2 =? 0) with false. change (2 <? 0) with false. cbv iota.
  destruct (decide (n = 0)) as [->|Hn0]; [reflexivity|].
  pose proof pow2_52 as E52.
  rewrite round_small by (try done; lia).
  cbn [mbind pyres_bind].
  pose proof (ulp_exp_neg n 2 Hn0 ltac:(lia) ltac:(lia)) as Hneg.
  set (ex := B64.ulp_exp n 2) in *.
  assert (2 ^ (- ex) = 2 ^ (- ex - 1) * 2) as Hp.
  { rewrite <- (Z.pow_1_r 2) at 3. rewrite <- Z.pow_add_r by lia. f_equal; lia. }
  assert (0 < 2 ^ (- ex - 1)) as HP by (apply Z.pow_pos_nonneg; lia).
  rewrite Hp at 1. rewrite Z.mul_assoc, rne_div_exact by lia.
  unfold B64.trunc. cbn [B64.expo B64.mant].
  destruct (Z.leb_spec 0 ex); [lia|].
  rewrite Hp, (Z.mul_comm _ 2). rewrite Z.quot_mul_cancel_r by lia.
  f_equal. apply Z.quot_div_nonneg; lia.
Qed.

Lemma slice_upper B n H W h :
  0 ≤ h ≤ n → Shape.slice 1 (Some h) None [B; n; H; W] = Ok [B; n - h; H; W].
Proof.
  intros Hh. unfold Shape.slice, Shape.slice_len. simpl. zbool.
  do 3 f_equal. lia.
Qed.

Lemma slice_lower B n H W h :
  0 ≤ h ≤ n → Shape.slice 1 None (Some h) [B; n; H; W] = Ok [B; h; H; W].
Proof.
  intros Hh. unfold Shape.slice, Shape.slice_len. simpl. zbool.
  do 3 f_equal. lia.
Qed.

Lemma broadcast_last_one B C H W :
  Shape.broadcast [B; C; H; W] [B; C; H; 1] = Ok [B; C; H; W].
Proof.
  unfold Shape.broadcast. cbn -[Z.eqb]. rewrite !Z.eqb_refl. cbn -[Z.eqb].
  destruct (Z.eqb_spec W 1) as [->|?]; reflexivity.
Qed.

Lemma broadcast_scalar s : Shape.broadcast s [] = Ok s.
Proof.
  unfold Shape.broadcast. change (reverse []) with (@nil Z).
  destruct (reverse s) eqn:E; simpl; rewrite <- E; by rewrite reverse_involutive.
Qed.

Lemma broadcast_channels_differ B C C' H W :
  C ≠ C' → C ≠ 1 → C' ≠ 1 →
  Shape.broadcast [B; C; H; W] [B; C'; H; W] = Raise TorchError.
Proof.
  intros. unfold Shape.broadcast. cbn -[Z.eqb]. rewrite !Z.eqb_refl. cbn -[Z.eqb].
  zbool. reflexivity.
Qed.

Lemma softmax_last B C H W : Shape.same_along (VInt 3) [B; C; H; W] = Ok [B; C; H; W].
Proof. reflexivity. Qed.

Lemma sum_last B C H W :
  Shape.reduce false (VInt 3) (VBool true) [B; C; H; W] = Ok [B; C; H; 1].
Proof. reflexivity. Qed.

Lemma max_last B C H W :
  1 ≤ W → Shape.reduce true (VInt 3) (VBool true) [B; C; H; W] = Ok [B; C; H; 1].
Proof.
  intros HW. unfold Shape.reduce.
  change (Shape.norm_dim (length [B; C; H; W]) 3) with (@Ok nat 3%nat).
  cbn -[Z.eqb]. zbool. reflexivity.
Qed.

Lemma f_autopool_weights_shape B C H W p :
  1 ≤ W → f_autopool_weights [B; C; H; W] p = Ok [B; C; H; W].
Proof.
  intros HW. unfold f_autopool_weights.
  cbn [t_mul t_param t_max t_sub t_exp t_sum t_div Shape.torch].
  rewrite broadcast_scalar. cbn [mbind pyres_bind].
  rewrite max_last by done. cbn [mbind pyres_bind].
  rewrite broadcast_last_one. cbn [mbind pyres_bind].
  rewrite sum_last. cbn [mbind pyres_bind].
  apply broadcast_last_one.
Qed.

(** The rounding of [n / 2] for [n] from [2^53] up. *)
Lemma ilog2_ratio_2 n : 2 ≤ n → B64.ilog2_ratio n 2 = Z.log2 n - 1.
Proof.
  intros Hn. unfold B64.ilog2_ratio. change (Z.log2 2) with 1.
  pose proof (Z.log2_spec n ltac:(lia)) as [H1 H2].
  assert (1 ≤ Z.log2 n) by (apply Z.log2_le_pow2; lia).
  rewrite Z.max_r by lia. rewrite Z.max_l by lia. rewrite Z.pow_0_r.
  assert (2 ^ Z.log2 n = 2 * 2 ^ (Z.log2 n - 1)) as Hp.
  { rewrite <- (Z.pow_1_r 2) at 2. rewrite <- Z.pow_add_r by lia. f_equal; lia. }
  destruct (Z.leb_spec (2 * 2 ^ (Z.log2 n - 1)) (n * 1)); [done|lia].
Qed.

Lemma round_half_large n :
  2 ^ 53 ≤ n →
  let ex := Z.log2 n - 53 in
  let m := B64.rne_div n (2 ^ (ex + 1)) in
  0 ≤ ex ∧ 2 ^ 53 * 2 ^ ex ≤ n < 2 ^ 54 * 2 ^ ex ∧
  B64.round n 2 = if 2 ^ B64.emax <=? m * 2 ^ ex then Raise OverflowError else Ok (B64.mk m ex).
Proof.
  intros Hn ex m.
  assert (0 < 2 ^ 53) by (by apply Z.pow_pos_nonneg).
  pose proof (Z.log2_spec n ltac:(lia)) as [H1 H2].
  assert (53 ≤ Z.log2 n) as HL by (apply Z.log2_le_pow2; lia).
  assert (0 ≤ ex) as Hex by (unfold ex; lia).
  assert (2 ^ Z.log2 n = 2 ^ 53 * 2 ^ ex) as Hp.
  { rewrite <- Z.pow_add_r by lia. f_equal. unfold ex. lia. }
  assert (2 ^ Z.succ (Z.log2 n) = 2 ^ 54 * 2 ^ ex) as Hp'.
  { rewrite <- Z.pow_add_r by lia. f_equal. unfold ex. lia. }
  split; [done|]. split; [lia|].
  unfold B64.round. destruct (Z.eqb_spec n 0); [lia|]. cbv zeta.
  assert (B64.ulp_exp n 2 = ex) as ->.
  { unfold B64.ulp_exp, B64.emin, B64.prec. rewrite Z.abs_eq by lia.
    rewrite ilog2_ratio_2 by lia. unfold ex. lia. }
  rewrite (Z.max_l 0 (- ex)) by lia. rewrite (Z.max_r 0 ex) by lia.
  rewrite Z.pow_0_r, Z.mul_1_r.
  assert (2 * 2 ^ ex = 2 ^ (ex + 1)) as ->.
  { rewrite Z.pow_add_r by lia. lia. }
  fold m.
  assert (0 ≤ m) as Hm.
  { apply (rne_div_ge 0); [apply Z.pow_pos_nonneg; lia | lia]. }
  rewrite Z.abs_eq by done.
  destruct (Z.leb_spec 0 ex); [|lia]. cbn [andb]. done.
Qed.

Lemma pow2_emax_large e : e < B64.emax → 2 ^ e < 2 ^ B64.emax.
Proof.
  intros. destruct (Z.ltb_spec e 0).
  - rewrite Z.pow_neg_r by done. by apply Z.pow_pos_nonneg.
  - apply Z.pow_lt_mono_r; unfold B64.emax in *; lia.
Qed.

(** [int(n/2)] from [2^53] up: the quotient does not fit a float, or it is
    within half a last place of [n / 2]. *)
Lemma int_div_2_large n :
  2 ^ 53 ≤ n →
  let ex := Z.log2 n - 53 in
  (2 ^ B64.emax ≤ n ∧ int_div n 2 = Raise OverflowError) ∨
  ∃ h, int_div n 2 = Ok h ∧ h = B64.rne_div n (2 ^ (ex + 1)) * 2 ^ ex ∧
       2 ^ 52 * 2 ^ ex ≤ h ≤ n ∧ 2 * h ≤ n + 2 ^ ex ∧ 2 ^ 53 * 2 ^ ex ≤ n.
Proof.
  intros Hn ex.
  destruct (round_half_large n Hn) as (Hex & [Hlo Hhi] & Hr). fold ex in Hex, Hlo, Hhi, Hr.
  set (m := B64.rne_div n (2 ^ (ex + 1))) in *.
  assert (0 < 2 ^ ex) as HP by (by apply Z.pow_pos_nonneg).
  assert (2 ^ (ex + 1) = 2 * 2 ^ ex) as Hd.
  { rewrite Z.pow_add_r by lia. lia. }
  assert (2 ^ 54 = 2 * 2 ^ 53) as H54 by reflexivity.
  assert (2 ^ 53 = 2 * 2 ^ 52) as H53 by reflexivity.
  assert (0 < 2 ^ 52) as H52 by (by apply Z.pow_pos_nonneg).
  assert (2 ^ 52 ≤ m) as Hm1.
  { apply rne_div_ge; [lia|]. rewrite Hd. lia. }
  assert (m ≤ 2 ^ 53) as Hm2.
  { apply rne_div_le; [lia|]. rewrite Hd. lia. }
  pose proof (rne_div_err n (2 ^ (ex + 1)) ltac:(lia)) as He. fold m in He.
  rewrite Hd in He.
  assert (m * 2 ^ ex ≤ n) as Hmn.
  { apply Z.le_trans with (2 ^ 53 * 2 ^ ex); [|lia].
    apply Z.mul_le_mono_nonneg_r; lia. }
  unfold int_div, B64.truediv. change (2 =? 0) with false. change (2 <? 0) with false.
  cbv iota. rewrite Hr.
  destruct (Z.leb_spec (2 ^ B64.emax) (m * 2 ^ ex)) as [Ho|Ho].
  - left. split; [lia|done].
  - right. exists (m * 2 ^ ex). cbn [mbind pyres_bind].
    unfold B64.trunc. cbn [B64.expo B64.mant].
    destruct (Z.leb_spec 0 ex); [|lia].
    split_and!; try done; try lia.
    apply Z.mul_le_mono_nonneg_r; lia.
Qed.

(** [int(n/2)] halves an even [n] up to [2^54]. *)
Lemma int_div_2_even n : 0 ≤ n ≤ 2 ^ 54 → Z.even n = true → int_div n 2 = Ok (n / 2).
Proof.
  intros Hn He.
  destruct (Z.lt_ge_cases n (2 ^ 53)) as [Hs|Hl]; [apply int_div_2; lia|].
  destruct (decide (n = 2 ^ 54)) as [->|Hne]; [vm_compute; reflexivity|].
  assert (Z.log2 n = 53) as HL.
  { apply Z.log2_unique; [lia|]. change (2 ^ Z.succ 53) with (2 ^ 54). lia. }
  destruct (int_div_2_large n Hl) as [[Ho _]|(h & Hh & -> & _)].
  - exfalso. pose proof (pow2_emax_large 54 ltac:(done)). lia.
  - rewrite Hh. f_equal. rewrite HL. change (53 - 53 + 1) with 1. change (53 - 53) with 0.
    rewrite Z.pow_0_r, Z.mul_1_r, Z.pow_1_r.
    assert (n = n / 2 * 2) as Hq.
    { rewrite (Zeven_div2 n) at 1; [rewrite Z.div2_div; lia|]. by apply Zeven_bool_iff. }
    rewrite Hq at 1. apply rne_div_exact. lia.
Qed.

(** [int(n/2)] of an odd [n] from 5 up leaves two unequal parts of two
    channels or more. *)
Lemma int_div_2_odd n :
  5 ≤ n → Z.odd n = true →
  (2 ^ B64.emax ≤ n ∧ int_div n 2 = Raise OverflowError) ∨
  ∃ h, int_div n 2 = Ok h ∧ 2 ≤ h ∧ 2 ≤ n - h ∧ h ≠ n - h.
Proof.
  intros Hn Ho.
  assert (∀ h, h ≠ n - h) as Hodd.
  { intros h Hh. assert (n = 2 * h) as Hn2 by lia.
    rewrite Hn2, Z.odd_mul in Ho. discriminate. }
  destruct (Z.lt_ge_cases n (2 ^ 53)) as [Hs|Hl].
  - right. exists (n / 2). rewrite int_div_2 by lia.
    assert (n = 2 * (n / 2) + 1) as Hh.
    { rewrite (Zodd_div2 n) at 1; [by rewrite Z.div2_div|]. by apply Zodd_bool_iff. }
    split_and!; [done|lia|lia|apply Hodd].
  - destruct (int_div_2_large n Hl) as [?|(h & Hh & _ & [H1 H2] & H3 & H4)]; [by left|].
    right. exists h.
    assert (0 ≤ Z.log2 n - 53).
    { assert (53 ≤ Z.log2 n); [apply Z.log2_le_pow2; lia|lia]. }
    assert (0 < 2 ^ (Z.log2 n - 53)) as HP by (by apply Z.pow_pos_nonneg).
    assert (2 ^ 52 = 4503599627370496) as E52 by reflexivity.
    assert (2 ^ 53 = 9007199254740992) as E53 by reflexivity.
    rewrite E52 in *. rewrite E53 in *.
    split_and!; [done|nia|nia|apply Hodd].
Qed.

Lemma max_last_nonempty B C H W :
  W ≠ 0 → Shape.reduce true (VInt 3) (VBool true) [B; C; H; W] = Ok [B; C; H; 1].
Proof.
  intros HW. unfold Shape.reduce.
  change (Shape.norm_dim (length [B; C; H; W]) 3) with (@Ok nat 3%nat).
  cbn -[Z.eqb]. zbool. reflexivity.
Qed.

Lemma f_autopool_weights_nonempty B C H W p :
  W ≠ 0 → f_autopool_weights [B; C; H; W] p = Ok [B; C; H; W].
Proof.
  intros HW. unfold f_autopool_weights.
  cbn [t_mul t_param t_max t_sub t_exp t_sum t_div Shape.torch].
  rewrite broadcast_scalar. cbn [mbind pyres_bind].
  rewrite max_last_nonempty by done. cbn [mbind pyres_bind].
  rewrite broadcast_last_one. cbn [mbind pyres_bind].
  rewrite sum_last. cbn [mbind pyres_bind].
  apply broadcast_last_one.
Qed.

(** [torch.max] refuses an empty last dimension. *)
Lemma f_autopool_weights_empty B C H p :
  f_autopool_weights [B; C; H; 0] p = Raise TorchError.
Proof.
  unfold f_autopool_weights.
  cbn [t_mul t_param t_max t_sub t_exp t_sum t_div Shape.torch].
  rewrite broadcast_scalar. reflexivity.
Qed.

Lemma half_channels_even n :
  0 ≤ n ≤ 2 ^ 54 → Z.even n = true → half_channels (VInt n) = Ok (n / 2).
Proof. intros. unfold half_channels. simpl. by apply int_div_2_even. Qed.

Lemma split_pool_halves n B H W :
  0 ≤ n ≤ 2 ^ 54 → Z.even n = true →
  forward (nnSoftmaxWeight (VInt n)) [B; n; H; W] = Ok [B; n / 2; H; 1] ∧
  (W ≠ 0 → forward (nnAutoPoolWeightSplit (VInt n)) [B; n; H; W] = Ok [B; n / 2; H; 1]).
Proof.
  intros Hn He.
  assert (n = 2 * (n / 2)) as Hh.
  { rewrite (Zeven_div2 n) at 1; [by rewrite Z.div2_div|]. by apply Zeven_bool_iff. }
  assert (0 ≤ n / 2 ≤ n ∧ n - n / 2 = n / 2) as [Hr Hu] by lia.
  split; [|intros HW]; unfold nnAutoPoolWeightSplit; cbn [forward].
  all: rewrite !half_channels_even by done; cbn [mbind pyres_bind].
  all: cbn [t_slice t_softmax t_mul t_sum Shape.torch].
  all: rewrite slice_upper, slice_lower, Hu by done; cbn [mbind pyres_bind].
  all: rewrite ?f_autopool_weights_nonempty, ?softmax_last by done; cbn [mbind pyres_bind].
  all: rewrite broadcast_same; cbn [mbind pyres_bind]; by rewrite sum_last.
Qed.

Lemma split_pool_unequal n B H W :
  5 ≤ n → Z.odd n = true →
  ∃ e, forward (nnSoftmaxWeight (VInt n)) [B; n; H; W] = Raise e ∧
       forward (nnAutoPoolWeightSplit (VInt n)) [B; n; H; W] = Raise e ∧
       (e = TorchError ∨ e = OverflowError) ∧
       (n < 2 ^ 1024 → e = TorchError).
Proof.
  intros Hn Ho.
  destruct (int_div_2_odd n Hn Ho) as [[Hbig Hov]|(h & Hh & H1 & H2 & Hne)].
  - exists OverflowError. unfold nnAutoPoolWeightSplit. cbn [forward].
    unfold half_channels. cbn [as_int mbind pyres_bind]. rewrite Hov.
    split_and!; [done|done|by right|]. unfold B64.emax in Hbig. lia.
  - exists TorchError. unfold nnAutoPoolWeightSplit. cbn [forward].
    unfold half_channels. cbn [as_int mbind pyres_bind]. rewrite Hh.
    cbn [mbind pyres_bind t_slice t_softmax t_mul t_sum Shape.torch].
    rewrite slice_upper, slice_lower by lia. cbn [mbind pyres_bind].
    rewrite softmax_last. cbn [mbind pyres_bind].
    split_and!; [by rewrite broadcast_channels_differ by lia| |by left|done].
    destruct (decide (W = 0)) as [->|HW].
    + by rewrite f_autopool_weights_empty.
    + rewrite f_autopool_weights_nonempty by done. cbn [mbind pyres_bind].
      by rewrite broadcast_channels_differ by lia.
Qed.

Lemma split_pool_records module_type param cid st m cid' st' l n :
  module_type ∈ ["AutoPoolWeightSplit"; "SoftmaxWeight"] →
  f_parse_component module_type param cid st = (Ok (m, cid'), st') →
  dims_of st cid = Some l → py_index l 1 = Ok n →
  (m = nnAutoPoolWeightSplit (VInt n) ∨ m = nnSoftmaxWeight (VInt n)) ∧
  ∃ h l', half_channels (VInt n) = Ok h ∧ dims_of st' cid' = Some l' ∧
          py_index l' 1 = Ok h ∧ py_index l' 3 = Ok 1 ∧
          py_index l' 0 = py_index l 0 ∧ py_index l' 2 = py_index l 2 ∧
          (0 ≤ n ≤ 2 ^ 54 → Z.even n = true → h = n / 2).
Proof.
  intros Hin H Hl Hi. apply list_elem_of_In in Hin. simpl in Hin.
  repeat (destruct Hin as [<-|Hin]; [run_branch H|]); try done.
  all: repeat match goal with
       | H1 : py_index ?l ?i = Ok _, H2 : py_index ?l ?i = Ok _ |- _ =>
           rewrite H1 in H2; injection H2 as <-
       end.
  all: (split; [by auto|]).
  all: match goal with
       | Hd : int_div _ 2 = Ok ?h,
         Hs1 : py_store ?l0 1 _ = Ok ?l1, Hs2 : py_store ?l1 3 1 = Ok ?l2 |- _ =>
           exists h, l2;
           rewrite (py_store_index _ _ 3 0 _ ltac:(lia) ltac:(lia) Hs2),
             (py_store_index _ _ 3 1 _ ltac:(lia) ltac:(lia) Hs2),
             (py_store_index _ _ 3 2 _ ltac:(lia) ltac:(lia) Hs2),
             (py_store_index _ _ 3 3 _ ltac:(lia) ltac:(lia) Hs2),
             (py_store_index _ _ 1 0 _ ltac:(lia) ltac:(lia) Hs1),
             (py_store_index _ _ 1 1 _ ltac:(lia) ltac:(lia) Hs1),
             (py_store_index _ _ 1 2 _ ltac:(lia) ltac:(lia) Hs1)
       end.
  all: split_and!; try done.
  all: unfold half_channels; cbn [as_int mbind pyres_bind]; try done.
  all: intros Hb He.
  all: match goal with Hd : int_div _ 2 = Ok _ |- _ =>
         rewrite int_div_2_even in Hd by done; by injection Hd end.
Qed.

(** C9 (amended).  Channel-splitting pooling on a 4-dimensional input with
    [nb_channel] channels.  For every even [nb_channel] up to [2^54] both
    halves have [nb_channel / 2] channels and [forward] returns
    [nb_channel / 2] channels ([nnAutoPoolWeightSplit] on a last dimension
    that is not empty).  The factory builds the module on
    [current_input_dim[1]] and writes into [current_input_dim[1]] the index
    [int(nb_channel/2)] at which the module splits.  For every odd
    [nb_channel] from 5 up [forward] fails: at the product of the two
    parts, which do not broadcast, and from [2^1024] on there or already at
    [nb_channel/2], which is too large for a float. *)
Theorem channel_split_pooling :
  (∀ n B H W,
     0 ≤ n ≤ 2 ^ 54 → Z.even n = true →
     forward (nnSoftmaxWeight (VInt n)) [B; n; H; W] = Ok [B; n / 2; H; 1] ∧
     (W ≠ 0 →
      forward (nnAutoPoolWeightSplit (VInt n)) [B; n; H; W] = Ok [B; n / 2; H; 1])) ∧
  (∀ module_type param cid st m cid' st' l n,
     module_type ∈ ["AutoPoolWeightSplit"; "SoftmaxWeight"] →
     f_parse_component module_type param cid st = (Ok (m, cid'), st') →
     dims_of st cid = Some l → py_index l 1 = Ok n →
     (m = nnAutoPoolWeightSplit (VInt n) ∨ m = nnSoftmaxWeight (VInt n)) ∧
     ∃ h l', half_channels (VInt n) = Ok h ∧ dims_of st' cid' = Some l' ∧
             py_index l' 1 = Ok h ∧ py_index l' 3 = Ok 1 ∧
             py_index l' 0 = py_index l 0 ∧ py_index l' 2 = py_index l 2 ∧
             (0 ≤ n ≤ 2 ^ 54 → Z.even n = true → h = n / 2)) ∧
  (∀ n B H W,
     5 ≤ n → Z.odd n = true →
     ∃ e, forward (nnSoftmaxWeight (VInt n)) [B; n; H; W] = Raise e ∧
          forward (nnAutoPoolWeightSplit (VInt n)) [B; n; H; W] = Raise e ∧
          (e = TorchError ∨ e = OverflowError) ∧
          (n < 2 ^ 1024 → e = TorchError)).
Proof.
  split_and!.
  - apply split_pool_halves.
  - apply split_pool_records.
  - apply split_pool_unequal.
Qed.

Lemma channel_split_pooling_witness :
  (forward (nnSoftmaxWeight (VInt 4)) [2; 4; 1; 50] = Ok [2; 4 / 2; 1; 1] ∧
   forward (nnAutoPoolWeightSplit (VInt 4)) [2; 4; 1; 50] = Ok [2; 4 / 2; 1; 1]) ∧
  (forward (nnSoftmaxWeight (VInt 5)) [2; 5; 1; 50] = Raise TorchError ∧
   forward (nnAutoPoolWeightSplit (VInt 5)) [2; 5; 1; 50] = Raise TorchError).
Proof.
  split.
  - destruct (proj1 channel_split_pooling 4 2 1 50) as [H1 H2].
    + split; discriminate.
    + reflexivity.
    + split; [exact H1 | apply H2; discriminate].
  - destruct (proj2 (proj2 channel_split_pooling) 5 2 1 50) as (e & H1 & H2 & _ & He).
    + discriminate.
    + reflexivity.
    + rewrite (He eq_refl) in H1, H2. by split.
Defined.

(** An odd [nb_channel] need not fail: with 3 channels the lower half has one
    channel and broadcasts against the two weights, with 1 channel the lower
    half is empty; an even [nb_channel] beyond [2^54] is not halved exactly;
    and on an empty last dimension [nnAutoPoolWeightSplit] fails in
    [torch.max], where [nnSoftmaxWeight] returns. *)
Lemma split_pool_counterexample :
  forward (nnSoftmaxWeight (VInt 3)) [2; 3; 1; 50] = Ok [2; 2; 1; 1] ∧
  forward (nnAutoPoolWeightSplit (VInt 3)) [2; 3; 1; 50] = Ok [2; 2; 1; 1] ∧
  forward (nnSoftmaxWeight (VInt 1)) [2; 1; 1; 50] = Ok [2; 0; 1; 1] ∧
  forward (nnSoftmaxWeight (VInt (2 ^ 54 + 2))) [0; 2 ^ 54 + 2; 1; 50] = Raise TorchError ∧
  forward (nnAutoPoolWeightSplit (VInt 4)) [2; 4; 1; 0] = Raise TorchError ∧
  forward (nnSoftmaxWeight (VInt 4)) [2; 4; 1; 0] = Ok [2; 2; 1; 1].
Proof. repeat split; vm_compute; reflexivity. Qed.

(** ** The shape the factory records against the shape the module produces *)

(** C1.  The shape [f_parse_component] records is not always the shape the
    module it returns produces: a pooling layer with a stride other than its
    kernel size, a transposed convolution whose kernel size is not its
    stride, [Flatten] on a 4-dimensional input and [Squeeze] on an input of
    batch size 1, each run on a concrete input. *)
Theorem recorded_shape_differs :
  (factory_shape "MaxPool1d"
     (list_to_map [("kernel_size", VInt 2); ("stride", VInt 1)]) [1; 1; 4]
     = Ok (nn_MaxPool1d (VInt 2) (VInt 1), [1; 1; 2]) ∧
   forward (nn_MaxPool1d (VInt 2) (VInt 1)) [1; 1; 4] = Ok [1; 1; 3]) ∧
  (factory_shape "MaxPool2d"
     (list_to_map [("kernel_size", VList [2; 2]); ("stride", VList [1; 1])]) [1; 1; 4; 4]
     = Ok (nn_MaxPool2d (VList [2; 2]) (VList [1; 1]), [1; 1; 2; 2]) ∧
   forward (nn_MaxPool2d (VList [2; 2]) (VList [1; 1])) [1; 1; 4; 4] = Ok [1; 1; 3; 3]) ∧
  (factory_shape "ConvTranspose2d"
     (list_to_map [("in_channels", VInt 1); ("out_channels", VInt 1);
                   ("kernel_size", VList [3; 3]); ("stride", VList [2; 2])]) [1; 1; 4; 4]
     = Ok (nn_ConvTranspose2d (VInt 1) (VInt 1) (VList [3; 3]) (VList [2; 2]), [1; 1; 8; 8]) ∧
   forward (nn_ConvTranspose2d (VInt 1) (VInt 1) (VList [3; 3]) (VList [2; 2])) [1; 1; 4; 4]
     = Ok [1; 1; 9; 9]) ∧
  (factory_shape "Flatten" (list_to_map [("start_dim", VInt 1)]) [2; 3; 4; 5]
     = Ok (nn_Flatten (VInt 1), [2; 12]) ∧
   forward (nn_Flatten (VInt 1)) [2; 3; 4; 5] = Ok [2; 60]) ∧
  (factory_shape "Squeeze" (list_to_map [("dim", VInt 2)]) [1; 3; 1; 5]
     = Ok (nnSqueeze (VInt 2), [3; 5]) ∧
   forward (nnSqueeze (VInt 2)) [1; 3; 1; 5] = Ok [1; 3; 5]).
Proof. repeat split; vm_compute; reflexivity. Qed.

(** ** What a call may change in the store *)

Section Preserves.
Context (R : state → state → Prop) `{!PreOrder R}.

Lemma preserves_ret {A} (a : A) : preserves R (mret a).
Proof. intros st. unfold final. simpl. reflexivity. Qed.

Lemma preserves_lift {A} (r : pyres A) : preserves R (lift r).
Proof. intros st. unfold final. simpl. reflexivity. Qed.

Lemma preserves_raise {A} e : preserves R (raise (A := A) e).
Proof. intros st. unfold final. simpl. reflexivity. Qed.

Lemma preserves_bind {A B} (m : M A) (f : A → M B) :
  preserves R m → (∀ a, preserves R (f a)) → preserves R (m ≫= f).
Proof.
  intros Hm Hf st. specialize (Hm st). unfold final, mbind, M_bind in *.
  destruct (m st) as [[a|e] st1]; simpl in *; [|done].
  etrans; [exact Hm|]. apply Hf.
Qed.

Lemma preserves_fmap {A B} (m : M A) (f : A → B) :
  preserves R m → preserves R (f <$> m).
Proof.
  intros Hm st. specialize (Hm st). unfold final, fmap, M_fmap in *.
  by destruct (m st) as [[a|e] st1].
Qed.

Lemma preserves_same {A} (m : M A) :
  (∀ st, final (m st) = st) → preserves R m.
Proof. intros H st. rewrite H. reflexivity. Qed.

End Preserves.

Lemma getattr_final param name st : final (getattr param name st) = st.
Proof.
  unfold getattr, final. destruct param as [l|?]; [|done].
  destruct (heap st !! l) as [[d|?]|]; try done. by destruct (d !! name).
Qed.

Lemma not_in_keys_final param name st : final (not_in_keys name param st) = st.
Proof.
  unfold not_in_keys, final. destruct param as [l|?]; [|done].
  by destruct (heap st !! l) as [[d|?]|].
Qed.

Lemma format_param_final text param st : final (format_param text param st) = st.
Proof.
  unfold format_param, final. destruct param as [l|?]; [|done].
  by destruct (heap st !! l) as [[d|?]|].
Qed.

Lemma list_read_final cid st : final (list_read cid st) = st.
Proof. unfold list_read, final. by destruct (heap st !! cid) as [[d|?]|]. Qed.

Lemma list_get_final cid i st : final (list_get cid i st) = st.
Proof.
  unfold list_get, final, mbind, M_bind.
  pose proof (list_read_final cid st) as H. unfold final in H.
  destruct (list_read cid st) as [[l|e] st1]; simpl in *; by subst.
Qed.

Lemma final_bind {A B} (m : M A) (f : A → M B) :
  (∀ st, final (m st) = st) → (∀ a st, final (f a st) = st) →
  ∀ st, final ((m ≫= f) st) = st.
Proof.
  intros Hm Hf st. specialize (Hm st). unfold final, mbind, M_bind in *.
  destruct (m st) as [[a|e] st1]; simpl in *; subst; [apply Hf|done].
Qed.

Lemma final_fmap {A B} (m : M A) (f : A → B) :
  (∀ st, final (m st) = st) → ∀ st, final ((f <$> m) st) = st.
Proof.
  intros Hm st. specialize (Hm st). unfold final, fmap, M_fmap in *.
  by destruct (m st) as [[a|e] st1].
Qed.

Lemma entries_kept_refl d : entries_kept d d.
Proof. intros name v H. split; [done|]. by exists v. Qed.

Lemma entries_kept_trans d1 d2 d3 :
  entries_kept d1 d2 → entries_kept d2 d3 → entries_kept d1 d3.
Proof.
  intros H12 H23 name v Hv. destruct (H12 name v Hv) as [Hk [w Hw]].
  destruct (H23 name w Hw) as [Hk' Hs]. split; [|done].
  intros Hne. specialize (Hk Hne). rewrite Hk in Hw. injection Hw as <-. by apply Hk'.
Qed.

Global Instance touches_only_preorder param cid : PreOrder (touches_only param cid).
Proof.
  split.
  - intros st. split_and!.
    + intros q d Hd. exists d. split_and!; [done|apply entries_kept_refl|done].
    + intros c l Hl. exists l. by split_and!.
    + exists []. by rewrite app_nil_r.
  - intros s1 s2 s3 (Hp1 & Hl1 & [o1 Ho1]) (Hp2 & Hl2 & [o2 Ho2]). split_and!.
    + intros q d Hd. destruct (Hp1 q d Hd) as (d' & Hd' & Hk & He).
      destruct (Hp2 q d' Hd') as (d'' & Hd'' & Hk' & He').
      exists d''. split_and!; [done|by eapply entries_kept_trans|].
      intros Hn. by rewrite He', He.
    + intros c l Hl. destruct (Hl1 c l Hl) as (l' & Hl' & Hn & He).
      destruct (Hl2 c l' Hl') as (l'' & Hl'' & Hn' & He').
      exists l''. split_and!; [done|congruence|].
      intros Hc. by rewrite He', He.
    + exists (o1 ++ o2). by rewrite Ho2, Ho1, app_assoc.
Qed.

Global Instance silent_preorder : PreOrder silent.
Proof. split; [done|]. intros a b c. unfold silent. congruence. Qed.

Lemma py_store_length {A} (l l' : list A) i x : py_store l i x = Ok l' → length l' = length l.
Proof.
  unfold py_store. destruct (_ && _); [|discriminate]. intros [= <-].
  by rewrite length_insert.
Qed.

Lemma setattr_touches p name v cid st d :
  param_of st p = Some d →
  (∀ w, d !! name = Some w → py_eq w (VInt (-1)) = true) →
  touches_only (Ref p) cid st (final (setattr (Ref p) name v st)).
Proof.
  intros Hd Hw. unfold setattr, final. unfold param_of in Hd.
  destruct (heap st !! p) as [[d0|?]|] eqn:E; try discriminate. injection Hd as ->.
  simpl. split_and!.
  - intros q dq Hq. unfold param_of in *. simpl. destruct (decide (q = p)) as [->|Hne].
    + rewrite list_lookup_insert_eq by (by eapply lookup_lt_Some).
      rewrite E in Hq. injection Hq as <-. eexists; split_and!; [done| |done].
      intros n w Hn. destruct (decide (n = name)) as [->|Hnn].
      * rewrite lookup_insert_eq. split; [|by eexists].
        intros Hf. rewrite (Hw w Hn) in Hf. discriminate.
      * rewrite lookup_insert_ne by done. split; [done|by eexists].
    + rewrite list_lookup_insert_ne by done. exists dq.
      split_and!; [done|apply entries_kept_refl|done].
  - intros c l Hl. unfold dims_of in *. simpl. exists l. split_and!; try done.
    destruct (decide (c = p)) as [->|Hne].
    + rewrite E in Hl. discriminate.
    + by rewrite list_lookup_insert_ne.
  - exists []. by rewrite app_nil_r.
Qed.

Lemma fill_if_minus_one_touches param name (v : M value) cid :
  (∀ st, final (v st) = st) →
  preserves (touches_only param cid) (fill_if_minus_one param name v).
Proof.
  intros Hv st. unfold fill_if_minus_one, final, mbind, M_bind.
  pose proof (getattr_final param name st) as Hf. unfold final in Hf.
  destruct (getattr param name st) as [[cur|e] st1] eqn:Eg; simpl in *; subst st1;
    [|reflexivity].
  apply getattr_Ok in Eg as (_ & p & d & -> & Hd & Hc).
  destruct (py_eq cur (VInt (-1))) eqn:Ec; [|simpl; reflexivity].
  specialize (Hv st). unfold final in Hv.
  destruct (v st) as [[x|e] st1]; simpl in *; subst st1; [|reflexivity].
  apply (setattr_touches p name x cid st d Hd). intros w Hw. congruence.
Qed.

Lemma default_if_absent_touches param name (v : M value) cid :
  (∀ st, final (v st) = st) →
  preserves (touches_only param cid) (default_if_absent param name v).
Proof.
  intros Hv st. unfold default_if_absent, final, mbind, M_bind.
  pose proof (not_in_keys_final param name st) as Hf. unfold final in Hf.
  destruct (not_in_keys name param st) as [[b|e] st1] eqn:Eg; simpl in *; subst st1;
    [|reflexivity].
  apply not_in_keys_Ok in Eg as (_ & p & d & -> & Hd & ->).
  case_bool_decide as Hn; [|simpl; reflexivity].
  specialize (Hv st). unfold final in Hv.
  destruct (v st) as [[x|e] st1]; simpl in *; subst st1; [|reflexivity].
  apply (setattr_touches p name x cid st d Hd). intros w Hw. congruence.
Qed.

Lemma list_set_touches param cid i x :
  preserves (touches_only param cid) (list_set cid i x).
Proof.
  intros st. unfold list_set, final.
  destruct (heap st !! cid) as [[d|l]|] eqn:E; simpl; try reflexivity.
  destruct (py_store l i x) as [l'|e] eqn:Es; simpl; [|reflexivity].
  split_and!.
  - intros q dq Hq. exists dq. split_and!; [|apply entries_kept_refl|done].
    unfold param_of in *. simpl. destruct (decide (q = cid)) as [->|Hne].
    + rewrite E in Hq. discriminate.
    + by rewrite list_lookup_insert_ne.
  - intros c lc Hc. unfold dims_of in *. simpl. destruct (decide (c = cid)) as [->|Hne].
    + rewrite list_lookup_insert_eq by (by eapply lookup_lt_Some).
      rewrite E in Hc. injection Hc as <-. exists l'.
      split_and!; [done|by eapply py_store_length|done].
    + rewrite list_lookup_insert_ne by done. exists lc. by split_and!.
  - exists []. by rewrite app_nil_r.
Qed.

Lemma list_new_touches param cid l :
  preserves (touches_only param cid) (list_new l).
Proof.
  intros st. unfold list_new, final. simpl. split_and!.
  - intros q dq Hq. exists dq. split_and!; [|apply entries_kept_refl|done].
    unfold param_of in *. simpl.
    destruct (heap st !! q) eqn:E; [|discriminate].
    by rewrite (lookup_app_l_Some _ _ _ _ E).
  - intros c lc Hc. exists lc. split_and!; try done.
    unfold dims_of in *. simpl.
    destruct (heap st !! c) eqn:E; [|discriminate].
    by rewrite (lookup_app_l_Some _ _ _ _ E).
  - exists []. by rewrite app_nil_r.
Qed.

Lemma print_touches param cid x : preserves (touches_only param cid) (print x).
Proof.
  intros st. unfold print, final. simpl. split_and!.
  - intros q dq Hq. exists dq. split_and!; [done|apply entries_kept_refl|done].
  - intros c lc Hc. exists lc. by split_and!.
  - by exists [x].
Qed.

(** One step of a proof that a branch keeps a relation. *)
Ltac keeps_step :=
  match goal with
  | |- preserves _ (mbind _ _) => apply preserves_bind; [tc_solve| |intros ?]
  | |- preserves _ (fmap _ _) => apply preserves_fmap
  | |- preserves _ (mret _) => apply preserves_ret; tc_solve
  | |- preserves _ (lift _) => apply preserves_lift; tc_solve
  | |- preserves _ (raise _) => apply preserves_raise; tc_solve
  | |- preserves _ (getattr _ _) => apply preserves_same; [tc_solve|apply getattr_final]
  | |- preserves _ (not_in_keys _ _) => apply preserves_same; [tc_solve|apply not_in_keys_final]
  | |- preserves _ (format_param _ _) => apply preserves_same; [tc_solve|apply format_param_final]
  | |- preserves _ (list_read _) => apply preserves_same; [tc_solve|apply list_read_final]
  | |- preserves _ (list_get _ _) => apply preserves_same; [tc_solve|apply list_get_final]
  | |- preserves _ (if ?b then _ else _) => destruct b
  | |- preserves _ (match ?x with _ => _ end) => destruct x
  | |- preserves _ (store_attr _ _ _ _) => unfold store_attr
  | |- preserves _ (store_next_size _ _ _ _) => unfold store_next_size
  | |- preserves _ (int_attr _ _) => unfold int_attr
  | |- preserves _ (item_attr _ _ _) => unfold item_attr
  | |- ∀ st, final (mbind _ _ st) = st => apply final_bind; [|intros ?]
  | |- ∀ st, final (fmap _ _ st) = st => apply final_fmap
  | |- ∀ st, final (list_get _ _ st) = st => apply list_get_final
  | |- ∀ st, final (list_read _ st) = st => apply list_read_final
  | |- ∀ st, final (getattr _ _ st) = st => apply getattr_final
  | |- ∀ st, final (mret _ st) = st => done
  end.

Ltac touches_step :=
  first
  [ keeps_step
  | apply fill_if_minus_one_touches
  | apply default_if_absent_touches
  | apply list_set_touches
  | apply list_new_touches
  | apply print_touches ].

Lemma branches_touch_only param cid :
  Forall (λ b : pyarg → loc → M (option module * loc),
            preserves (touches_only param cid) (b param cid))
    [branch_LayerNorm; branch_BatchNorm1d; branch_BatchNorm1dT; branch_BatchNorm2d;
     branch_SincNet; branch_Conv1d; branch_Conv1dTCN; branch_Conv2d; branch_Conv2dDS;
     branch_Conv2dRes; branch_Conv2dNext; branch_ConvTranspose2d; branch_MaxPool1d;
     branch_MaxPool2d; branch_Linear; branch_Activation; branch_Dropout;
     branch_Flatten; branch_Squeeze; branch_Permute; branch_Mean; branch_Max;
     branch_AutoPoolWeight; branch_AutoPoolWeightSplit; branch_SoftmaxWeight;
     branch_AbsLayer; branch_DoubleChannel].
Proof.
  repeat (apply Forall_cons_2; [cbv beta|]); [..|apply Forall_nil_2].
  all: match goal with |- preserves _ (?b _ _) => unfold b end.
  all: repeat touches_step.
Qed.

Lemma body_touches_only module_type param cid :
  preserves (touches_only param cid) (f_parse_component_body module_type param cid).
Proof.
  pose proof (branches_touch_only param cid) as HB.
  repeat match type of HB with
         | Forall _ (_ :: _) => apply Forall_cons in HB as [? HB]
         end.
  unfold f_parse_component_body.
  repeat match goal with
         | |- preserves _ (if ?b then _ else _) => destruct b; [assumption|]
         end.
  unfold branch_unknown. repeat touches_step.
Qed.

(** X2.  Whatever the outcome of a call of [f_parse_component], the
    store it leaves differs from the one it found only in entries of [param]
    that were absent or held [-1], in the values of the entries of the list
    [current_input_dim] (whose length is kept), in objects that are new, and
    in lines added to the output. *)
Theorem factory_touches_only module_type param cid st :
  touches_only param cid st (final (f_parse_component module_type param cid st)).
Proof.
  revert st. change (preserves (touches_only param cid)
                       (f_parse_component module_type param cid)).
  unfold f_parse_component. apply preserves_bind; [tc_solve|apply body_touches_only|].
  intros [[m|] c]; repeat touches_step.
Qed.

Ltac silent_step :=
  first
  [ keeps_step
  | match goal with
    | |- preserves _ (fill_if_minus_one _ _ _) => unfold fill_if_minus_one
    | |- preserves _ (default_if_absent _ _ _) => unfold default_if_absent
    | |- preserves silent (setattr ?p ?n ?v) =>
        let st := fresh "st" in
        intros st; unfold setattr, final, silent;
        destruct p as [?l|?]; [|done];
        destruct (heap st !! l) as [[?|?]|]; done
    | |- preserves silent (list_set ?c ?i ?x) =>
        let st := fresh "st" in
        intros st; unfold list_set, final, silent;
        destruct (heap st !! c) as [[?|?l]|]; try done;
        destruct (py_store l i x); done
    | |- preserves silent (list_new _) => done
    end ].

Lemma branches_silent param cid :
  Forall (λ b : pyarg → loc → M (option module * loc),
            preserves silent (b param cid))
    [branch_LayerNorm; branch_BatchNorm1d; branch_BatchNorm1dT; branch_BatchNorm2d;
     branch_SincNet; branch_Conv1d; branch_Conv1dTCN; branch_Conv2d; branch_Conv2dDS;
     branch_ConvTranspose2d; branch_MaxPool1d;
     branch_MaxPool2d; branch_Linear; branch_Activation; branch_Dropout;
     branch_Flatten; branch_Squeeze; branch_Permute; branch_Mean; branch_Max;
     branch_AutoPoolWeight; branch_AutoPoolWeightSplit; branch_SoftmaxWeight;
     branch_AbsLayer; branch_DoubleChannel].
Proof.
  repeat (apply Forall_cons_2; [cbv beta|]); [..|apply Forall_nil_2].
  all: match goal with |- preserves _ (?b _ _) => unfold b end.
  all: repeat silent_step.
Qed.

(** X3.  A call with a supported tag other than ['Conv2dRes'] and
    ['Conv2dNext'] writes nothing to the output, whether it returns or
    raises. *)
Theorem factory_prints_only_warnings module_type param cid st :
  module_type ∈ supported_types → module_type ∉ warning_types →
  stdout (final (f_parse_component module_type param cid st)) = stdout st.
Proof.
  intros Hin Hn. revert st.
  change (preserves silent (f_parse_component module_type param cid)).
  unfold f_parse_component. apply preserves_bind; [tc_solve| |].
  - pose proof (branches_silent param cid) as HB.
    repeat match type of HB with
           | Forall _ (_ :: _) => apply Forall_cons in HB as [? HB]
           end.
    apply list_elem_of_In in Hin. simpl in Hin.
    repeat (destruct Hin as [<-|Hin]; [first [assumption | exfalso; apply Hn; apply list_elem_of_In; simpl; tauto]|]).
    done.
  - intros [[m|] c]; repeat silent_step.
Qed.

Lemma factory_prints_only_warnings_witness :
  let st := mkState [ODict (list_to_map [("in_features", VInt (-1)); ("out_features", VInt 10)]);
                     OList [4; 128]] [Line "built"] in
  stdout (final (f_parse_component "Linear" (Ref 0%nat) 1%nat st)) = stdout st.
Proof.
  intros st. apply (factory_prints_only_warnings "Linear" (Ref 0%nat) 1%nat st).
  - apply list_elem_of_In. simpl. tauto.
  - intros H%list_elem_of_In. simpl in H. intuition discriminate.
Defined.

(** ** The branches that bind a new list *)

Lemma dims_of_fresh st : dims_of st (length (heap st)) = None.
Proof. unfold dims_of. by rewrite lookup_ge_None_2. Qed.

(** X4.  The branches ['Flatten'], ['Squeeze'] and ['Permute'], and
    ['Mean'] and ['Max'] when [keepdim] is [False] or absent, leave the list
    they were given as it was and return a list that did not exist before:
    [[d0, d1 * d2]], the entries greater than 1, the entries picked by
    [param.shape], and [[d0, d1]]; with another [keepdim], ['Mean'] and
    ['Max'] return the list they were given. *)
Theorem rebinding_leaves_the_list module_type p cid st m cid' st' d l :
  module_type ∈ rebinding_types →
  f_parse_component module_type (Ref p) cid st = (Ok (m, cid'), st') →
  param_of st p = Some d → dims_of st cid = Some l →
  dims_of st' cid = Some l ∧
  if rebinds module_type d
  then dims_of st cid' = None ∧
       ∃ l', rebound module_type d l = Ok l' ∧ dims_of st' cid' = Some l'
  else cid' = cid.
Proof.
  intros Hin H Hd Hl. apply list_elem_of_In in Hin. simpl in Hin.
  repeat (destruct Hin as [<-|Hin]; [run_branch H|]); try done.
  all: unfold rebinds, rebound; simpl.
  all: repeat match goal with
       | H : bool_decide _ = _ |- _ => apply bool_decide_eq_true in H || apply bool_decide_eq_false in H
       end.
  all: simplify_map_eq.
  all: try match goal with
       | H : ∀ c, c ≠ length (heap ?s) → dims_of ?s' c = dims_of _ c |- _ =>
           pose proof (dims_of_fresh s) as Hfresh; mframes
       end.
  all: repeat match goal with
       | H : py_index _ _ = Ok _ |- _ => rewrite H; clear H
       | H : ?d !! _ = _ |- context [?d !! _] => rewrite H
       end; simpl.
  all: repeat match goal with
       | H : is_False ?v = _ |- context [is_False ?v] => rewrite H
       | H : match ?a with VList _ => _ | _ => _ end = Ok _ |- _ =>
           destruct a; try discriminate H
       end.
  all: try (split; [done|done]).
  all: match goal with
       | Hf : dims_of ?s (length (heap ?s1)) = None, Hl : dims_of ?s ?c = Some _,
         Hk : ∀ c', c' ≠ length (heap ?s1) → _ |- _ =>
           assert (c ≠ length (heap s1)) by (intros ->; congruence);
           rewrite (Hk c) by done
       end.
  all: mframes.
  all: eauto 10.
Qed.

Lemma rebinding_leaves_the_list_witness :
  dims_of (mkState [ODict (list_to_map [("start_dim", VInt 1)]); OList [2; 3; 4];
                    OList [2; 12]] []) 1%nat = Some [2; 3; 4] ∧
  if rebinds "Flatten" (list_to_map [("start_dim", VInt 1)])
  then dims_of (mkState [ODict (list_to_map [("start_dim", VInt 1)]); OList [2; 3; 4]] [])
         2%nat = None ∧
       ∃ l', rebound "Flatten" (list_to_map [("start_dim", VInt 1)]) [2; 3; 4] = Ok l' ∧
             dims_of (mkState [ODict (list_to_map [("start_dim", VInt 1)]); OList [2; 3; 4];
                               OList [2; 12]] []) 2%nat = Some l'
  else 2%nat = 1%nat.
Proof.
  apply (rebinding_leaves_the_list "Flatten" 0%nat 1%nat
           (mkState [ODict (list_to_map [("start_dim", VInt 1)]); OList [2; 3; 4]] [])
           (nn_Flatten (VInt 1)) 2%nat).
  - apply list_elem_of_In. simpl. tauto.
  - vm_compute. reflexivity.
  - reflexivity.
  - reflexivity.
Defined.

(** ** The warnings of the residual branches *)










(** ** The shape recorded and the shape produced, branch by branch *)

(** [int(np.floor(a / b))] is the integer quotient below [2^50]. *)
Lemma int_floor_div_small a b :
  - 2 ^ 50 < a < 2 ^ 50 → 0 < b < 2 ^ 50 → int_floor_div a b = Ok (a / b).
Proof.
  intros Ha Hb. unfold int_floor_div, B64.truediv.
  destruct (Z.eqb_spec b 0); [lia|]. destruct (Z.ltb_spec b 0); [lia|].
  pose proof pow2_52 as E52. pose proof pow2_50 as E50. rewrite E50 in *.
  destruct (decide (a = 0)) as [Ha0|Ha0].
  { rewrite Ha0. change (B64.round 0 b) with (Ok (B64.mk 0 0)).
    rewrite Z.div_0_l by lia. reflexivity. }
  rewrite round_small by (try done; lia).
  cbn [mbind pyres_bind].
  pose proof (ulp_exp_neg a b Ha0 ltac:(lia) ltac:(lia)) as Hneg1.
  pose proof (ulp_exp_ge_emin a b) as Hmin1.
  set (ex1 := B64.ulp_exp a b) in *.
  pose proof (pow2_emin_large ex1 Hmin1 Hneg1) as [HP1 HP1'].
  assert (4 * b < 2 ^ (- ex1)) as H4s.
  { destruct (decide (ex1 = B64.emin)) as [->|Hn].
    - change (- B64.emin) with 1074. pose proof pow2_1074_large. lia.
    - pose proof (ulp_exp_normal a b Ha0 ltac:(lia) Hneg1 Hn) as Hn1.
      fold ex1 in Hn1. nia. }
  set (P1 := 2 ^ (- ex1)) in *.
  set (q := a / b).
  assert (q * b ≤ a ∧ a ≤ (q + 1) * b - 1) as [Hq1 Hq2].
  { pose proof (Z.div_mod a b ltac:(lia)). pose proof (Z.mod_pos_bound a b ltac:(lia)).
    fold q in H. nia. }
  pose proof (rne_div_ge (q * P1) (a * P1) b ltac:(lia) ltac:(nia)) as Hm1.
  pose proof (rne_div_err (a * P1) b ltac:(lia)) as Hm3.
  set (m1 := B64.rne_div (a * P1) b) in *.
  assert (P1 ≤ 2 * b * ((q + 1) * P1 - m1)) as HD by nia.
  assert (1 ≤ (q + 1) * P1 - m1) as HD1 by nia.
  unfold B64.floor. cbn [B64.expo B64.mant].
  destruct (Z.leb_spec 0 ex1); [lia|]. fold P1.
  f_equal. symmetry. apply Z.div_unique with (r := m1 - q * P1).
  - left. clear - Hm1 HD1. lia.
  - ring.
Qed.

Lemma window_out_Ok L k s p d r :
  Shape.window_out L k s p d = Ok r →
  0 < k ∧ 0 < s ∧ 0 ≤ p ∧ 0 < d ∧ 0 < L ∧ d * (k - 1) + 1 ≤ L + 2 * p ∧
  r = (L + 2 * p - d * (k - 1) - 1) / s + 1.
Proof.
  unfold Shape.window_out.
  destruct (Z.ltb_spec 0 k); [|discriminate].
  destruct (Z.ltb_spec 0 s); [|discriminate].
  destruct (Z.leb_spec 0 p); [|discriminate].
  destruct (Z.ltb_spec 0 d); [|discriminate].
  destruct (Z.leb_spec 0 L); [|discriminate]. simpl.
  destruct (Z.ltb_spec (L + 2 * p) (d * (k - 1) + 1)); [discriminate|].
  destruct (Z.eqb_spec L 0); [discriminate|].
  intros [= <-]. split_and!; try done; lia.
Qed.

Lemma channels_fit_Ok c e u : Shape.channels_fit c e = Ok u → 0 < e ∧ c = e.
Proof.
  unfold Shape.channels_fit. destruct (Z.ltb_spec 0 e); [|discriminate].
  destruct (Z.eqb_spec c e); [done|discriminate].
Qed.

Lemma pyres_bind_Ok {A B} (m : pyres A) (f : A → pyres B) b :
  m ≫= f = Ok b → ∃ a, m = Ok a ∧ f a = Ok b.
Proof. destruct m as [a|e]; [eauto|discriminate]. Qed.

(** Inversion of a shape computation that returned. *)
Ltac sinv_step :=
  match goal with
  | H : mbind _ _ = Ok _ |- _ =>
      let a := fresh "a" in let E := fresh "E" in
      apply pyres_bind_Ok in H as (a & E & H); cbv beta zeta in H
  | H : (let '(_, _) := ?x in _) = Ok _ |- _ => destruct x
  | H : Shape.window_out _ _ _ _ _ = Ok _ |- _ =>
      apply window_out_Ok in H as (? & ? & ? & ? & ? & ? & ?)
  | H : Shape.channels_fit _ _ = Ok _ |- _ => apply channels_fit_Ok in H as [? ?]
  | H : Raise _ = Ok _ |- _ => discriminate H
  | H : Ok _ = Ok _ |- _ => injection H as H
  | H : as_int (VInt _) = Ok _ |- _ => injection H as H
  end; subst.

Ltac sinv := repeat sinv_step.

(** The lists of the statements have a known length. *)
Ltac concrete_lists :=
  repeat match goal with
  | H : as_int (VInt _) = Ok _ |- _ => injection H as <-
  | H : py_getitem (VList [_; _]) _ = Ok _ |- _ => injection H as <-
  | H : py_store [_; _] _ _ = Ok _ |- _ => injection H as <-
  | H : py_index [_; _] _ = Ok _ |- _ => injection H as <-
  | H : py_store [_; _; _] _ _ = Ok _ |- _ => injection H as <-
  | H : py_index [_; _; _] _ = Ok _ |- _ => injection H as <-
  | H : py_store [_; _; _; _] _ _ = Ok _ |- _ => injection H as <-
  | H : py_index [_; _; _; _] _ = Ok _ |- _ => injection H as <-
  end.

Lemma Conv1d_fits cin cout k s B C L r :
  forward (nn_Conv1d cin cout k s (VInt 0) (VInt 1)) [B; C; L] = Ok r →
  ∃ o k' s', cin = VInt C ∧ cout = VInt o ∧ k = VInt k' ∧ s = VInt s' ∧
    0 < C ∧ 0 < o ∧ 0 < k' ≤ L ∧ 0 < s' ∧ r = [B; o; (L - k') / s' + 1].
Proof.
  cbn [forward nn_forward Shape.torch Shape.nn_shape].
  destruct cin as [| | ci | | |]; try discriminate.
  destruct cout as [| | co | | |]; try discriminate.
  destruct k as [| | k | | |]; try discriminate.
  destruct s as [| | s | | |]; try discriminate.
  intros H. sinv. eexists _, _, _. split_and!; try done; try lia.
  do 3 f_equal. f_equal. f_equal. lia.
Qed.

(** X6.  ['Conv1d'] records the shape its module produces: when the
    call returns on a list [[B, C, L]] with [L] and the stride below [2^50]
    and the module accepts an input of that shape, the list returned holds
    the shape of the module's output. *)
Theorem Conv1d_shape_sound p cid st m cid' st' B C L s r :
  f_parse_component "Conv1d" (Ref p) cid st = (Ok (m, cid'), st') →
  dims_of st cid = Some [B; C; L] → L < 2 ^ 50 →
  attr_of st p "stride" = Some (VInt s) → s < 2 ^ 50 →
  forward m [B; C; L] = Ok r →
  dims_of st' cid' = Some r.
Proof.
  intros H Hl HL Hs Hsb Hf. run_branch H.
  all: apply Conv1d_fits in Hf as (o & k' & s' & ? & ? & ? & ? & ? & ? & ? & ? & ->).
  all: simplify_map_eq.
  all: repeat match goal with
       | H : as_int (VInt _) = Ok _ |- _ => injection H as <-
       | H : py_store [_; _; _] _ _ = Ok _ |- _ => injection H as <-
       | H : py_index [_; _; _] _ = Ok _ |- _ => injection H as <-
       end.
  all: match goal with H : f_get_next_size _ _ _ = Ok _ |- _ =>
         rewrite f_get_next_size_small in H by lia; injection H as <- end.
  all: done.
Qed.

Lemma Conv1d_shape_sound_witness :
  let st := mkState [ODict (list_to_map
                       [("in_channels", VInt (-1)); ("out_channels", VInt 16);
                        ("kernel_size", VInt 3); ("stride", VInt 2)]);
                     OList [4; 1; 100]] [] in
  dims_of (final (f_parse_component "Conv1d" (Ref 0%nat) 1%nat st)) 1%nat = Some [4; 16; 49].
Proof.
  intros st.
  apply (Conv1d_shape_sound 0%nat 1%nat st
           (nn_Conv1d (VInt 1) (VInt 16) (VInt 3) (VInt 2) (VInt 0) (VInt 1)) 1%nat
           (final (f_parse_component "Conv1d" (Ref 0%nat) 1%nat st)) 4 1 100 2 [4; 16; 49]).
  - vm_compute. reflexivity.
  - reflexivity.
  - reflexivity.
  - reflexivity.
  - reflexivity.
  - vm_compute. reflexivity.
Defined.

Lemma Conv1d_rejects cin cout k s B L :
  0 < cin → 0 < cout → 0 ≤ L < k → 0 < s →
  forward (nn_Conv1d (VInt cin) (VInt cout) (VInt k) (VInt s) (VInt 0) (VInt 1)) [B; cin; L]
    = Raise TorchError.
Proof.
  intros. cbn [forward nn_forward Shape.torch Shape.nn_shape].
  rewrite !channels_fit_same by done. cbn [mbind pyres_bind].
  unfold Shape.window_out. zbool; simpl; zbool. done.
Qed.

(** X7.  A kernel longer than the input is no error for the factory:
    the ['Conv1d'] call returns and records the length
    [floor((L - k) / s) + 1], which is zero or negative, while the module it
    built refuses an input of length [L]. *)
Theorem Conv1d_kernel_longer_than_input p cid st m cid' st' d B C L o k s :
  f_parse_component "Conv1d" (Ref p) cid st = (Ok (m, cid'), st') →
  param_of st p = Some d → dims_of st cid = Some [B; C; L] →
  d !! "in_channels" = Some (VInt C) ∨ d !! "in_channels" = Some (VInt (-1)) →
  d !! "out_channels" = Some (VInt o) →
  d !! "kernel_size" = Some (VInt k) → d !! "stride" = Some (VInt s) →
  0 < C → 0 < o → 0 ≤ L < k → k < 2 ^ 50 → 0 < s < 2 ^ 50 →
  forward m [B; C; L] = Raise TorchError ∧
  dims_of st' cid' = Some [B; o; (L - k) / s + 1] ∧ (L - k) / s + 1 ≤ 0.
Proof.
  intros H Hd Hl Hi Ho Hk Hs HC Hop HL Hkb Hsb. run_branch H.
  all: simplify_map_eq.
  all: try (destruct Hi as [Hi|Hi]; simplify_map_eq; simpl in *; try done; try lia).
  all: repeat match goal with
       | H : as_int (VInt _) = Ok _ |- _ => injection H as <-
       | H : py_store [_; _; _] _ _ = Ok _ |- _ => injection H as <-
       | H : py_index [_; _; _] _ = Ok _ |- _ => injection H as <-
       end.
  all: match goal with H : f_get_next_size _ _ _ = Ok _ |- _ =>
         rewrite f_get_next_size_small in H by lia; injection H as <- end.
  all: split_and!; [|done|].
  all: try match goal with
       | |- context [Shape.window_out ?L ?k ?s 0 1 ≫= λ _, Ok [?B; ?o; _]] =>
           exact (Conv1d_rejects C o k s B L ltac:(lia) ltac:(lia) ltac:(lia) ltac:(lia))
       end.
  all: match goal with
       | |- ?a / ?b + 1 ≤ 0 =>
           assert (a / b < 0) by (apply Z.div_lt_upper_bound; lia); lia
       end.
Qed.

Lemma Conv1d_kernel_longer_than_input_witness :
  let st := mkState [ODict (list_to_map
                       [("in_channels", VInt 1); ("out_channels", VInt 16);
                        ("kernel_size", VInt 5); ("stride", VInt 1)]);
                     OList [4; 1; 3]] [] in
  forward (nn_Conv1d (VInt 1) (VInt 16) (VInt 5) (VInt 1) (VInt 0) (VInt 1)) [4; 1; 3]
    = Raise TorchError ∧
  dims_of (final (f_parse_component "Conv1d" (Ref 0%nat) 1%nat st)) 1%nat
    = Some [4; 16; (3 - 5) / 1 + 1] ∧
  (3 - 5) / 1 + 1 ≤ 0.
Proof.
  intros st.
  apply (Conv1d_kernel_longer_than_input 0%nat 1%nat st
           (nn_Conv1d (VInt 1) (VInt 16) (VInt 5) (VInt 1) (VInt 0) (VInt 1)) 1%nat
           (final (f_parse_component "Conv1d" (Ref 0%nat) 1%nat st))
           (list_to_map [("in_channels", VInt 1); ("out_channels", VInt 16);
                         ("kernel_size", VInt 5); ("stride", VInt 1)])
           4 1 3 16 5 1).
  - vm_compute. reflexivity.
  - reflexivity.
  - reflexivity.
  - left. reflexivity.
  - reflexivity.
  - reflexivity.
  - reflexivity.
  - reflexivity.
  - reflexivity.
  - split; [discriminate | reflexivity].
  - reflexivity.
  - split; reflexivity.
Defined.

Lemma as_pair_Ok v a b :
  Shape.as_pair v = Ok (a, b) → (v = VInt a ∧ b = a) ∨ v = VList [a; b].
Proof.
  destruct v as [| | z | | |l]; try discriminate.
  - intros [= <- <-]. by left.
  - destruct l as [|x [|y [|? ?]]]; try discriminate. intros [= <- <-]. by right.
Qed.

Lemma Conv2d_fits cin cout ks st pv B C H W r :
  pv = VStr "same" ∨ pv = VStr "valid" →
  forward (nn_Conv2d cin cout ks st pv (VInt 1)) [B; C; H; W] = Ok r →
  ∃ o k0 k1 s0 s1, cin = VInt C ∧ cout = VInt o ∧
    Shape.as_pair ks = Ok (k0, k1) ∧ Shape.as_pair st = Ok (s0, s1) ∧
    0 < C ∧ 0 < o ∧ 0 < k0 ∧ 0 < k1 ∧ 0 < s0 ∧ 0 < s1 ∧ 0 < H ∧ 0 < W ∧
    if py_eq pv (VStr "same") then s0 = 1 ∧ s1 = 1 ∧ r = [B; o; H; W]
    else k0 ≤ H ∧ k1 ≤ W ∧ r = [B; o; (H - k0) / s0 + 1; (W - k1) / s1 + 1].
Proof.
  intros Hps.
  cbn [forward nn_forward Shape.torch Shape.nn_shape].
  destruct cin as [| | ci | | |]; try discriminate.
  destruct cout as [| | co | | |]; try discriminate.
  intros Hf.
  apply pyres_bind_Ok in Hf as (? & [? ->]%channels_fit_Ok & Hf).
  apply pyres_bind_Ok in Hf as (? & [? _]%channels_fit_Ok & Hf).
  apply pyres_bind_Ok in Hf as ([k0 k1] & Hk & Hf).
  apply pyres_bind_Ok in Hf as ([s0 s1] & Hs & Hf).
  destruct Hps as [-> | ->]; cbn in Hf.
  - destruct (Z.eqb_spec s0 1); [|discriminate].
    destruct (Z.eqb_spec s1 1); [|discriminate].
    destruct (Z.ltb_spec 0 k0); [|discriminate].
    destruct (Z.ltb_spec 0 k1); [|discriminate].
    destruct (Z.ltb_spec 0 H); [|discriminate].
    destruct (Z.ltb_spec 0 W); [|discriminate].
    injection Hf as <-. exists co, k0, k1, s0, s1. simpl. split_and!; try done; try lia.
  - sinv. exists co, k0, k1, s0, s1. simpl. split_and!; try done; try lia.
    do 2 f_equal. f_equal; [|f_equal]; f_equal; f_equal; lia.
Qed.

(** X8.  ['Conv2d'] records the shape its module produces when
    [padding] is absent, ['valid'] or ['same']: on a list [[B, C, H, W]]
    with sizes and strides below [2^50], a call that returns and a module
    that accepts the input agree on the output shape. *)
Theorem Conv2d_shape_sound p cid st m cid' st' B C H W r :
  f_parse_component "Conv2d" (Ref p) cid st = (Ok (m, cid'), st') →
  dims_of st cid = Some [B; C; H; W] → H < 2 ^ 50 → W < 2 ^ 50 →
  (∀ v, attr_of st p "padding" = Some v → v = VStr "same" ∨ v = VStr "valid") →
  (∀ s0 s1, attr_of st p "stride" = Some (VList [s0; s1]) → s0 < 2 ^ 50 ∧ s1 < 2 ^ 50) →
  forward m [B; C; H; W] = Ok r →
  dims_of st' cid' = Some r.
Proof.
  intros Hrun Hl HH HW Hpad Hst Hf. run_branch Hrun.
  all: match goal with
       | Hf : forward (nn_Conv2d _ _ _ _ ?pv _) _ = Ok _ |- _ =>
           assert (pv = VStr "same" ∨ pv = VStr "valid") as Hpv
             by (clear Hf; simplify_map_eq; first [by right | by eauto])
       end.
  all: apply Conv2d_fits in Hf as
         (o & k0 & k1 & s0 & s1 & ? & ? & Hk & Hs & ? & ? & ? & ? & ? & ? & ? & ? & Hr);
         [|done].
  all: simplify_map_eq.
  all: repeat match goal with
       | H : negb ?b = true |- _ => apply (proj1 (negb_true_iff b)) in H
       | H : negb ?b = false |- _ => apply (proj1 (negb_false_iff b)) in H
       end.
  all: repeat match goal with
       | H : py_eq ?a ?b = _, Hr : context [py_eq ?a ?b] |- _ => rewrite H in Hr
       end.
  all: repeat match goal with
       | H : as_int (VInt _) = Ok _ |- _ => injection H as <-
       | H : py_store [_; _; _; _] _ _ = Ok _ |- _ => injection H as <-
       | H : py_index [_; _; _; _] _ = Ok _ |- _ => injection H as <-
       end.
  all: try (destruct Hr as (_ & _ & ->); done).
  all: destruct Hr as (? & ? & ->).
  all: destruct (as_pair_Ok _ _ _ Hk) as [[-> _] | ->]; try discriminate.
  all: destruct (as_pair_Ok _ _ _ Hs) as [[-> _] | ->]; try discriminate.
  all: edestruct Hst as [? ?]; [eassumption|].
  all: repeat match goal with
       | H : py_getitem (VList [_; _]) _ = Ok _ |- _ => injection H as <-
       end.
  all: repeat match goal with H : f_get_next_size _ _ _ = Ok _ |- _ =>
         rewrite f_get_next_size_small in H by lia; injection H as <- end.
  all: repeat match goal with
       | H : py_store [_; _; _; _] _ _ = Ok _ |- _ => injection H as <-
       | H : py_index [_; _; _; _] _ = Ok _ |- _ => injection H as <-
       end.
  all: done.
Qed.

Lemma Conv2d_shape_sound_witness :
  let st := mkState [ODict (list_to_map
                       [("in_channels", VInt 1); ("out_channels", VInt 8);
                        ("kernel_size", VList [3; 3]); ("stride", VList [2; 2])]);
                     OList [4; 1; 64; 100]] [] in
  dims_of (final (f_parse_component "Conv2d" (Ref 0%nat) 1%nat st)) 1%nat
    = Some [4; 8; 31; 49].
Proof.
  intros st.
  apply (Conv2d_shape_sound 0%nat 1%nat st
           (nn_Conv2d (VInt 1) (VInt 8) (VList [3; 3]) (VList [2; 2]) (VStr "valid") (VInt 1))
           1%nat (final (f_parse_component "Conv2d" (Ref 0%nat) 1%nat st))
           4 1 64 100 [4; 8; 31; 49]).
  - vm_compute. reflexivity.
  - reflexivity.
  - reflexivity.
  - reflexivity.
  - intros v [=].
  - intros s0 s1 [= <- <-]. split; reflexivity.
  - vm_compute. reflexivity.
Defined.

Lemma div_sub_self L k : 0 < k → (L - k) / k + 1 = L / k.
Proof.
  intros Hk. replace L with ((L - k) + 1 * k) at 2 by lia.
  by rewrite Z.div_add by lia.
Qed.

Lemma MaxPool1d_fits kv sv B C L r :
  forward (nn_MaxPool1d kv sv) [B; C; L] = Ok r →
  ∃ k s, kv = VInt k ∧ sv = VInt s ∧ 0 < k ≤ L ∧ 0 < s ∧ r = [B; C; (L - k) / s + 1].
Proof.
  cbn [forward nn_forward Shape.torch Shape.nn_shape].
  destruct kv as [| | k | | |]; try discriminate.
  destruct sv as [| | s | | |]; try discriminate.
  intros H. sinv. eexists _, _. split_and!; try done; try lia.
  do 3 f_equal. f_equal. f_equal. lia.
Qed.

Lemma MaxPool2d_fits kv sv B C H W r :
  forward (nn_MaxPool2d kv sv) [B; C; H; W] = Ok r →
  ∃ k0 k1 s0 s1, Shape.as_pair kv = Ok (k0, k1) ∧ Shape.as_pair sv = Ok (s0, s1) ∧
    0 < k0 ≤ H ∧ 0 < k1 ≤ W ∧ 0 < s0 ∧ 0 < s1 ∧
    r = [B; C; (H - k0) / s0 + 1; (W - k1) / s1 + 1].
Proof.
  cbn [forward nn_forward Shape.torch Shape.nn_shape].
  intros Hf.
  apply pyres_bind_Ok in Hf as ([k0 k1] & Hk & Hf).
  apply pyres_bind_Ok in Hf as ([s0 s1] & Hs & Hf).
  sinv. exists k0, k1, s0, s1. split_and!; try done; try lia.
  do 2 f_equal. f_equal; [|f_equal]; f_equal; f_equal; lia.
Qed.

(** X9.  ['MaxPool1d'] and ['MaxPool2d'] record the shape their module
    produces when [stride] is absent or holds the value of [kernel_size]
    (sizes below [2^50]). *)
Theorem MaxPool_shape_sound :
  (∀ p cid st m cid' st' B C L r,
     f_parse_component "MaxPool1d" (Ref p) cid st = (Ok (m, cid'), st') →
     dims_of st cid = Some [B; C; L] → L < 2 ^ 50 →
     (∀ sv, attr_of st p "stride" = Some sv → attr_of st p "kernel_size" = Some sv) →
     forward m [B; C; L] = Ok r →
     dims_of st' cid' = Some r) ∧
  (∀ p cid st m cid' st' B C H W r,
     f_parse_component "MaxPool2d" (Ref p) cid st = (Ok (m, cid'), st') →
     dims_of st cid = Some [B; C; H; W] → H < 2 ^ 50 → W < 2 ^ 50 →
     (∀ sv, attr_of st p "stride" = Some sv → attr_of st p "kernel_size" = Some sv) →
     forward m [B; C; H; W] = Ok r →
     dims_of st' cid' = Some r).
Proof.
  split.
  - intros p cid st m cid' st' B C L r Hrun Hl HL Hst Hf. run_branch Hrun.
    all: apply MaxPool1d_fits in Hf as (k & s & -> & -> & ? & ? & ->).
    all: simplify_map_eq.
    all: try match goal with
         | Hs : ?d !! "stride" = Some _, Hc : ∀ sv, ?d !! "stride" = Some sv → _ |- _ =>
             specialize (Hc _ Hs); simplify_eq
         end.
    all: repeat match goal with
         | H : as_int (VInt _) = Ok _ |- _ => injection H as <-
         | H : py_store [_; _; _] _ _ = Ok _ |- _ => injection H as <-
         | H : py_index [_; _; _] _ = Ok _ |- _ => injection H as <-
         end.
    all: match goal with H : int_floor_div _ _ = Ok _ |- _ =>
           rewrite int_floor_div_small in H by lia; injection H as <- end.
    all: by rewrite div_sub_self by lia.
  - intros p cid st m cid' st' B C H W r Hrun Hl HH HW Hst Hf. run_branch Hrun.
    all: apply MaxPool2d_fits in Hf as (k0 & k1 & s0 & s1 & Hk & Hs & ? & ? & ? & ? & ->).
    all: simplify_map_eq.
    all: try match goal with
         | Hs : ?d !! "stride" = Some _, Hc : ∀ sv, ?d !! "stride" = Some sv → _ |- _ =>
             specialize (Hc _ Hs); simplify_eq
         end.
    all: destruct (as_pair_Ok _ _ _ Hk) as [[-> _] | ->]; try discriminate.
    all: injection Hs as <- <-.
    all: repeat match goal with
         | H : py_getitem (VList [_; _]) _ = Ok _ |- _ => injection H as <-
         | H : py_store [_; _; _; _] _ _ = Ok _ |- _ => injection H as <-
         | H : py_index [_; _; _; _] _ = Ok _ |- _ => injection H as <-
         end.
    all: repeat match goal with H : int_floor_div _ _ = Ok _ |- _ =>
           rewrite int_floor_div_small in H by lia; injection H as <- end.
    all: repeat match goal with
         | H : py_store [_; _; _; _] _ _ = Ok _ |- _ => injection H as <-
         | H : py_index [_; _; _; _] _ = Ok _ |- _ => injection H as <-
         end.
    all: by rewrite !div_sub_self by lia.
Qed.

Lemma MaxPool_shape_sound_witness :
  let st := mkState [ODict (list_to_map [("kernel_size", VInt 4)]); OList [4; 16; 49]] [] in
  dims_of (final (f_parse_component "MaxPool1d" (Ref 0%nat) 1%nat st)) 1%nat
    = Some [4; 16; 12].
Proof.
  intros st.
  apply (proj1 MaxPool_shape_sound 0%nat 1%nat st (nn_MaxPool1d (VInt 4) (VInt 4)) 1%nat
           (final (f_parse_component "MaxPool1d" (Ref 0%nat) 1%nat st)) 4 16 49 [4; 16; 12]).
  - vm_compute. reflexivity.
  - reflexivity.
  - reflexivity.
  - intros sv [=].
  - vm_compute. reflexivity.
Defined.

Lemma ConvTranspose2d_fits cin cout kv sv B C H W r :
  forward (nn_ConvTranspose2d cin cout kv sv) [B; C; H; W] = Ok r →
  ∃ o k0 k1 s0 s1, cin = VInt C ∧ cout = VInt o ∧
    Shape.as_pair kv = Ok (k0, k1) ∧ Shape.as_pair sv = Ok (s0, s1) ∧
    0 < s0 ∧ 0 < s1 ∧
    r = [B; o; (H - 1) * s0 + k0; (W - 1) * s1 + k1].
Proof.
  cbn [forward nn_forward Shape.torch Shape.nn_shape].
  destruct cin as [| | ci | | |]; try discriminate.
  destruct cout as [| | co | | |]; try discriminate.
  intros Hf.
  apply pyres_bind_Ok in Hf as (? & [? ->]%channels_fit_Ok & Hf).
  apply pyres_bind_Ok in Hf as (? & [? _]%channels_fit_Ok & Hf).
  apply pyres_bind_Ok in Hf as ([k0 k1] & Hk & Hf).
  apply pyres_bind_Ok in Hf as ([s0 s1] & Hs & Hf).
  apply pyres_bind_Ok in Hf as (H' & HH & Hf).
  apply pyres_bind_Ok in Hf as (W' & HW & [= <-]).
  unfold Shape.transposed_out in *.
  destruct (Z.ltb_spec 0 k0); [|discriminate].
  destruct (Z.ltb_spec 0 s0); [|discriminate].
  destruct (Z.ltb_spec 0 H); [|discriminate].
  destruct (Z.ltb_spec 0 k1); [|discriminate].
  destruct (Z.ltb_spec 0 s1); [|discriminate].
  destruct (Z.ltb_spec 0 W); [|discriminate].
  simpl in *. injection HH as <-. injection HW as <-.
  exists co, k0, k1, s0, s1. by split_and!.
Qed.

(** X10.  ['ConvTranspose2d'] records [H * stride[0]] and
    [W * stride[1]], the module produces [(H - 1) * stride[0] + k0] and
    [(W - 1) * stride[1] + k1]: the list returned is the shape of the
    module's output exactly when the kernel sizes are the strides. *)
Theorem ConvTranspose2d_shape p cid st m cid' st' B C H W r :
  f_parse_component "ConvTranspose2d" (Ref p) cid st = (Ok (m, cid'), st') →
  dims_of st cid = Some [B; C; H; W] →
  forward m [B; C; H; W] = Ok r →
  ∃ kv o k0 k1 s0 s1,
    attr_of st p "kernel_size" = Some kv ∧ Shape.as_pair kv = Ok (k0, k1) ∧
    attr_of st p "stride" = Some (VList [s0; s1]) ∧
    dims_of st' cid' = Some [B; o; H * s0; W * s1] ∧
    r = [B; o; (H - 1) * s0 + k0; (W - 1) * s1 + k1] ∧
    (dims_of st' cid' = Some r ↔ k0 = s0 ∧ k1 = s1).
Proof.
  intros Hrun Hl Hf. run_branch Hrun.
  all: apply ConvTranspose2d_fits in Hf as
         (o & k0 & k1 & s0 & s1 & ? & ? & Hk & Hs & ? & ? & ->).
  all: simplify_map_eq.
  all: destruct (as_pair_Ok _ _ _ Hs) as [[-> _] | ->]; try discriminate.
  all: repeat match goal with
       | H : as_int (VInt _) = Ok _ |- _ => injection H as <-
       | H : py_getitem (VList [_; _]) _ = Ok _ |- _ => injection H as <-
       | H : py_store [_; _; _; _] _ _ = Ok _ |- _ => injection H as <-
       | H : py_index [_; _; _; _] _ = Ok _ |- _ => injection H as <-
       end.
  all: match goal with H : dims_of _ _ = Some [_; _; _; _] |- _ => rewrite H end.
  all: eexists _, _, k0, k1, s0, s1; split_and!; try done.
  all: split; [intros [= ? ?]; lia | intros [-> ->]; repeat f_equal; lia].
Qed.

Lemma ConvTranspose2d_shape_witness :
  ∃ kv o k0 k1 s0 s1,
    attr_of (mkState [ODict (list_to_map
                        [("in_channels", VInt 1); ("out_channels", VInt 1);
                         ("kernel_size", VList [2; 2]); ("stride", VList [2; 2])]);
                      OList [1; 1; 4; 4]] []) 0%nat "kernel_size" = Some kv ∧
    Shape.as_pair kv = Ok (k0, k1) ∧
    attr_of (mkState [ODict (list_to_map
                        [("in_channels", VInt 1); ("out_channels", VInt 1);
                         ("kernel_size", VList [2; 2]); ("stride", VList [2; 2])]);
                      OList [1; 1; 4; 4]] []) 0%nat "stride" = Some (VList [s0; s1]) ∧
    dims_of (mkState [ODict (list_to_map
                        [("in_channels", VInt 1); ("out_channels", VInt 1);
                         ("kernel_size", VList [2; 2]); ("stride", VList [2; 2])]);
                      OList [1; 1; 8; 8]] []) 1%nat = Some [1; o; 4 * s0; 4 * s1] ∧
    [1; 1; 8; 8] = [1; o; (4 - 1) * s0 + k0; (4 - 1) * s1 + k1] ∧
    (dims_of (mkState [ODict (list_to_map
                        [("in_channels", VInt 1); ("out_channels", VInt 1);
                         ("kernel_size", VList [2; 2]); ("stride", VList [2; 2])]);
                      OList [1; 1; 8; 8]] []) 1%nat = Some [1; 1; 8; 8]
     ↔ k0 = s0 ∧ k1 = s1).
Proof.
  apply (ConvTranspose2d_shape 0%nat 1%nat
           (mkState [ODict (list_to_map
                        [("in_channels", VInt 1); ("out_channels", VInt 1);
                         ("kernel_size", VList [2; 2]); ("stride", VList [2; 2])]);
                      OList [1; 1; 4; 4]] [])
           (nn_ConvTranspose2d (VInt 1) (VInt 1) (VList [2; 2]) (VList [2; 2])) 1%nat
           (mkState [ODict (list_to_map
                        [("in_channels", VInt 1); ("out_channels", VInt 1);
                         ("kernel_size", VList [2; 2]); ("stride", VList [2; 2])]);
                      OList [1; 1; 8; 8]] [])
           1 1 4 4 [1; 1; 8; 8]).
  - vm_compute. reflexivity.
  - reflexivity.
  - vm_compute. reflexivity.
Defined.

Lemma insert_last {A} (l : list A) x :
  l ≠ [] → <[(length l - 1)%nat := x]> l = removelast l ++ [x].
Proof.
  induction l as [|y l IH]; [done|]. intros _.
  destruct l as [|z l']; [done|].
  change (removelast (y :: z :: l')) with (y :: removelast (z :: l')).
  cbn [length]. replace (S (S (length l')) - 1)%nat with (S (length (z :: l') - 1)).
  - cbn [app]. rewrite <- IH by done. reflexivity.
  - cbn [length]. lia.
Qed.

Lemma py_store_last {A} (l l' : list A) x :
  py_store l (-1) x = Ok l' → l ≠ [] ∧ l' = removelast l ++ [x].
Proof.
  unfold py_store. change (-1 <? 0) with true. cbv iota.
  destruct (Z.leb_spec 0 (-1 + Z.of_nat (length l))); [|discriminate].
  destruct (Z.ltb_spec (-1 + Z.of_nat (length l)) (Z.of_nat (length l))); [|discriminate].
  simpl. intros [= <-]. assert (l ≠ []) as Hne by (intros ->; simpl in *; lia).
  split; [done|]. rewrite <- insert_last by done. f_equal. lia.
Qed.

Lemma Linear_fits fin fout s r :
  forward (nn_Linear fin fout) s = Ok r →
  ∃ i o, fin = VInt i ∧ fout = VInt o ∧ List.last s 0 = i ∧ 0 < i ∧ 0 < o ∧
         r = removelast s ++ [o].
Proof.
  cbn [forward nn_forward Shape.torch Shape.nn_shape].
  destruct fin as [| | i | | |]; try discriminate.
  destruct fout as [| | o | | |]; try discriminate.
  destruct s as [|x s]; [discriminate|].
  intros H. sinv. eexists _, _. split_and!; done.
Qed.

(** X11.  ['Linear'] records the shape its module produces, for an
    input of any number of dimensions: when the call returns and the module
    accepts the input, the list returned is the input shape with
    [out_features] as its last entry, the shape of the module's output. *)
Theorem Linear_shape_sound p cid st m cid' st' l r :
  f_parse_component "Linear" (Ref p) cid st = (Ok (m, cid'), st') →
  dims_of st cid = Some l →
  forward m l = Ok r →
  dims_of st' cid' = Some r.
Proof.
  intros Hrun Hl Hf. run_branch Hrun.
  all: apply Linear_fits in Hf as (i & o & ? & ? & ? & ? & ? & ->).
  all: simplify_map_eq.
  all: repeat match goal with
       | H : as_int (VInt _) = Ok _ |- _ => injection H as <-
       | H : py_store _ (-1) _ = Ok _ |- _ => apply py_store_last in H as [? ->]
       end.
  all: done.
Qed.

Lemma Linear_shape_sound_witness :
  let st := mkState [ODict (list_to_map [("in_features", VInt (-1)); ("out_features", VInt 10)]);
                     OList [4; 50; 128]] [] in
  dims_of (final (f_parse_component "Linear" (Ref 0%nat) 1%nat st)) 1%nat
    = Some [4; 50; 10].
Proof.
  intros st.
  apply (Linear_shape_sound 0%nat 1%nat st (nn_Linear (VInt 128) (VInt 10)) 1%nat
           (final (f_parse_component "Linear" (Ref 0%nat) 1%nat st)) [4; 50; 128] [4; 50; 10]).
  - vm_compute. reflexivity.
  - reflexivity.
  - vm_compute. reflexivity.
Defined.

Lemma norm_dim_index (l : list Z) d i x :
  Shape.norm_dim (length l) d = Ok i → l !! i = Some x → py_index l d = Ok x.
Proof.
  unfold Shape.norm_dim, py_index.
  destruct (Z.leb_spec (- Z.of_nat (length l)) d); [|discriminate].
  destruct (Z.ltb_spec d (Z.of_nat (length l))); [|discriminate].
  simpl. intros [= <-] Hx.
  destruct (Z.ltb_spec d 0).
  - destruct (Z.leb_spec 0 (d + Z.of_nat (length l))); [|lia].
    destruct (Z.ltb_spec (d + Z.of_nat (length l)) (Z.of_nat (length l))); [|lia].
    simpl. by rewrite Hx.
  - destruct (Z.leb_spec 0 d); [|lia].
    destruct (Z.ltb_spec d (Z.of_nat (length l))); [|lia].
    simpl. by rewrite Hx.
Qed.

Lemma permute_index (l : list Z) ds :
  ∀ idx r, mapM (Shape.norm_dim (length l)) ds = Ok idx →
    mapM (λ i, match l !! i with Some n => Ok n | None => Raise TorchError end) idx = Ok r →
    mapM (py_index l) ds = Ok r.
Proof.
  induction ds as [|d ds IH]; intros idx r.
  - intros [= <-] [= <-]. done.
  - cbn [mapM]. intros H1 H2.
    apply pyres_bind_Ok in H1 as (i & Hi & H1).
    apply pyres_bind_Ok in H1 as (idx' & Hidx & [= <-]).
    cbn [mapM] in H2.
    apply pyres_bind_Ok in H2 as (x & Hx & H2).
    apply pyres_bind_Ok in H2 as (r' & Hr & [= <-]).
    destruct (l !! i) as [n|] eqn:En; [|discriminate]. injection Hx as ->.
    rewrite (norm_dim_index l d i x Hi En). cbn [mbind pyres_bind].
    by rewrite (IH idx' r' Hidx Hr).
Qed.

(** X12.  ['Permute'] records the shape its module produces whenever
    the module accepts the input: [[current_input_dim[s] for s in shape]] is
    the shape of [X.permute(shape)], negative indices included. *)
Theorem Permute_shape_sound p cid st m cid' st' l r :
  f_parse_component "Permute" (Ref p) cid st = (Ok (m, cid'), st') →
  dims_of st cid = Some l →
  forward m l = Ok r →
  dims_of st' cid' = Some r.
Proof.
  intros Hrun Hl Hf. run_branch Hrun.
  cbn [forward t_permute Shape.torch] in Hf. unfold Shape.permute in Hf.
  match goal with H : context [mapM (py_index _)] |- _ => rename H into Hm end.
  match type of Hm with match ?a with _ => _ end = _ =>
    destruct a as [| | | | |ds]; try discriminate Hm end.
  apply pyres_bind_Ok in Hf as (idx & Hidx & Hf).
  case_bool_decide; [|discriminate].
  rewrite (permute_index _ _ _ _ Hidx Hf) in Hm. by injection Hm as <-.
Qed.

Lemma Permute_shape_sound_witness :
  let st := mkState [ODict (list_to_map [("shape", VList [0; 2; 1])]); OList [4; 16; 50]] [] in
  dims_of (final (f_parse_component "Permute" (Ref 0%nat) 1%nat st)) 2%nat
    = Some [4; 50; 16].
Proof.
  intros st.
  apply (Permute_shape_sound 0%nat 1%nat st (nnPermute (VList [0; 2; 1])) 2%nat
           (final (f_parse_component "Permute" (Ref 0%nat) 1%nat st)) [4; 16; 50] [4; 50; 16]).
  - vm_compute. reflexivity.
  - reflexivity.
  - vm_compute. reflexivity.
Defined.

(** X13.  ['Flatten'] with [start_dim] 1: on a list [[B, C, L]] the
    call records [[B, C * L]], the shape [nn.Flatten(1)] produces; on a list
    [[B, C, H, W]] it records [[B, C * H]] while the module produces
    [[B, C * H * W]]. *)
Theorem Flatten_shape :
  (∀ p cid st m cid' st' B C L,
     f_parse_component "Flatten" (Ref p) cid st = (Ok (m, cid'), st') →
     dims_of st cid = Some [B; C; L] → attr_of st p "start_dim" = Some (VInt 1) →
     dims_of st' cid' = Some [B; C * L] ∧ forward m [B; C; L] = Ok [B; C * L]) ∧
  (∀ p cid st m cid' st' B C H W,
     f_parse_component "Flatten" (Ref p) cid st = (Ok (m, cid'), st') →
     dims_of st cid = Some [B; C; H; W] → attr_of st p "start_dim" = Some (VInt 1) →
     dims_of st' cid' = Some [B; C * H] ∧ forward m [B; C; H; W] = Ok [B; C * H * W]).
Proof.
  split.
  - intros p cid st m cid' st' B C L Hrun Hl Hs. run_branch Hrun.
    simplify_map_eq.
    repeat match goal with
           | H : py_index [_; _; _] _ = Ok _ |- _ => injection H as <-
           end.
    split; [done|]. cbn. do 3 f_equal. lia.
  - intros p cid st m cid' st' B C H W Hrun Hl Hs. run_branch Hrun.
    simplify_map_eq.
    repeat match goal with
           | H : py_index [_; _; _; _] _ = Ok _ |- _ => injection H as <-
           end.
    split; [done|]. cbn. do 3 f_equal. lia.
Qed.

Lemma Flatten_shape_witness :
  let st := mkState [ODict (list_to_map [("start_dim", VInt 1)]); OList [4; 16; 50]] [] in
  dims_of (final (f_parse_component "Flatten" (Ref 0%nat) 1%nat st)) 2%nat
    = Some [4; 16 * 50] ∧
  forward (nn_Flatten (VInt 1)) [4; 16; 50] = Ok [4; 16 * 50].
Proof.
  intros st.
  apply (proj1 Flatten_shape 0%nat 1%nat st (nn_Flatten (VInt 1)) 2%nat
           (final (f_parse_component "Flatten" (Ref 0%nat) 1%nat st)) 4 16 50).
  - vm_compute. reflexivity.
  - reflexivity.
  - reflexivity.
Defined.

Lemma filter_delete_one (l : list Z) i :
  l !! i = Some 1 → filter (λ c, 1 < c) (delete i l) = filter (λ c, 1 < c) l.
Proof.
  revert i. induction l as [|x l IH]; intros [|i] Hi; try done.
  - injection Hi as ->. change (delete 0%nat (1 :: l)) with l.
    by rewrite filter_cons_False by lia.
  - change (delete (S i) (x :: l)) with (x :: delete i l).
    rewrite !filter_cons. by rewrite (IH i Hi).
Qed.

Lemma filter_all (l : list Z) :
  Forall (λ c, 1 < c) l → filter (λ c, 1 < c) l = l.
Proof.
  induction 1 as [|x l Hx Hl IH]; [done|].
  rewrite filter_cons_True by done. by rewrite IH.
Qed.

(** X14.  ['Squeeze'] records the shape its module produces when no
    size 1 is left in the module's output: the entries greater than 1 of the
    list are then the input shape without the squeezed dimension. *)
Theorem Squeeze_shape_sound p cid st m cid' st' l r :
  f_parse_component "Squeeze" (Ref p) cid st = (Ok (m, cid'), st') →
  dims_of st cid = Some l →
  forward m l = Ok r → Forall (λ c, 1 < c) r →
  dims_of st' cid' = Some r.
Proof.
  intros Hrun Hl Hf Hr. run_branch Hrun.
  cbn [forward t_squeeze Shape.torch] in Hf. unfold Shape.squeeze in Hf.
  match type of Hf with match ?a with _ => _ end = _ =>
    destruct a as [| | d | | |]; try discriminate Hf end.
  match type of Hf with match ?a with _ => _ end = _ =>
    destruct a as [|? ?] eqn:El; [discriminate Hf|rewrite <- El in *; clear El] end.
  apply pyres_bind_Ok in Hf as (i & Hi & [= <-]).
  match goal with H : dims_of _ _ = Some (filter _ _) |- _ => rewrite H end.
  f_equal. case_bool_decide as Hone.
  - rewrite <- (filter_delete_one _ _ Hone). by rewrite filter_all.
  - by rewrite filter_all.
Qed.

Lemma Squeeze_shape_sound_witness :
  let st := mkState [ODict (list_to_map [("dim", VInt 2)]); OList [4; 16; 1; 50]] [] in
  dims_of (final (f_parse_component "Squeeze" (Ref 0%nat) 1%nat st)) 2%nat
    = Some [4; 16; 50].
Proof.
  intros st.
  apply (Squeeze_shape_sound 0%nat 1%nat st (nnSqueeze (VInt 2)) 2%nat
           (final (f_parse_component "Squeeze" (Ref 0%nat) 1%nat st))
           [4; 16; 1; 50] [4; 16; 50]).
  - vm_compute. reflexivity.
  - reflexivity.
  - vm_compute. reflexivity.
  - repeat constructor.
Defined.

(** X15.  ['Mean'] and ['Max']: with [keepdim] [False] or absent, on a
    list [[B, C, L]] and [dim] 2 or -1, the list [[B, C]] that is recorded
    is the shape the module produces; with [keepdim] [True] the list is
    returned as it was although the module sets the size of the reduced
    dimension to 1. *)
Theorem reductions_shape :
  (∀ module_type p cid st m cid' st' d B C L dim r,
     module_type ∈ ["Mean"; "Max"] →
     f_parse_component module_type (Ref p) cid st = (Ok (m, cid'), st') →
     param_of st p = Some d → dims_of st cid = Some [B; C; L] →
     rebinds module_type d = true →
     d !! "dim" = Some (VInt dim) → dim = 2 ∨ dim = -1 →
     forward m [B; C; L] = Ok r →
     dims_of st' cid' = Some r) ∧
  (∀ module_type p cid st m cid' st' d l r,
     module_type ∈ ["Mean"; "Max"] →
     f_parse_component module_type (Ref p) cid st = (Ok (m, cid'), st') →
     param_of st p = Some d → dims_of st cid = Some l →
     d !! "keepdim" = Some (VBool true) →
     forward m l = Ok r →
     dims_of st' cid' = Some l ∧ ∃ i : nat, r = <[i := 1]> l).
Proof.
  split.
  - intros mt p cid st m cid' st' d B C L dim r Hin Hrun Hd Hl Hre Hdim Hcase Hf.
    apply list_elem_of_In in Hin. simpl in Hin.
    repeat (destruct Hin as [<-|Hin]; [run_branch Hrun|]); try done.
    all: unfold rebinds in Hre; simpl in Hre.
    all: simplify_map_eq.
    all: try congruence.
    all: repeat match goal with
         | H : py_index [_; _; _] _ = Ok _ |- _ => injection H as <-
         end.
    all: destruct Hcase as [-> | ->]; cbn in Hf.
    all: try change (Shape.norm_dim 3 2) with (@Ok nat 2%nat) in Hf.
    all: try change (Shape.norm_dim 3 (-1)) with (@Ok nat 2%nat) in Hf.
    all: cbn in Hf.
    all: repeat match type of Hf with
         | (if ?b then _ else _) = _ => destruct b
         | match ?x with _ => _ end = _ => destruct x eqn:?
         end; try discriminate Hf.
    all: injection Hf as <-.
    all: repeat match goal with
         | H : is_False (VBool ?b) = true |- _ => destruct b; [discriminate H|]
         end.
    all: done.
  - intros mt p cid st m cid' st' d l r Hin Hrun Hd Hl Hk Hf.
    apply list_elem_of_In in Hin. simpl in Hin.
    repeat (destruct Hin as [<-|Hin]; [run_branch Hrun|]); try done.
    all: simplify_map_eq.
    all: try match goal with
         | H : bool_decide (_ = None) = true |- _ =>
             apply bool_decide_eq_true in H; congruence
         end.
    all: split; [done|].
    all: cbn [forward t_mean t_max Shape.torch] in Hf; unfold Shape.reduce in Hf.
    all: repeat match type of Hf with
         | (if ?b then _ else _) = _ => destruct b
         | match ?x with _ => _ end = _ => destruct x eqn:?
         | mbind _ _ = Ok _ =>
             let i := fresh "i" in apply pyres_bind_Ok in Hf as (i & ? & Hf)
         end; try discriminate Hf.
    all: injection Hf as <-; eauto.
Qed.

Lemma reductions_shape_witness :
  let st := mkState [ODict (list_to_map [("dim", VInt 2)]); OList [4; 16; 50]] [] in
  dims_of (final (f_parse_component "Mean" (Ref 0%nat) 1%nat st)) 2%nat = Some [4; 16].
Proof.
  intros st.
  apply (proj1 reductions_shape "Mean" 0%nat 1%nat st (nnMean (VInt 2) (VBool false)) 2%nat
           (final (f_parse_component "Mean" (Ref 0%nat) 1%nat st))
           (list_to_map [("dim", VInt 2)]) 4 16 50 2 [4; 16]).
  - apply list_elem_of_In. simpl. tauto.
  - vm_compute. reflexivity.
  - reflexivity.
  - reflexivity.
  - reflexivity.
  - reflexivity.
  - by left.
  - vm_compute. reflexivity.
Defined.

(** X16.  ['AutoPoolWeight'] on a list [[B, C, H, W]] records
    [[B, C, H, 1]]; [nnAutoPoolWeight] produces that shape when the last
    dimension is not empty, and fails in [torch.max] when it is. *)
Theorem AutoPoolWeight_shape_sound param cid st m cid' st' B C H W :
  f_parse_component "AutoPoolWeight" param cid st = (Ok (m, cid'), st') →
  dims_of st cid = Some [B; C; H; W] →
  dims_of st' cid' = Some [B; C; H; 1] ∧
  (1 ≤ W → forward m [B; C; H; W] = Ok [B; C; H; 1]) ∧
  (W = 0 → forward m [B; C; H; W] = Raise TorchError).
Proof.
  intros Hrun Hl. run_branch Hrun.
  repeat match goal with
         | H : py_store [_; _; _; _] _ _ = Ok _ |- _ => injection H as <-
         end.
  split_and!; [done| |].
  - intros HW. unfold nnAutoPoolWeight. cbn [forward].
    rewrite f_autopool_weights_shape by done. cbn [mbind pyres_bind].
    cbn [t_mul t_sum Shape.torch]. rewrite broadcast_same. cbn [mbind pyres_bind].
    by rewrite sum_last.
  - intros ->. unfold nnAutoPoolWeight. cbn [forward]. unfold f_autopool_weights.
    cbn [t_mul t_param t_max Shape.torch]. rewrite broadcast_scalar. reflexivity.
Qed.

Lemma AutoPoolWeight_shape_sound_witness :
  let st := mkState [OList [4; 256; 1; 50]] [] in
  dims_of (final (f_parse_component "AutoPoolWeight" (Val VNone) 0%nat st)) 0%nat
    = Some [4; 256; 1; 1] ∧
  (1 ≤ 50 → forward nnAutoPoolWeight [4; 256; 1; 50] = Ok [4; 256; 1; 1]) ∧
  (50 = 0 → forward nnAutoPoolWeight [4; 256; 1; 50] = Raise TorchError).
Proof.
  intros st.
  apply (AutoPoolWeight_shape_sound (Val VNone) 0%nat st nnAutoPoolWeight 0%nat
           (final (f_parse_component "AutoPoolWeight" (Val VNone) 0%nat st)) 4 256 1 50).
  - vm_compute. reflexivity.
  - reflexivity.
Defined.

(** X17.  ['Activation'], ['Dropout'] and ['AbsLayer'] return the list
    they were given, unchanged, and the module they build keeps the shape of
    its input. *)
Theorem pointwise_layers_keep_the_shape module_type param cid st m cid' st' l :
  module_type ∈ pointwise_types →
  f_parse_component module_type param cid st = (Ok (m, cid'), st') →
  dims_of st cid = Some l →
  cid' = cid ∧ dims_of st' cid = Some l ∧ forward m l = Ok l.
Proof.
  intros Hin Hrun Hl. apply list_elem_of_In in Hin. simpl in Hin.
  repeat (destruct Hin as [<-|Hin]; [run_branch Hrun|]); try done.
  match goal with H : f_get_activation _ = Ok _ |- _ =>
    unfold f_get_activation in H;
    repeat match type of H with
           | context [arg_eq ?a ?b] => destruct (arg_eq a b)
           end; try discriminate H; injection H as <- end.
  all: by split_and!.
Qed.

Lemma pointwise_layers_keep_the_shape_witness :
  let st := mkState [OList [4; 16; 50]] [] in
  0%nat = 0%nat ∧
  dims_of (final (f_parse_component "Activation" (Val (VStr "ReLU")) 0%nat st)) 0%nat
    = Some [4; 16; 50] ∧
  forward nn_ReLU [4; 16; 50] = Ok [4; 16; 50].
Proof.
  intros st.
  apply (pointwise_layers_keep_the_shape "Activation" (Val (VStr "ReLU")) 0%nat st
           nn_ReLU 0%nat
           (final (f_parse_component "Activation" (Val (VStr "ReLU")) 0%nat st))
           [4; 16; 50]).
  - apply list_elem_of_In. simpl. tauto.
  - vm_compute. reflexivity.
  - reflexivity.
Defined.

(** X18.  ['DoubleChannel'] only records: the module it builds hands
    back its input, whatever the tensors are, while the entry 1 of the list
    is doubled in place. *)
Theorem DoubleChannel_only_records param cid st m cid' st' l :
  f_parse_component "DoubleChannel" param cid st = (Ok (m, cid'), st') →
  dims_of st cid = Some l →
  (∀ (T : Type) (TT : Torch T) (x : T), forward m x = Ok x) ∧
  ∃ c l', py_index l 1 = Ok c ∧ py_store l 1 (c * 2) = Ok l' ∧
          dims_of st' cid' = Some l'.
Proof.
  intros Hrun Hl. run_branch Hrun. split; [done|]. eauto 10.
Qed.

Lemma DoubleChannel_only_records_witness :
  (∀ (T : Type) (TT : Torch T) (x : T), forward nnEmpty x = Ok x) ∧
  ∃ c l', py_index [2; 8; 16; 16] 1 = Ok c ∧ py_store [2; 8; 16; 16] 1 (c * 2) = Ok l' ∧
          dims_of (mkState [OList [2; 16; 16; 16]] []) 0%nat = Some l'.
Proof.
  apply (DoubleChannel_only_records (Val VNone) 0%nat (mkState [OList [2; 8; 16; 16]] [])
           nnEmpty 0%nat (mkState [OList [2; 16; 16; 16]] []) [2; 8; 16; 16]).
  - vm_compute. reflexivity.
  - reflexivity.
Defined.

(** ** Chomp1d and the stack without levels *)

(** X19.  The length [Chomp1d(c)] leaves of a sequence of length [L]:
    [L - c] (or 0) for a positive [c], nothing for [c = 0], and the first
    [-c] entries (or all of them) for a negative [c]. *)
Theorem Chomp1d_lengths B C L c :
  0 ≤ L → forward (Chomp1d (VInt c)) [B; C; L] = Ok [B; C; chomped L c].
Proof.
  intros HL. unfold chomped. simpl. unfold Shape.slice, Shape.slice_len. simpl.
  zbool; do 3 f_equal; f_equal; lia.
Qed.

Lemma Chomp1d_lengths_witness :
  forward (Chomp1d (VInt 3)) [4; 8; 10] = Ok [4; 8; chomped 10 3].
Proof. apply (Chomp1d_lengths 4 8 10 3). discriminate. Defined.

Lemma TemporalConvNet_no_levels ni k dr :
  TemporalConvNet ni (VList []) k dr = Ok (mk_TemporalConvNet (nn_Sequential [])).
Proof. reflexivity. Qed.

(** X20.  An empty channel list: [TemporalConvNet] accepts it and
    builds a stack that hands back its input; the ['Conv1dTCN'] branch
    raises [IndexError] at [param.num_channels[-1]], after the module was
    built, leaving the store as it was when [in_channels] was given and with
    [in_channels] filled in when it held [-1]. *)
Theorem TemporalConvNet_empty_channel_list :
  (∀ ni k dr (T : Type) (TT : Torch T) (x : T),
     ∃ m, TemporalConvNet ni (VList []) k dr = Ok m ∧ forward m x = Ok x) ∧
  (∀ p cid st d v,
     param_of st p = Some d →
     d !! "in_channels" = Some v → py_eq v (VInt (-1)) = false →
     d !! "num_channels" = Some (VList []) →
     f_parse_component "Conv1dTCN" (Ref p) cid st = (Raise IndexError, st)) ∧
  (∀ p cid st d v l c,
     param_of st p = Some d →
     d !! "in_channels" = Some v → py_eq v (VInt (-1)) = true →
     d !! "num_channels" = Some (VList []) →
     dims_of st cid = Some l → py_index l 1 = Ok c →
     ∃ st', f_parse_component "Conv1dTCN" (Ref p) cid st = (Raise IndexError, st') ∧
            attr_of st' p "in_channels" = Some (VInt c)).
Proof.
  split_and!.
  - intros ni k dr T TT x. eexists. split; [apply TemporalConvNet_no_levels|done].
  - intros p cid st d v Hd Hi Hne Hn.
    unfold f_parse_component.
    cbv [f_parse_component_body String.eqb Ascii.eqb Bool.eqb].
    unfold branch_Conv1dTCN, fill_if_minus_one.
    unfold mbind, M_bind, lift.
    rewrite (getattr_run st p d "in_channels" v Hd Hi), Hne. cbn [mret M_ret].
    rewrite (getattr_run st p d "in_channels" v Hd Hi).
    rewrite (getattr_run st p d "num_channels" _ Hd Hn).
    rewrite TemporalConvNet_no_levels.
    rewrite (getattr_run st p d "num_channels" _ Hd Hn).
    reflexivity.
  - intros p cid st d v l c Hd Hi He Hn Hl Hc.
    destruct (setattr_run st p d "in_channels" (VInt c) Hd) as (st1 & Hset & Hd1 & _).
    exists st1. split; [|by unfold attr_of; rewrite Hd1; simpl; rewrite lookup_insert_eq].
    assert (<["in_channels" := VInt c]> d !! "num_channels" = Some (VList [])) as Hn1
      by (by rewrite lookup_insert_ne).
    assert (<["in_channels" := VInt c]> d !! "in_channels" = Some (VInt c)) as Hi1
      by (by rewrite lookup_insert_eq).
    unfold f_parse_component.
    cbv [f_parse_component_body String.eqb Ascii.eqb Bool.eqb].
    unfold branch_Conv1dTCN, fill_if_minus_one.
    unfold mbind, M_bind, lift, fmap, M_fmap.
    rewrite (getattr_run st p d "in_channels" v Hd Hi), He.
    rewrite (list_get_run st cid l 1 c Hl Hc), Hset.
    rewrite (getattr_run st1 p _ "in_channels" _ Hd1 Hi1).
    rewrite (getattr_run st1 p _ "num_channels" _ Hd1 Hn1).
    rewrite TemporalConvNet_no_levels.
    rewrite (getattr_run st1 p _ "num_channels" _ Hd1 Hn1).
    reflexivity.
Qed.

Lemma TemporalConvNet_empty_channel_list_witness :
  let st := mkState [ODict (list_to_map
                       [("in_channels", VInt 3); ("num_channels", VList [])]);
                     OList [4; 3; 100]] [] in
  f_parse_component "Conv1dTCN" (Ref 0%nat) 1%nat st = (Raise IndexError, st).
Proof.
  intros st.
  apply (proj1 (proj2 TemporalConvNet_empty_channel_list) 0%nat 1%nat st
           (list_to_map [("in_channels", VInt 3); ("num_channels", VList [])]) (VInt 3)).
  - reflexivity.
  - reflexivity.
  - reflexivity.
  - reflexivity.
Defined.

(** ** Lists that are too short *)

Lemma py_index_out_of_range {A} (l : list A) i :
  0 ≤ i → Z.of_nat (length l) ≤ i → py_index l i = Raise IndexError.
Proof.
  intros Hi Hl. unfold py_index.
  destruct (Z.ltb_spec i 0); [lia|].
  destruct (Z.ltb_spec i (Z.of_nat (length l))); [lia|].
  by rewrite andb_false_r.
Qed.

Lemma py_store_out_of_range {A} (l : list A) i x :
  0 ≤ i → Z.of_nat (length l) ≤ i → py_store l i x = Raise IndexError.
Proof.
  intros Hi Hl. unfold py_store.
  destruct (Z.ltb_spec i 0); [lia|].
  destruct (Z.ltb_spec i (Z.of_nat (length l))); [lia|].
  by rewrite andb_false_r.
Qed.

Lemma list_get_raise st cid (l : list Z) i e :
  dims_of st cid = Some l → py_index l i = Raise e → list_get cid i st = (Raise e, st).
Proof.
  unfold dims_of, list_get, list_read. intros Hl Hx.
  unfold mbind, M_bind. destruct (heap st !! cid) as [[?|l0]|]; try discriminate.
  injection Hl as ->. unfold lift. by rewrite Hx.
Qed.

Lemma list_set_raise st cid (l : list Z) i x e :
  dims_of st cid = Some l → py_store l i x = Raise e → list_set cid i x st = (Raise e, st).
Proof.
  unfold dims_of, list_set. intros Hl Hx.
  destruct (heap st !! cid) as [[?|l0]|]; try discriminate.
  injection Hl as ->. by rewrite Hx.
Qed.

(** X26.  A list with fewer entries than a branch writes:
    ['AutoPoolWeight'] on fewer than 4 entries and ['DoubleChannel'] on fewer
    than 2 raise [IndexError] and leave the store as it was;
    ['AutoPoolWeightSplit'] and ['SoftmaxWeight'] on 2 or 3 entries raise
    [IndexError] at [current_input_dim[3] = 1], after entry 1 of the
    caller's list was halved. *)
Theorem short_lists_raise_IndexError :
  (∀ param cid st l,
     dims_of st cid = Some l → (length l < 4)%nat →
     f_parse_component "AutoPoolWeight" param cid st = (Raise IndexError, st)) ∧
  (∀ param cid st l,
     dims_of st cid = Some l → (length l < 2)%nat →
     f_parse_component "DoubleChannel" param cid st = (Raise IndexError, st)) ∧
  (∀ module_type param cid st l n,
     module_type ∈ ["AutoPoolWeightSplit"; "SoftmaxWeight"] →
     dims_of st cid = Some l → (length l < 4)%nat →
     py_index l 1 = Ok n → 0 ≤ n < 2 ^ 53 →
     ∃ st' l', f_parse_component module_type param cid st = (Raise IndexError, st') ∧
               py_store l 1 (n / 2) = Ok l' ∧ dims_of st' cid = Some l').
Proof.
  split_and!.
  - intros param cid st l Hl Hlen.
    unfold f_parse_component.
    cbv [f_parse_component_body String.eqb Ascii.eqb Bool.eqb].
    unfold branch_AutoPoolWeight, mbind, M_bind.
    by rewrite (list_set_raise st cid l 3 1 IndexError Hl)
      by (apply py_store_out_of_range; lia).
  - intros param cid st l Hl Hlen.
    unfold f_parse_component.
    cbv [f_parse_component_body String.eqb Ascii.eqb Bool.eqb].
    unfold branch_DoubleChannel, mbind, M_bind.
    by rewrite (list_get_raise st cid l 1 IndexError Hl)
      by (apply py_index_out_of_range; lia).
  - intros mt param cid st l n Hin Hl Hlen Hn Hb.
    assert (∃ l', py_store l 1 (n / 2) = Ok l') as [l' Hs].
    { revert Hn. unfold py_index, py_store. cbn [Z.ltb Z.compare].
      destruct (_ && _); [eauto|discriminate]. }
    destruct (list_set_run st cid l l' 1 (n / 2) Hl Hs) as (st' & Hset & Hl').
    assert (length l' = length l) as Hlen'.
    { revert Hs. unfold py_store. destruct (_ && _); [|discriminate].
      intros [= <-]. by rewrite length_insert. }
    exists st', l'. split; [|done].
    apply list_elem_of_In in Hin. simpl in Hin.
    destruct Hin as [<-|[<-|[]]].
    all: unfold f_parse_component.
    all: cbv [f_parse_component_body String.eqb Ascii.eqb Bool.eqb].
    all: unfold branch_AutoPoolWeightSplit, branch_SoftmaxWeight, mbind, M_bind, lift.
    all: rewrite !(list_get_run st cid l 1 n Hl Hn).
    all: rewrite (int_div_2 n Hb), Hset.
    all: by rewrite (list_set_raise st' cid l' 3 1 IndexError Hl')
           by (apply py_store_out_of_range; lia).
Qed.

Lemma short_lists_raise_IndexError_witness :
  ∃ st' l', f_parse_component "SoftmaxWeight" (Val VNone) 0%nat (mkState [OList [4; 16; 50]] [])
              = (Raise IndexError, st') ∧
            py_store [4; 16; 50] 1 (16 / 2) = Ok l' ∧ dims_of st' 0%nat = Some l'.
Proof.
  apply (proj2 (proj2 short_lists_raise_IndexError) "SoftmaxWeight" (Val VNone) 0%nat
           (mkState [OList [4; 16; 50]] []) [4; 16; 50] 16).
  - apply list_elem_of_In. simpl. tauto.
  - reflexivity.
  - simpl. lia.
  - reflexivity.
  - split; [discriminate | reflexivity].
Defined.

(** ** StochasticDepth *)

Lemma uses_Sequential_app ms ms' :
  uses_StochasticDepth (nn_Sequential (ms ++ ms')) =
  uses_StochasticDepth (nn_Sequential ms) || uses_StochasticDepth (nn_Sequential ms').
Proof.
  induction ms as [|m ms IH]; [done|].
  change (uses_StochasticDepth (nn_Sequential ((m :: ms) ++ ms')))
    with (uses_StochasticDepth m || uses_StochasticDepth (nn_Sequential (ms ++ ms'))).
  change (uses_StochasticDepth (nn_Sequential (m :: ms)))
    with (uses_StochasticDepth m || uses_StochasticDepth (nn_Sequential ms)).
  rewrite IH. by rewrite orb_assoc.
Qed.

Lemma TemporalBlock_plain a b c d e f g : uses_StochasticDepth (TemporalBlock a b c d e f g) = false.
Proof. unfold TemporalBlock. by destruct (negb _). Qed.

Lemma TemporalConvNet_loop_plain ni nc k dr levels :
  ∀ layers r,
    uses_StochasticDepth (nn_Sequential layers) = false →
    TemporalConvNet_loop ni nc k dr levels layers = Ok r →
    uses_StochasticDepth (nn_Sequential r) = false.
Proof.
  induction levels as [|i levels IH]; intros layers r Hl.
  - by intros [= <-].
  - cbn [TemporalConvNet_loop]. intros H.
    apply pyres_bind_Ok in H as (ic & _ & H).
    apply pyres_bind_Ok in H as (oc & _ & H).
    apply pyres_bind_Ok in H as (km1 & _ & H).
    apply pyres_bind_Ok in H as (pad & _ & H).
    apply IH in H; [done|].
    rewrite uses_Sequential_app, Hl.
    change (uses_StochasticDepth (nn_Sequential [?m])) with (uses_StochasticDepth m || false).
    by rewrite TemporalBlock_plain.
Qed.

Lemma TemporalConvNet_plain a b c d m :
  TemporalConvNet a b c d = Ok m → uses_StochasticDepth m = false.
Proof.
  unfold TemporalConvNet. intros H.
  apply pyres_bind_Ok in H as (n & _ & H).
  apply pyres_bind_Ok in H as (layers & Hl & [= <-]).
  by apply TemporalConvNet_loop_plain in Hl.
Qed.

Lemma ConvNeXtBlock_drop_path i o k dp m :
  ConvNeXtBlock i o k dp = Ok m →
  uses_StochasticDepth m = negb (py_eq dp (VInt 0)).
Proof.
  unfold ConvNeXtBlock. intros H.
  apply pyres_bind_Ok in H as (pad & _ & H).
  apply pyres_bind_Ok in H as (w & _ & H).
  apply pyres_bind_Ok in H as (w' & _ & [= <-]).
  by destruct (py_eq dp (VInt 0)).
Qed.

Lemma depthwise_separable_conv_plain a b c d e m :
  depthwise_separable_conv a b c d e = Ok m → uses_StochasticDepth m = false.
Proof.
  unfold depthwise_separable_conv. intros H.
  apply pyres_bind_Ok in H as (w & _ & H).
  by apply pyres_bind_Ok in H as (w' & _ & [= <-]).
Qed.

Lemma ResidualBlock_plain a b c d : uses_StochasticDepth (ResidualBlock a b c d) = false.
Proof. unfold ResidualBlock. by destruct (negb _). Qed.

Lemma f_get_activation_plain a m :
  f_get_activation a = Ok m → uses_StochasticDepth m = false.
Proof.
  unfold f_get_activation.
  repeat match goal with
         | |- context [arg_eq ?x ?y] => destruct (arg_eq x y)
         end; try discriminate; by intros [= <-].
Qed.

(** X21.  No module [f_parse_component] returns is or holds a
    [StochasticDepth]: [ConvNeXtBlock] builds one exactly when its
    [drop_path] is not 0, and the factory passes 0.0. *)
Theorem factory_never_builds_StochasticDepth :
  (∀ module_type param cid st m cid' st',
     f_parse_component module_type param cid st = (Ok (m, cid'), st') →
     uses_StochasticDepth m = false) ∧
  (∀ i o k dp m,
     ConvNeXtBlock i o k dp = Ok m →
     uses_StochasticDepth m = negb (py_eq dp (VInt 0))).
Proof.
  split.
  - intros mt param cid st m cid' st' H.
    unfold f_parse_component in H.
    apply bind_Ok in H as ([om c] & st1 & E & H). cbv beta iota in H.
    destruct om as [m0|]; [|discriminate]. apply mret_Ok in H as [[= -> ->] ->].
    unfold f_parse_component_body in E.
    repeat match type of E with
    | context [String.eqb mt ?s] => destruct (String.eqb mt s)
    end.
    all: match type of E with ?b _ _ _ = _ => unfold b in E end.
    all: repeat mlight_step.
    all: first [ reflexivity
               | by eapply TemporalConvNet_plain
               | by eapply depthwise_separable_conv_plain
               | by apply ResidualBlock_plain
               | by eapply f_get_activation_plain
               | idtac ].
    all: match goal with H : ConvNeXtBlock _ _ _ _ = Ok _ |- _ =>
           apply ConvNeXtBlock_drop_path in H as -> end.
    all: reflexivity.
  - apply ConvNeXtBlock_drop_path.
Qed.

Lemma factory_never_builds_StochasticDepth_witness :
  uses_StochasticDepth (ResidualBlock (VInt 4) (VInt 8) (VInt 3) (VInt 1)) = false.
Proof.
  apply (proj1 factory_never_builds_StochasticDepth "Conv2dRes" (Ref 0%nat) 1%nat
           (mkState [ODict (list_to_map
                       [("in_channels", VInt 4); ("out_channels", VInt 8);
                        ("kernel_size", VInt 3); ("padding", VStr "same");
                        ("stride", VInt 1)]);
                     OList [2; 4; 16; 16]] [])
           _ 1%nat
           (mkState [ODict (list_to_map
                       [("in_channels", VInt 4); ("out_channels", VInt 8);
                        ("kernel_size", VInt 3); ("padding", VStr "same");
                        ("stride", VInt 1)]);
                     OList [2; 8; 16; 16]] [])).
  vm_compute. reflexivity.
Defined.

(** ** Shapes through the blocks with normalisation layers *)

Lemma batch_norm_fits c s B rest :
  0 < c → s = B :: c :: rest → Forall (λ n, 0 < n) s → 1 < B * Shape.product rest →
  Norm.batch_norm c c s = Ok s.
Proof.
  intros Hc -> Hs Hv. unfold Norm.batch_norm.
  rewrite channels_fit_same by done. cbn [mbind pyres_bind].
  assert (forallb (λ n, 0 <? n) (B :: c :: rest) = true) as ->.
  { apply forallb_forall. intros x Hx%list_elem_of_In.
    rewrite Forall_forall in Hs. apply Z.ltb_lt. by apply Hs. }
  cbn [Norm.values_per_channel]. destruct (Z.ltb_spec 1 (B * Shape.product rest)); [done|lia].
Qed.

Lemma forallb_positive (s : list Z) :
  Forall (λ n, 0 < n) s → forallb (λ n, 0 <? n) s = true.
Proof.
  intros Hs. apply forallb_forall. intros x Hx%list_elem_of_In.
  rewrite Forall_forall in Hs. apply Z.ltb_lt. by apply Hs.
Qed.

Lemma window_out_same_odd H k :
  0 < H → 0 < k → Z.odd k = true → Shape.window_out H k 1 (k / 2) 1 = Ok H.
Proof.
  intros HH Hk Ho.
  assert (k = 2 * (k / 2) + 1) as Hh.
  { rewrite (Zodd_div2 k) at 1; [by rewrite Z.div2_div|]. by apply Zodd_bool_iff. }
  unfold Shape.window_out. zbool; simpl; zbool.
  f_equal. rewrite Z.div_1_r. lia.
Qed.

Lemma permute_to_last B C H W :
  Shape.permute (VList [0; 2; 3; 1]) [B; C; H; W] = Ok [B; H; W; C].
Proof. vm_compute. reflexivity. Qed.

Lemma permute_from_last B C H W :
  Shape.permute (VList [0; 3; 1; 2]) [B; H; W; C] = Ok [B; C; H; W].
Proof. vm_compute. reflexivity. Qed.

Lemma ConvNeXtBlock_shape C O k dp B H W :
  0 < C → 0 < O → 0 < k → Z.odd k = true → 0 < B → 0 < H → 0 < W →
  is_number dp = true →
  ∃ m, ConvNeXtBlock (VInt C) (VInt O) (VInt k) dp = Ok m ∧
       Norm.shape_of m [B; C; H; W] = Shape.broadcast [B; O; H; W] [B; C; H; W].
Proof.
  intros HC HO Hk Hodd HB HH HW Hnum.
  unfold ConvNeXtBlock. cbn [py_floordiv py_mul as_int mbind pyres_bind].
  change (2 =? 0) with false. cbv iota.
  eexists. split; [reflexivity|].
  unfold Norm.shape_of.
  assert (∀ a x : list Z, x = B :: a →
    @forward (list Z) Norm.torch
      (if py_eq dp (VInt 0) then nn_Identity else StochasticDepth dp) x = Ok x) as Hdp.
  { intros a x ->. destruct (py_eq dp (VInt 0)); [reflexivity|].
    cbn [forward]. destruct (py_eq dp (float_lit 0 1)); [done|].
    cbn [t_drop_path Norm.torch]. unfold Shape.drop_path. by rewrite Hnum. }
  set (drop := if py_eq dp (VInt 0) then nn_Identity else StochasticDepth dp) in *.
  change (@forward (list Z) Norm.torch (mk_ConvNeXtBlock ?a ?b ?c ?d ?e drop) ?x)
    with (x1 ← @forward (list Z) Norm.torch a x;
          x2 ← t_permute (VList [0; 2; 3; 1]) x1;
          x3 ← @forward (list Z) Norm.torch b x2;
          x4 ← @forward (list Z) Norm.torch c x3;
          x5 ← @forward (list Z) Norm.torch d x4;
          x6 ← @forward (list Z) Norm.torch e x5;
          x7 ← t_permute (VList [0; 3; 1; 2]) x6;
          y ← @forward (list Z) Norm.torch drop x7;
          t_add y x).
  cbn [forward nn_forward Norm.torch Norm.nn_shape t_permute t_add].
  rewrite Z.mod_same by lia.
  destruct (Z.ltb_spec 0 C); [|lia]. cbn [andb Z.eqb].
  cbn [Shape.nn_shape Shape.as_pair].
  rewrite !channels_fit_same by done. cbn [mbind pyres_bind].
  rewrite !window_out_same_odd by done. cbn [mbind pyres_bind].
  rewrite !channels_fit_same by lia.
  cbn [mbind pyres_bind t_permute Norm.torch].
  rewrite permute_to_last. cbn [mbind pyres_bind].
  change (List.last [B; H; W; C] 0) with C.
  rewrite channels_fit_same by done. cbn [mbind pyres_bind].
  assert (forallb (λ n, 0 <? n) [B; H; W; C] = true) as ->.
  { cbn [forallb]. by rewrite !(proj2 (Z.ltb_lt 0 _)) by lia. }
  cbn [mbind pyres_bind].
  change (List.last [B; H; W; C] 0) with C.
  rewrite !channels_fit_same by lia. cbn [mbind pyres_bind removelast app].
  change (List.last [B; H; W; 4 * C] 0) with (4 * C).
  rewrite !channels_fit_same by lia.
  cbn [mbind pyres_bind removelast app t_permute Norm.torch].
  rewrite permute_from_last. cbn [mbind pyres_bind].
  rewrite (Hdp [O; H; W]) by done. reflexivity.
Qed.

Lemma forward_ResidualBlock {T} `{Torch T} c1 c2 ds cds relu oc (x : T) :
  forward (mk_ResidualBlock c1 c2 ds cds relu oc) x =
  (out ← forward c1 x;
   out ← forward c2 out;
   residual ← (if ds : bool
               then match cds with Some c => forward c x | None => Raise AttributeError end
               else Ok x);
   out ← t_iadd out residual;
   forward relu out).
Proof. reflexivity. Qed.

Lemma forward_Sequential_nil {T} `{Torch T} (x : T) : forward (nn_Sequential []) x = Ok x.
Proof. reflexivity. Qed.

Lemma conv_same_shape c o k k0 k1 B H W :
  0 < c → 0 < o → Shape.as_pair k = Ok (k0, k1) → 0 < k0 → 0 < k1 → 0 < H → 0 < W →
  @forward _ Norm.torch (nn_Conv2d (VInt c) (VInt o) k (VInt 1) (VStr "same") (VInt 1))
    [B; c; H; W] = Ok [B; o; H; W].
Proof.
  intros Hc Ho Hk Hk0 Hk1 HH HW.
  cbn [forward nn_forward Norm.torch Norm.nn_shape].
  rewrite !Z.mod_1_r. change (0 <? 1) with true. cbn [andb Z.eqb].
  cbn [Shape.nn_shape].
  rewrite !channels_fit_same by done. cbn [mbind pyres_bind].
  rewrite Hk. cbn [mbind pyres_bind Shape.as_pair].
  change (1 =? 1) with true. cbn [andb].
  by rewrite !(proj2 (Z.ltb_lt 0 _)) by lia.
Qed.

Lemma batch_norm2d_shape o B H W :
  0 < o → 0 < B → 0 < H → 0 < W → 1 < B * (H * W) →
  @forward _ Norm.torch (nn_BatchNorm2d (VInt o)) [B; o; H; W] = Ok [B; o; H; W].
Proof.
  intros. cbn [forward nn_forward Norm.torch Norm.nn_shape].
  apply (batch_norm_fits o _ B [H; W]); [done|done| |].
  - repeat constructor; lia.
  - unfold Shape.product. simpl foldr. lia.
Qed.

Lemma ResidualBlock_shape i o k k0 k1 B H W :
  0 < i → 0 < o → Shape.as_pair k = Ok (k0, k1) → 0 < k0 → 0 < k1 →
  0 < B → 0 < H → 0 < W → 1 < B * (H * W) →
  Norm.shape_of (ResidualBlock (VInt i) (VInt o) k (VInt 1)) [B; i; H; W] = Ok [B; o; H; W].
Proof.
  intros Hi Ho Hk Hk0 Hk1 HB HH HW Hv.
  pose proof (conv_same_shape i o k k0 k1 B H W Hi Ho Hk Hk0 Hk1 HH HW) as Hc1.
  pose proof (conv_same_shape o o k k0 k1 B H W Ho Ho Hk Hk0 Hk1 HH HW) as Hc2.
  pose proof (conv_same_shape i o (VInt 1) 1 1 B H W Hi Ho eq_refl
                ltac:(lia) ltac:(lia) HH HW) as Hc3.
  pose proof (batch_norm2d_shape o B H W Ho HB HH HW Hv) as Hbn.
  assert (@forward _ Norm.torch nn_ReLU [B; o; H; W] = Ok [B; o; H; W]) as Hrelu by done.
  unfold Norm.shape_of, ResidualBlock. simpl py_eq.
  destruct (Z.eqb_spec i o) as [->|Hne]; cbn [negb].
  all: rewrite forward_ResidualBlock, !forward_Sequential_cons.
  all: rewrite ?Hc1, ?Hc2; cbn [mbind pyres_bind].
  all: rewrite !forward_Sequential_cons, Hbn; cbn [mbind pyres_bind].
  all: rewrite !forward_Sequential_cons, Hrelu; cbn [mbind pyres_bind].
  all: rewrite forward_Sequential_nil; cbn [mbind pyres_bind].
  all: rewrite !forward_Sequential_cons, Hc2; cbn [mbind pyres_bind].
  all: rewrite !forward_Sequential_cons, Hbn; cbn [mbind pyres_bind].
  all: rewrite forward_Sequential_nil; cbn [mbind pyres_bind].
  all: rewrite ?Hc3; cbn [mbind pyres_bind t_iadd Norm.torch].
  all: unfold Shape.broadcast_onto; rewrite broadcast_same; cbn [mbind pyres_bind].
  all: by rewrite bool_decide_eq_true_2.
Qed.

Lemma depthwise_separable_conv_shape nin nout k0 k1 B H W :
  0 < nin → 0 < nout → 0 < k0 ≤ H → 0 < k1 ≤ W →
  ∃ m, depthwise_separable_conv (VInt nin) (VInt 1) (VInt nout) (VList [k0; k1])
         (VStr "valid") = Ok m ∧
       Norm.shape_of m [B; nin; H; W] = Ok [B; nout; H - k0 + 1; W - k1 + 1].
Proof.
  intros Hi Ho Hk0 Hk1. eexists. split; [reflexivity|].
  unfold Norm.shape_of. cbn [forward nn_forward Norm.torch Norm.nn_shape].
  rewrite Z.mul_1_r, Z.mod_same, !Z.mod_1_r by lia.
  rewrite (proj2 (Z.ltb_lt 0 nin)) by done. change (0 <? 1) with true. cbn [andb Z.eqb].
  cbn [Shape.nn_shape Shape.as_pair].
  rewrite !channels_fit_same by done. cbn [mbind pyres_bind].
  assert (∀ L k, 0 < k ≤ L → Shape.window_out L k 1 0 1 = Ok (L - k + 1)) as Hw.
  { intros L k Hk. unfold Shape.window_out. zbool; simpl; zbool.
    f_equal. rewrite Z.div_1_r. lia. }
  rewrite !Hw by done. cbn [mbind pyres_bind].
  rewrite !channels_fit_same by done. cbn [mbind pyres_bind].
  rewrite !Hw by lia. cbn [mbind pyres_bind].
  replace (H - k0 + 1 - 1 + 1) with (H - k0 + 1) by lia.
  by replace (W - k1 + 1 - 1 + 1) with (W - k1 + 1) by lia.
Qed.

(** X22.  [ResidualBlock] with stride 1 maps a shape
    [[B, in_channels, H, W]] to [[B, out_channels, H, W]] for every kernel
    size (more than one value per channel, for the batch normalisations),
    and this is the shape the ['Conv2dRes'] branch records. *)
Theorem residual_blocks_shapes :
  (∀ i o k k0 k1 B H W,
     0 < i → 0 < o → Shape.as_pair k = Ok (k0, k1) → 0 < k0 → 0 < k1 →
     0 < B → 0 < H → 0 < W → 1 < B * (H * W) →
     Norm.shape_of (ResidualBlock (VInt i) (VInt o) k (VInt 1)) [B; i; H; W]
       = Ok [B; o; H; W]) ∧
  (∀ p cid st m cid' st' d B C H W o k k0 k1,
     f_parse_component "Conv2dRes" (Ref p) cid st = (Ok (m, cid'), st') →
     param_of st p = Some d → dims_of st cid = Some [B; C; H; W] →
     d !! "in_channels" = Some (VInt C) ∨ d !! "in_channels" = Some (VInt (-1)) →
     d !! "out_channels" = Some (VInt o) → d !! "kernel_size" = Some k →
     0 < C → 0 < o → Shape.as_pair k = Ok (k0, k1) → 0 < k0 → 0 < k1 →
     0 < B → 0 < H → 0 < W → 1 < B * (H * W) →
     Norm.shape_of m [B; C; H; W] = Ok [B; o; H; W] ∧
     dims_of st' cid' = Some [B; o; H; W]).
Proof.
  split; [apply ResidualBlock_shape|].
  intros p cid st m cid' st' d B C H W o k k0 k1 Hrun Hd Hl Hi Ho Hk.
  intros HC Hop Hkp Hk0 Hk1 HB HH HW Hv.
  run_branch Hrun.
  all: simplify_map_eq.
  all: try (destruct Hi as [Hi|Hi]; simplify_map_eq; simpl in *; try done; try lia).
  all: repeat match goal with
       | H : as_int (VInt _) = Ok _ |- _ => injection H as <-
       | H : py_store [_; _; _; _] _ _ = Ok _ |- _ => injection H as <-
       | H : py_index [_; _; _; _] _ = Ok _ |- _ => injection H as <-
       end.
  all: split; [by eapply ResidualBlock_shape|done].
Qed.

Lemma residual_blocks_shapes_witness :
  Norm.shape_of (ResidualBlock (VInt 4) (VInt 8) (VInt 3) (VInt 1)) [2; 4; 16; 16]
    = Ok [2; 8; 16; 16].
Proof.
  apply (proj1 residual_blocks_shapes 4 8 (VInt 3) 3 3 2 16 16); reflexivity.
Defined.

(** X23.  [ConvNeXtBlock] with an odd kernel size and a number for
    [drop_path] keeps the shape of its input when [out_channels] is
    [in_channels], and fails at the residual addition when the two differ
    and neither is 1; the ['Conv2dNext'] branch builds the block with kernel
    size 7 and [drop_path] 0.0 and records [out_channels] in both cases. *)
Theorem ConvNeXtBlock_needs_equal_channels :
  (∀ C O k dp B H W,
     0 < C → 0 < O → 0 < k → Z.odd k = true → 0 < B → 0 < H → 0 < W →
     is_number dp = true →
     ∃ m, ConvNeXtBlock (VInt C) (VInt O) (VInt k) dp = Ok m ∧
          (O = C → Norm.shape_of m [B; C; H; W] = Ok [B; C; H; W]) ∧
          (O ≠ C → O ≠ 1 → C ≠ 1 → Norm.shape_of m [B; C; H; W] = Raise TorchError)) ∧
  (∀ p cid st m cid' st' d B C H W O,
     f_parse_component "Conv2dNext" (Ref p) cid st = (Ok (m, cid'), st') →
     param_of st p = Some d → dims_of st cid = Some [B; C; H; W] →
     d !! "in_channels" = Some (VInt C) ∨ d !! "in_channels" = Some (VInt (-1)) →
     d !! "out_channels" = Some (VInt O) →
     0 < C → 0 < O → 0 < B → 0 < H → 0 < W →
     ConvNeXtBlock (VInt C) (VInt O) (VInt 7) (float_lit 0 1) = Ok m ∧
     dims_of st' cid' = Some [B; O; H; W]).
Proof.
  split.
  - intros C O k dp B H W HC HO Hk Hodd HB HH HW Hdp.
    destruct (ConvNeXtBlock_shape C O k dp B H W HC HO Hk Hodd HB HH HW Hdp) as (m & Hm & Hs).
    exists m. split_and!; [done| |].
    + intros ->. by rewrite Hs, broadcast_same.
    + intros. rewrite Hs. by apply broadcast_channels_differ.
  - intros p cid st m cid' st' d B C H W O Hrun Hd Hl Hi Ho HC HO HB HH HW.
    run_branch Hrun.
    all: simplify_map_eq.
    all: try (destruct Hi as [Hi|Hi]; simplify_map_eq; simpl in *; try done; try lia).
    all: concrete_lists.
    all: by split.
Qed.

Lemma ConvNeXtBlock_needs_equal_channels_witness :
  ∃ m, ConvNeXtBlock (VInt 8) (VInt 4) (VInt 7) (float_lit 0 1) = Ok m ∧
       (4 = 8 → Norm.shape_of m [2; 8; 16; 16] = Ok [2; 8; 16; 16]) ∧
       (4 ≠ 8 → 4 ≠ 1 → 8 ≠ 1 → Norm.shape_of m [2; 8; 16; 16] = Raise TorchError).
Proof.
  apply (proj1 ConvNeXtBlock_needs_equal_channels 8 4 7 (float_lit 0 1) 2 16 16);
    reflexivity.
Defined.

(** X24.  ['Conv2dDS'] with [padding] absent or ['valid']: the module
    is built without [param.stride] and produces [[B, out, H - k0 + 1,
    W - k1 + 1]], while the list records the sizes
    [floor((H - k0) / s0) + 1] and [floor((W - k1) / s1) + 1] of a
    convolution with that stride. *)
Theorem Conv2dDS_module_has_stride_one p cid st m cid' st' d B C H W o k0 k1 s0 s1 :
  f_parse_component "Conv2dDS" (Ref p) cid st = (Ok (m, cid'), st') →
  param_of st p = Some d → dims_of st cid = Some [B; C; H; W] →
  d !! "in_channels" = Some (VInt C) ∨ d !! "in_channels" = Some (VInt (-1)) →
  d !! "out_channels" = Some (VInt o) →
  d !! "kernel_size" = Some (VList [k0; k1]) →
  d !! "padding" = None ∨ d !! "padding" = Some (VStr "valid") →
  d !! "stride" = Some (VList [s0; s1]) →
  0 < C → 0 < o → 0 < k0 ≤ H → 0 < k1 ≤ W → H < 2 ^ 50 → W < 2 ^ 50 →
  0 < s0 < 2 ^ 50 → 0 < s1 < 2 ^ 50 →
  Norm.shape_of m [B; C; H; W] = Ok [B; o; H - k0 + 1; W - k1 + 1] ∧
  dims_of st' cid' = Some [B; o; (H - k0) / s0 + 1; (W - k1) / s1 + 1].
Proof.
  intros Hrun Hd Hl Hi Ho Hk Hp Hs HC Hop Hk0 Hk1 HH HW Hs0 Hs1.
  destruct (depthwise_separable_conv_shape C o k0 k1 B H W HC Hop Hk0 Hk1) as (m' & Hm' & Hsh).
  run_branch Hrun.
  all: simplify_map_eq.
  all: repeat match goal with
       | H : bool_decide _ = true |- _ => apply bool_decide_eq_true in H
       | H : bool_decide _ = false |- _ => apply bool_decide_eq_false in H
       end.
  all: try (destruct Hi as [Hi|Hi]; simplify_map_eq; simpl in *; try done; try lia).
  all: try (destruct Hp as [Hp|Hp]; simplify_map_eq; simpl in *; try done).
  all: concrete_lists.
  all: repeat match goal with H : f_get_next_size _ _ _ = Ok _ |- _ =>
         rewrite f_get_next_size_small in H by lia; injection H as <- end.
  all: concrete_lists.
  all: match goal with
       | H1 : depthwise_separable_conv ?a ?b ?c ?d ?e = Ok ?m1,
         H2 : depthwise_separable_conv ?a ?b ?c ?d ?e = Ok ?m2 |- _ =>
           rewrite H1 in H2; injection H2 as <-
       end.
  all: by split.
Qed.

Lemma Conv2dDS_module_has_stride_one_witness :
  let st := mkState [ODict (list_to_map
                       [("in_channels", VInt 4); ("out_channels", VInt 8);
                        ("kernel_size", VList [3; 3]); ("stride", VList [2; 2])]);
                     OList [2; 4; 16; 16]] [] in
  ∃ m, depthwise_separable_conv (VInt 4) (VInt 1) (VInt 8) (VList [3; 3]) (VStr "valid")
         = Ok m ∧
       Norm.shape_of m [2; 4; 16; 16] = Ok [2; 8; 16 - 3 + 1; 16 - 3 + 1] ∧
       dims_of (final (f_parse_component "Conv2dDS" (Ref 0%nat) 1%nat st)) 1%nat
         = Some [2; 8; (16 - 3) / 2 + 1; (16 - 3) / 2 + 1].
Proof.
  intros st. eexists. split; [reflexivity|].
  apply (Conv2dDS_module_has_stride_one 0%nat 1%nat st _ 1%nat
           (final (f_parse_component "Conv2dDS" (Ref 0%nat) 1%nat st))
           (list_to_map [("in_channels", VInt 4); ("out_channels", VInt 8);
                         ("kernel_size", VList [3; 3]); ("stride", VList [2; 2])])
           2 4 16 16 8 3 3 2 2).
  - vm_compute. reflexivity.
  - reflexivity.
  - reflexivity.
  - by left.
  - reflexivity.
  - reflexivity.
  - by left.
  - reflexivity.
  - reflexivity.
  - reflexivity.
  - split; [reflexivity | discriminate].
  - split; [reflexivity | discriminate].
  - reflexivity.
  - reflexivity.
  - split; reflexivity.
  - split; reflexivity.
Defined.

Lemma LayerNorm_rest_fits l eps :
  (2 ≤ length l)%nat → Forall (λ n, 0 < n) l →
  Norm.shape_of (nn_LayerNorm (VList (drop 1 l)) eps) l = Ok l.
Proof.
  intros Hlen Hpos. unfold Norm.shape_of.
  cbn [forward nn_forward Norm.torch Norm.nn_shape].
  rewrite forallb_positive by done.
  rewrite bool_decide_eq_false_2.
  - cbn [negb andb]. rewrite bool_decide_eq_true_2; [done|].
    exists (take 1 l). by rewrite take_drop.
  - destruct l as [|? [|? ?]]; simpl in *; [lia|lia|done].
Qed.

Lemma BatchNorm1d_shape c a s B rest :
  (length rest ≤ 1)%nat → 0 < c → s = B :: c :: rest → Forall (λ n, 0 < n) s →
  1 < B * Shape.product rest →
  Norm.shape_of (nn_BatchNorm1d (VInt c) a) s = Ok s.
Proof.
  intros Hr Hc -> Hs Hv. unfold Norm.shape_of.
  cbn [forward nn_forward Norm.torch].
  destruct rest as [|L [|? ?]]; [| |simpl in Hr; lia].
  all: cbn [Norm.nn_shape]; by eapply batch_norm_fits.
Qed.

Lemma BatchNorm1d_wrong_channels c a B C L :
  0 < c → C ≠ c → Norm.shape_of (nn_BatchNorm1d (VInt c) a) [B; C; L] = Raise TorchError.
Proof.
  intros Hc Hne. unfold Norm.shape_of.
  cbn [forward nn_forward Norm.torch Norm.nn_shape]. unfold Norm.batch_norm, Shape.channels_fit.
  rewrite (proj2 (Z.ltb_lt 0 c)) by done.
  by destruct (Z.eqb_spec C c).
Qed.

Lemma forward_nnBatchNorm1dT {T} `{Torch T} m (x : T) :
  forward (mk_nnBatchNorm1dT m) x =
  (y ← t_permute (VList [0; 2; 1]) x; y ← forward m y; t_permute (VList [0; 2; 1]) y).
Proof. reflexivity. Qed.

Lemma nnBatchNorm1dT_shape B T D :
  0 < B → 0 < T → 0 < D → 1 < B * T →
  Norm.shape_of (nnBatchNorm1dT (VInt D)) [B; T; D] = Ok [B; T; D].
Proof.
  intros HB HT HD Hv. unfold Norm.shape_of, nnBatchNorm1dT.
  rewrite forward_nnBatchNorm1dT. cbn [t_permute Norm.torch].
  change (Shape.permute (VList [0; 2; 1]) [B; T; D]) with (@Ok (list Z) [B; D; T]).
  cbn [mbind pyres_bind].
  pose proof (BatchNorm1d_shape D (VBool true) [B; D; T] B [T]) as Hbn.
  unfold Norm.shape_of in Hbn. rewrite Hbn; [done|simpl; lia|done|done| |].
  - repeat constructor; lia.
  - unfold Shape.product. simpl foldr. lia.
Qed.

(** X25.  The normalisation layers built from [-1]: ['LayerNorm'],
    ['BatchNorm2d'] on [[B, C, H, W]], ['BatchNorm1dT'] on [[B, T, D]] and
    ['BatchNorm1d'] on [[B, D]] accept an input of the current shape and
    keep it; ['BatchNorm1d'] on [[B, T, D]] with [T] other than [D] is built
    with [D] features and refuses the input, whose channels are the [T]
    entries. *)
Theorem normalisation_autofill :
  (∀ p cid st m cid' st' d l,
     f_parse_component "LayerNorm" (Ref p) cid st = (Ok (m, cid'), st') →
     param_of st p = Some d → d !! "normalized_shape" = Some (VInt (-1)) →
     dims_of st cid = Some l → (2 ≤ length l)%nat → Forall (λ n, 0 < n) l →
     Norm.shape_of m l = Ok l ∧ dims_of st' cid' = Some l) ∧
  (∀ p cid st m cid' st' d B C H W,
     f_parse_component "BatchNorm2d" (Ref p) cid st = (Ok (m, cid'), st') →
     param_of st p = Some d → d !! "num_features" = Some (VInt (-1)) →
     dims_of st cid = Some [B; C; H; W] →
     0 < B → 0 < C → 0 < H → 0 < W → 1 < B * (H * W) →
     Norm.shape_of m [B; C; H; W] = Ok [B; C; H; W] ∧
     dims_of st' cid' = Some [B; C; H; W]) ∧
  (∀ p cid st m cid' st' d B T D,
     f_parse_component "BatchNorm1dT" (Ref p) cid st = (Ok (m, cid'), st') →
     param_of st p = Some d → d !! "num_features" = Some (VInt (-1)) →
     dims_of st cid = Some [B; T; D] →
     0 < B → 0 < T → 0 < D → 1 < B * T →
     Norm.shape_of m [B; T; D] = Ok [B; T; D] ∧ dims_of st' cid' = Some [B; T; D]) ∧
  (∀ p cid st m cid' st' d B D,
     f_parse_component "BatchNorm1d" (Ref p) cid st = (Ok (m, cid'), st') →
     param_of st p = Some d → d !! "num_features" = Some (VInt (-1)) →
     dims_of st cid = Some [B; D] →
     1 < B → 0 < D →
     Norm.shape_of m [B; D] = Ok [B; D] ∧ dims_of st' cid' = Some [B; D]) ∧
  (∀ p cid st m cid' st' d B T D,
     f_parse_component "BatchNorm1d" (Ref p) cid st = (Ok (m, cid'), st') →
     param_of st p = Some d → d !! "num_features" = Some (VInt (-1)) →
     dims_of st cid = Some [B; T; D] →
     0 < D → T ≠ D →
     Norm.shape_of m [B; T; D] = Raise TorchError ∧ dims_of st' cid' = Some [B; T; D]).
Proof.
  split_and!.
  - intros p cid st m cid' st' d l Hrun Hd Hn Hl Hlen Hpos. run_branch Hrun.
    all: simplify_map_eq.
    split; [exact (LayerNorm_rest_fits _ (float_lit 1 100000) Hlen Hpos)|done].
  - intros p cid st m cid' st' d B C H W Hrun Hd Hn Hl HB HC HH HW Hv. run_branch Hrun.
    all: simplify_map_eq.
    concrete_lists. split; [|done].
    exact (batch_norm2d_shape C B H W HC HB HH HW Hv).
  - intros p cid st m cid' st' d B T D Hrun Hd Hn Hl HB HT HD Hv. run_branch Hrun.
    all: simplify_map_eq.
    concrete_lists. split; [|done].
    exact (nnBatchNorm1dT_shape B T D HB HT HD Hv).
  - intros p cid st m cid' st' d B D Hrun Hd Hn Hl HB HD. run_branch Hrun.
    all: simplify_map_eq.
    all: concrete_lists.
    all: split; [|done].
    all: refine (BatchNorm1d_shape D (VBool true) [B; D] B [] _ HD eq_refl _ _).
    all: first [ simpl; lia | repeat constructor; lia | unfold Shape.product; simpl foldr; lia ].
  - intros p cid st m cid' st' d B T D Hrun Hd Hn Hl HD Hne. run_branch Hrun.
    all: simplify_map_eq.
    all: concrete_lists.
    all: split; [|done].
    all: exact (BatchNorm1d_wrong_channels D (VBool true) B T _ HD Hne).
Qed.

Lemma normalisation_autofill_witness :
  let st := mkState [ODict (list_to_map [("num_features", VInt (-1))]);
                     OList [4; 50; 128]] [] in
  Norm.shape_of (nn_BatchNorm1d (VInt 128) (VBool true)) [4; 50; 128] = Raise TorchError ∧
  dims_of (final (f_parse_component "BatchNorm1d" (Ref 0%nat) 1%nat st)) 1%nat
    = Some [4; 50; 128].
Proof.
  intros st.
  apply (proj2 (proj2 (proj2 (proj2 normalisation_autofill))) 0%nat 1%nat st
           (nn_BatchNorm1d (VInt 128) (VBool true)) 1%nat
           (final (f_parse_component "BatchNorm1d" (Ref 0%nat) 1%nat st))
           (list_to_map [("num_features", VInt (-1))]) 4 50 128).
  - vm_compute. reflexivity.
  - reflexivity.
  - reflexivity.
  - reflexivity.
  - reflexivity.
  - discriminate.
Defined.
